(** * The connection and resilience layer of the Elasticsearch client

    A shallow embedding of the client's endpoint pool ([next],
    [updateConns]), health checks ([healthcheck], [startupHealthcheck]),
    response classification ([checkResponse], [IsContextErr]) and request
    executor ([PerformRequest]), with the properties the specification
    states about them.

    Connections are Go pointers ([*conn]) shared between the pool, the
    health checker and the executor: they are modelled as addresses into
    a heap, so that keeping "the same object" and aliasing are visible.
    Calls that leave the process (the HTTP [Doer], the retrier, the
    clock) are oracles of the environment.

    Each function is run on its own, as it runs while it holds the locks
    it takes; the interleaving of the background tasks is not modelled.
    Dumps to the trace log leave no mark on the state and are left out; of
    the deferred closing of a response body only the panic for a response
    without a body is kept. *)

From Stdlib Require Import ZArith Lia Ascii.
From stdpp Require Import base option list gmap strings.

Local Open Scope string_scope.
Local Open Scope list_scope.
Local Open Scope Z_scope.

(** ** Errors *)

(** [ErrorDetails]: the fields of the decoded error body that the
    functions below read. *)
Record ErrorDetails := mkErrorDetails {
  Type_ : string;
  Reason : string
}.

(** Values of Go's [error] interface that this layer creates, compares or
    inspects; [nil] is [None] of [option error].
    - [Canceled], [DeadlineExceeded]: the two sentinels of package context;
    - [UrlError op url err]: a [*url.Error] wrapping [err];
    - [ElasticError status details]: the repository's [*Error];
    - [ErrNoClient]: the sentinel "no Elasticsearch node available";
    - [Wrap cause msg]: [errors.Wrap(cause, msg)] of pkg/errors, and
      [Wrapf cause format arg]: [errors.Wrapf(cause, format, arg)];
    - [OtherError msg temporary]: any other error value, with what its
      [Temporary()] method reports ([false] when it has none). *)
Inductive error :=
| Canceled
| DeadlineExceeded
| UrlError (op url : string) (err : error)
| ElasticError (status : Z) (details : option ErrorDetails)
| ErrNoClient
| Wrap (cause : error) (msg : string)
| Wrapf (cause : error) (format : string) (arg : error)
| OtherError (msg : string) (temporary : bool).

(** [Temporary()] as the Go libraries define it: context's deadline error
    is temporary, a [*url.Error] asks the error it wraps, pkg/errors'
    wrappers and plain [errors.New] values have no such method. *)
Fixpoint Temporary (e : error) : bool :=
  match e with
  | DeadlineExceeded => true
  | UrlError _ _ inner => Temporary inner
  | OtherError _ t => t
  | _ => false
  end.

(** [errors.Cause]: unwraps pkg/errors wrappers down to the root error. *)
Fixpoint Cause (e : error) : error :=
  match e with
  | Wrap c _ => Cause c
  | Wrapf c _ _ => Cause c
  | _ => e
  end.

Definition isErrNoClient (e : error) : bool :=
  match e with ErrNoClient => true | _ => false end.

(** [IsContextErr] (errors.go). *)
Fixpoint IsContextErr_err (err : error) : bool :=
  match err with
  | Canceled | DeadlineExceeded => true
  | UrlError _ _ inner => if Temporary err then true else IsContextErr_err inner
  | _ => false
  end.

Definition IsContextErr (err : option error) : bool :=
  match err with
  | None => false
  | Some e => IsContextErr_err e
  end.

(** Modelled from the spec: [IsUnauthorized] is called by
    [startupHealthcheck] but its definition is not among the sources; the
    specification calls these "auth errors (401)": an [*Error] whose
    status is 401. *)
Definition IsUnauthorized (err : option error) : bool :=
  match err with
  | Some (ElasticError status _) => bool_decide (status = 401)
  | _ => false
  end.

(** ** Machine integers *)

(** Go's [int] on the 64-bit targets: [x++] wraps around. *)
Definition wrap64 (x : Z) : Z := (x + 2 ^ 63) mod 2 ^ 64 - 2 ^ 63.
Definition incr (x : Z) : Z := wrap64 (x + 1).

(** ** Connections *)

Definition addr := nat.

(** Modelled from the spec: the [conn] type and its methods are not among
    the sources. The specification's Endpoint has a node identifier, a
    base URL and a liveness state "alive | dead, plus a failure
    counter/timestamp used for reporting". *)
Record conn := mkConn {
  nodeID : string;
  url : string;
  failures : Z;
  dead : bool;
  deadSince : option Z
}.

(** Messages handed to the loggers; each constructor stands for one format
    string of the source with its arguments. *)
Inductive logmsg :=
| LogAllDead (n : Z)
    (* "elastic: all %d nodes marked as dead; resurrecting them to prevent deadlock" *)
| LogIsDead (u : string)                      (* "elastic: %s is dead" *)
| LogIsDeadStatus (u : string) (status : Z)   (* "elastic: %s is dead [status=%d]" *)
| LogJoined (u : string)                      (* "elastic: %s joined the cluster" *)
| LogNoConnection                             (* "elastic: cannot get connection from pool" *)
| LogCannotCreateRequest (method u : string) (e : error)
| LogCannotSetBody (e : error)
| LogDeprecation (warning : string)           (* "Deprecation warning: %s" *)
| LogRequest (method u : string) (status : Z). (* "%s %s [status:%d, request:%.3fs]" *)

(** ** HTTP values *)

Record Request := mkRequest {
  Method : string;
  URL_ : string;
  Header : list (string * string);
  BasicAuth : option (string * string);
  Body : option string
}.

(** What reading and decoding a response body as an [Error] gives
    ([createResponseError]): no body, a failed read, bytes that are not
    JSON for an [Error], or a decoded [Error] with its [status] (0 when the
    body has none) and details. *)
Inductive BodyOutcome :=
| BodyNil
| BodyReadError
| BodyNotJSON
| BodyDecoded (status : Z) (details : option ErrorDetails).

Record HttpResponse := mkHttpResponse {
  StatusCode : Z;
  Warning : list string;        (* res.Header["Warning"] *)
  ResBody : BodyOutcome
}.

(** The repository's [*Response], built by [newResponse]. *)
Record Response := mkResponse {
  RespStatusCode : Z;
  RespBody : option string
}.

(** ** Observable events *)

Inductive event :=
| EvErrorf (m : logmsg)          (* a message given to the error logger *)
| EvInfof (m : logmsg)           (* a message given to the info logger *)
| EvDo (a : addr) (r : Request)   (* one physical send of [PerformRequest] *)
| EvProbe (a : option addr) (r : Request)  (* one HEAD request of a health check *)
| EvRetry (n : Z)                (* the retrier consulted for attempt n *)
| EvSleep (d : Z)                (* time.Sleep(d) *)
| EvDeprecation                  (* the deprecation callback *)
| EvMarkAsDead (a : addr)
| EvMarkAsAlive (a : addr)
| EvMarkAsHealthy (a : addr).

(** ** The state of the client and of its surroundings *)

Record World := mkWorld {
  conns : list addr;        (* c.conns: all connections *)
  cindex : Z;               (* c.cindex: index into conns *)
  heap : gmap addr conn;    (* the conn objects *)
  clock : Z;                (* time.Now(), in nanoseconds *)
  ndo : nat;                (* how many times the Doer has been called *)
  nprobe : nat;             (* how many health-check probes have been started *)
  trace : list event        (* what happened so far, oldest first *)
}.

Definition set_conns (l : list addr) (w : World) : World :=
  mkWorld l (cindex w) (heap w) (clock w) (ndo w) (nprobe w) (trace w).
Definition set_cindex (i : Z) (w : World) : World :=
  mkWorld (conns w) i (heap w) (clock w) (ndo w) (nprobe w) (trace w).
Definition set_heap (h : gmap addr conn) (w : World) : World :=
  mkWorld (conns w) (cindex w) h (clock w) (ndo w) (nprobe w) (trace w).
Definition set_clock (t : Z) (w : World) : World :=
  mkWorld (conns w) (cindex w) (heap w) t (ndo w) (nprobe w) (trace w).
Definition set_ndo (k : nat) (w : World) : World :=
  mkWorld (conns w) (cindex w) (heap w) (clock w) k (nprobe w) (trace w).
Definition set_nprobe (k : nat) (w : World) : World :=
  mkWorld (conns w) (cindex w) (heap w) (clock w) (ndo w) k (trace w).
Definition emit (e : event) (w : World) : World :=
  mkWorld (conns w) (cindex w) (heap w) (clock w) (ndo w) (nprobe w) (trace w ++ [e]).

(** ** A state monad with panics *)

(** A computation ends with a value and a new state, panics (nil pointer
    dereference, index out of range), or is cut off by the fuel of an
    unbounded loop. *)
Inductive Res (A : Type) :=
| Ok (a : A) (w : World)
| Panic
| OutOfFuel.
Arguments Ok {A} a w.
Arguments Panic {A}.
Arguments OutOfFuel {A}.

Definition M (A : Type) : Type := World → Res A.

Global Instance M_ret : MRet M := λ A a w, Ok a w.
Global Instance M_bind : MBind M := λ A B f m w,
  match m w with
  | Ok a w' => f a w'
  | Panic => Panic
  | OutOfFuel => OutOfFuel
  end.

Definition gets {A} (f : World → A) : M A := λ w, Ok (f w) w.
Definition modify (f : World → World) : M unit := λ w, Ok tt (f w).
Definition panic {A} : M A := λ _, Panic.
Definition out_of_fuel {A} : M A := λ _, OutOfFuel.

(** [l[i]] on a slice: out of range panics. *)
Definition slice_index {A} (l : list A) (i : Z) : M A :=
  if bool_decide (0 ≤ i) then
    match l !! Z.to_nat i with
    | Some x => mret x
    | None => panic
    end
  else panic.

(** Dereferencing a [*conn]: a pointer to nothing panics. *)
Definition deref (a : addr) : M conn := λ w,
  match heap w !! a with
  | Some c => Ok c w
  | None => Panic
  end.

Definition store (a : addr) (c : conn) : M unit :=
  modify (λ w, set_heap (<[a := c]> (heap w)) w).

(** Modelled from the spec: the methods of [conn], which the sources call
    but do not contain. [MarkAsDead] and [MarkAsAlive] "mutate liveness
    state of one entry"; [MarkAsHealthy] "additionally clears failure
    counters". A failure is counted, and its time kept, when a connection is
    marked dead. *)
Definition deadened (now : Z) (k : conn) : conn :=
  mkConn (nodeID k) (url k) (incr (failures k)) true
    (match deadSince k with Some t => Some t | None => Some now end).

Definition alive (k : conn) : conn :=
  mkConn (nodeID k) (url k) (failures k) false (deadSince k).

Definition healthy (k : conn) : conn :=
  mkConn (nodeID k) (url k) 0 false None.

Definition NodeID (a : addr) : M string := c ← deref a; mret (nodeID c).
Definition URL (a : addr) : M string := c ← deref a; mret (url c).
Definition IsDead (a : addr) : M bool := c ← deref a; mret (dead c).

Definition MarkAsDead (a : addr) : M unit :=
  c ← deref a;
  now ← gets clock;
  store a (deadened now c);;
  modify (emit (EvMarkAsDead a)).

Definition MarkAsAlive (a : addr) : M unit :=
  c ← deref a;
  store a (alive c);;
  modify (emit (EvMarkAsAlive a)).

Definition MarkAsHealthy (a : addr) : M unit :=
  c ← deref a;
  store a (healthy c);;
  modify (emit (EvMarkAsHealthy a)).

Definition newConn (node u : string) : conn := mkConn node u 0 false None.

(** ** The client's configuration *)

(** Modelled from the spec: the [Retrier] interface is not among the
    sources; the specification gives its contract as a function of the
    attempt number, the failed request, the failed response if any and the
    error, to a wait duration, a retry flag and a fatal error or nil. *)
Definition Retrier : Type :=
  Z → option Request → option HttpResponse → option error → Z * bool * option error.

Record Client := mkClient {
  urls : list string;
  errorlog : bool;                 (* c.errorlog != nil *)
  infolog : bool;                  (* c.infolog != nil *)
  healthcheckEnabled : bool;
  healthcheckTimeout : Z;
  snifferEnabled : bool;
  basicAuthUsername : string;
  basicAuthPassword : string;
  sendGetBodyAs : string;
  gzipEnabled : bool;
  retrier : Retrier;
  retryStatusCodes : option (list Z);   (* a nil slice is None *)
  headers : list (string * string)
}.

(** [errorf], [infof]: the message goes to the logger when one is set. *)
Definition errorf (c : Client) (m : logmsg) : M unit :=
  if errorlog c then modify (emit (EvErrorf m)) else mret tt.

Definition infof (c : Client) (m : logmsg) : M unit :=
  if infolog c then modify (emit (EvInfof m)) else mret tt.

(** [for _, x := range l { body x }]. *)
Fixpoint forM_ {A} (l : list A) (body : A → M unit) : M unit :=
  match l with
  | [] => mret tt
  | x :: l' => body x;; forM_ l' body
  end.

(** ** Endpoint pool: [next] *)

(** The scanning loop of [next]. The source counts [i] from 1 up to
    [numConns]; [k] is the number of iterations still allowed,
    [numConns - i + 1]. The result is the connection found, if any. *)
Fixpoint next_loop (numConns : Z) (k : nat) : M (option addr) :=
  match k with
  | O => mret None
  | S k' =>
      ci ← gets cindex;
      let ci := incr ci in
      let ci := if bool_decide (numConns ≤ ci) then 0 else ci in
      modify (set_cindex ci);;
      cs ← gets conns;
      conn ← slice_index cs ci;
      d ← IsDead conn;
      if negb d then mret (Some conn) else next_loop numConns k'
  end.

Definition errNoAvailableConnection : error := Wrap ErrNoClient "no available connection".

Definition next (c : Client) : M (option addr * option error) :=
  cs ← gets conns;
  let numConns := Z.of_nat (length cs) in
  found ← next_loop numConns (length cs);
  match found with
  | Some conn => mret (Some conn, None)
  | None =>
      (if negb (snifferEnabled c) then
         errorf c (LogAllDead (Z.of_nat (length cs)));;
         cs' ← gets conns;
         forM_ cs' MarkAsAlive
       else mret tt);;
      mret (None, Some errNoAvailableConnection)
  end.

(** ** Endpoint pool: [updateConns] *)

(** The inner loop of [updateConns]: the first old connection with the
    node identifier and the URL of [conn]. [&&] evaluates [URL()] only when
    the identifiers are equal. *)
Fixpoint findOld (olds : list addr) (conn : addr) : M (option addr) :=
  match olds with
  | [] => mret None
  | oldConn :: rest =>
      idOld ← NodeID oldConn;
      idNew ← NodeID conn;
      same ← (if bool_decide (idOld = idNew) then
                uOld ← URL oldConn;
                uNew ← URL conn;
                mret (bool_decide (uOld = uNew))
              else mret false);
      if (same : bool) then mret (Some oldConn) else findOld rest conn
  end.

(** The outer loop, with [newConns] as accumulator. *)
Fixpoint updateConns_loop (c : Client) (olds discovered newConns : list addr)
  : M (list addr) :=
  match discovered with
  | [] => mret newConns
  | conn :: rest =>
      found ← findOld olds conn;
      match found with
      | Some oldConn => updateConns_loop c olds rest (newConns ++ [oldConn])
      | None =>
          u ← URL conn;
          infof c (LogJoined u);;
          updateConns_loop c olds rest (newConns ++ [conn])
      end
  end.

Definition updateConns (c : Client) (discovered : list addr) : M unit :=
  olds ← gets conns;
  newConns ← updateConns_loop c olds discovered [];
  modify (set_conns newConns);;
  modify (set_cindex (-1)).

(** [mustActiveConn]. *)
Fixpoint mustActiveConn_loop (cs : list addr) : M (option error) :=
  match cs with
  | [] => mret (Some (Wrap ErrNoClient "no active connection found"))
  | a :: rest => d ← IsDead a; if negb d then mret None else mustActiveConn_loop rest
  end.

Definition mustActiveConn : M (option error) :=
  cs ← gets conns; mustActiveConn_loop cs.

(** ** The environment *)

(** What the client does not decide: whether a request can be built, what
    the HTTP [Doer] answers to its [k]-th call and how long that takes,
    which branch the [select] of the [k]-th health-check probe takes,
    whether the calling context is done at a given time, and what
    [newResponse] (not among the sources) makes of an HTTP response. *)
Record Env := mkEnv {
  env_platform : string;                  (* runtime.GOOS + "-" + runtime.GOARCH *)
  env_NewRequest : string → string → option error;
  env_SetBody : string → bool → option error;
  env_Do : nat → Request → option HttpResponse * option error;
  env_took : nat → Z;
  env_timeout : nat → bool;
  env_ctxErr : Z → option error;
  env_newResponse : HttpResponse → Z → bool → option Response * option error
}.

Definition Version : string := "7.0.32".

Definition userAgent (E : Env) : string :=
  "elastic/" +:+ Version +:+ " (" +:+ env_platform E +:+ ")".

(** [http.Header] as the list of its entries; [Get] gives the first value
    of a key or the empty string. *)
Fixpoint header_get (h : list (string * string)) (k : string) : string :=
  match h with
  | [] => ""
  | (k', v) :: h' => if bool_decide (k' = k) then v else header_get h' k
  end.

Definition header_add (h : list (string * string)) (k v : string) :=
  h ++ [(k, v)].

Definition header_set (h : list (string * string)) (k v : string) :=
  filter (λ kv, kv.1 ≠ k) h ++ [(k, v)].

Definition with_header (f : list (string * string) → list (string * string))
  (r : Request) : Request :=
  mkRequest (Method r) (URL_ r) (f (Header r)) (BasicAuth r) (Body r).

Definition SetBasicAuth (user pass : string) (r : Request) : Request :=
  mkRequest (Method r) (URL_ r) (Header r) (Some (user, pass)) (Body r).

Definition add_headers (hs : list (string * string)) (r : Request) : Request :=
  with_header (λ h, h ++ hs) r.

Definition default_user_agent (E : Env) (set : bool) (r : Request) : Request :=
  if bool_decide (header_get (Header r) "User-Agent" = "") then
    with_header (λ h, if set then header_set h "User-Agent" (userAgent E)
                      else header_add h "User-Agent" (userAgent E)) r
  else r.

Definition hasBasicAuth (c : Client) : bool :=
  negb (bool_decide (basicAuthUsername c = "")) || negb (bool_decide (basicAuthPassword c = "")).

(** One call of the [Doer]: the [k]-th call gets the [k]-th answer and
    takes the [k]-th latency. *)
Definition Do (E : Env) (r : Request) : M (option HttpResponse * option error) :=
  k ← gets ndo;
  modify (set_ndo (S k));;
  now ← gets clock;
  modify (set_clock (now + Z.max 0 (env_took E k)));;
  mret (env_Do E k r).

(** ** Health checks *)

Inductive ProbeOutcome :=
| ProbeTimeout                              (* case <-ctx.Done() *)
| ProbeAnswer (status : Z) (err : option error).  (* case err := <-errc *)

(** The HEAD request of a health-check probe. *)
Definition headRequest (E : Env) (c : Client) (u : string) : Request :=
  let req := mkRequest "HEAD" u [] None None in
  let req := if hasBasicAuth c
             then SetBasicAuth (basicAuthUsername c) (basicAuthPassword c) req
             else req in
  let req := add_headers (headers c) req in
  default_user_agent E false req.

(** The goroutine of [healthcheck] and the [select] waiting for it: the
    goroutine sends its error, having set [status] when there is a
    response; the [select] takes that answer or the timeout. *)
Definition probe (E : Env) (c : Client) (a : addr) (u : string) : M ProbeOutcome :=
  k ← gets nprobe;
  modify (set_nprobe (S k));;
  answer ← match env_NewRequest E "HEAD" u with
           | Some err => mret (0, Some err)
           | None =>
               modify (emit (EvProbe (Some a) (headRequest E c u)));;
               '(res, err) ← Do E (headRequest E c u);
               mret (match res with Some r => StatusCode r | None => 0 end, err)
           end;
  if env_timeout E k then mret ProbeTimeout
  else mret (ProbeAnswer answer.1 answer.2).

(** The body of the loop of [healthcheck] for one connection. *)
Definition healthcheck_conn (E : Env) (c : Client) (a : addr) : M unit :=
  u ← URL a;
  o ← probe E c a u;
  match o with
  | ProbeTimeout =>
      u ← URL a; errorf c (LogIsDead u);; MarkAsDead a
  | ProbeAnswer status (Some _) =>
      u ← URL a; errorf c (LogIsDead u);; MarkAsDead a
  | ProbeAnswer status None =>
      if bool_decide (200 ≤ status) && bool_decide (status < 300) then
        MarkAsAlive a
      else
        MarkAsDead a;;
        u ← URL a; errorf c (LogIsDeadStatus u status)
  end.

Definition healthcheck (E : Env) (c : Client) (force : bool) : M unit :=
  if negb (healthcheckEnabled c) && negb force then mret tt
  else
    cs ← gets conns;
    forM_ cs (healthcheck_conn E c).

(** One second, in the nanoseconds of [time.Duration]. *)
Definition second : Z := 1000000000.

(** The inner loop of [startupHealthcheck] over the seed URLs. [inl r]: the
    function returns [r] from inside the loop; [inr lastErr]: the loop ran
    to its end. *)
Fixpoint startup_urls (E : Env) (c : Client) (us : list string)
  (lastErr : option error) : M (option error + option error) :=
  match us with
  | [] => mret (inr lastErr)
  | u :: rest =>
      match env_NewRequest E "HEAD" u with
      | Some err => mret (inl (Some err))
      | None =>
          let req := mkRequest "HEAD" u [] None None in
          let req := if hasBasicAuth c
                     then SetBasicAuth (basicAuthUsername c) (basicAuthPassword c) req
                     else req in
          let req := add_headers (headers c) req in
          modify (emit (EvProbe None req));;
          '(res, err) ← Do E req;
          match err with
          | Some e => startup_urls E c rest (Some e)
          | None =>
              match res with
              | None => panic
              | Some r =>
                  if bool_decide (200 ≤ StatusCode r) && bool_decide (StatusCode r < 300) then
                    mret (inl None)
                  else if bool_decide (StatusCode r = 401) then
                    startup_urls E c rest (Some (ElasticError (StatusCode r) None))
                  else startup_urls E c rest lastErr
              end
          end
      end
  end.

(** What [startupHealthcheck] returns once its loop is over. *)
Definition startup_result (lastErr : option error) : option error :=
  match lastErr with
  | Some e =>
      if IsContextErr lastErr || IsUnauthorized lastErr then Some e
      else Some (Wrapf ErrNoClient "health check timeout: %v" e)
  | None => Some (Wrap ErrNoClient "health check timeout")
  end.

(** The outer loop [for !done]: one round probes every URL, then waits for
    the calling context or for one second. The calling context wins the
    [select] when it is done by the time the timer would fire. *)
Fixpoint startupHealthcheck_loop (E : Env) (c : Client) (fuel : nat)
  (start timeout : Z) (lastErr : option error) : M (option error) :=
  match fuel with
  | O => out_of_fuel
  | S fuel' =>
      r ← startup_urls E c (urls c) lastErr;
      match r with
      | inl ret => mret ret
      | inr lastErr =>
          now ← gets clock;
          match env_ctxErr E (now + second) with
          | Some e => mret (startup_result (Some e))
          | None =>
              modify (set_clock (now + second));;
              now ← gets clock;
              if bool_decide (timeout < now - start) then mret (startup_result lastErr)
              else startupHealthcheck_loop E c fuel' start timeout lastErr
          end
      end
  end.

Definition startupHealthcheck (E : Env) (c : Client) (fuel : nat) (timeout : Z)
  : M (option error) :=
  start ← gets clock;
  startupHealthcheck_loop E c fuel start timeout None.

(** ** Responses *)

(** [createResponseError] (errors.go). *)
Definition createResponseError (res : HttpResponse) : error :=
  match ResBody res with
  | BodyNil => ElasticError (StatusCode res) None
  | BodyReadError => ElasticError (StatusCode res) None
  | BodyNotJSON => ElasticError (StatusCode res) None
  | BodyDecoded status details =>
      ElasticError (if bool_decide (status = 0) then StatusCode res else status) details
  end.

Fixpoint inCodes (codes : list Z) (statusCode : Z) : bool :=
  match codes with
  | [] => false
  | code :: rest => if bool_decide (code = statusCode) then true else inCodes rest statusCode
  end.

(** [checkResponse] (errors.go). *)
Definition checkResponse (req : Request) (res : HttpResponse) (ignoreErrors : list Z)
  : option error :=
  if bool_decide (200 ≤ StatusCode res) && bool_decide (StatusCode res ≤ 299) then None
  else if inCodes ignoreErrors (StatusCode res) then None
  else Some (createResponseError res).

(** ** Request executor: [PerformRequest] *)

Record PerformRequestOptions := mkOptions {
  optMethod : string;
  optPath : string;
  optParams : option string;      (* None: len(Params) = 0; Some q: Params.Encode() = q *)
  optBody : option string;
  optContentType : string;
  optIgnoreErrors : list Z;
  optRetrier : option Retrier;
  optRetryStatusCodes : option (list Z);
  optHeaders : list (string * string);
  optMaxResponseSize : Z;
  optStream : bool
}.

(** How one iteration of the loop of [PerformRequest] ends: with [continue]
    (and the new values of [retried] and [n]) or with a [return]. *)
Inductive Step :=
| Continue (retried : bool) (n : Z)
| Return (resp : option Response) (err : option error).

(** The [retry] closure: is the status code one to retry on? *)
Definition retry (retryStatusCodes : option (list Z)) (statusCode : Z) : bool :=
  match retryStatusCodes with
  | None => false
  | Some codes => inCodes codes statusCode
  end.

(** [time.Sleep(wait)]: returns at once for a duration that is not positive. *)
Definition Sleep (wait : Z) : M unit :=
  modify (emit (EvSleep wait));;
  now ← gets clock;
  modify (set_clock (now + Z.max 0 wait)).

(** A call of the retrier for attempt [n]. *)
Definition Retry (r : Retrier) (n : Z) (req : option Request)
  (res : option HttpResponse) (err : option error) : M (Z * bool * option error) :=
  modify (emit (EvRetry n));;
  mret (r n req res err).

(** Building the request for connection [conn] (steps from [NewRequest] to
    [SetBody]); [inl err]: [PerformRequest] returns [nil, err]. *)
Definition buildRequest (E : Env) (c : Client) (opt : PerformRequestOptions)
  (method : string) (conn : addr) : M (error + Request) :=
  let pathWithParams :=
    match optParams opt with
    | Some q => optPath opt +:+ "?" +:+ q
    | None => optPath opt
    end in
  u ← URL conn;
  match env_NewRequest E method (u +:+ pathWithParams) with
  | Some err =>
      u' ← URL conn;
      errorf c (LogCannotCreateRequest method (u' +:+ pathWithParams) err);;
      mret (inl err)
  | None =>
      let req := mkRequest method (u +:+ pathWithParams) [] None None in
      let req := if hasBasicAuth c
                 then SetBasicAuth (basicAuthUsername c) (basicAuthPassword c) req
                 else req in
      let req := if bool_decide (optContentType opt = "") then req
                 else with_header (λ h, header_set h "Content-Type" (optContentType opt)) req in
      let req := add_headers (optHeaders opt) req in
      let req := add_headers (headers c) req in
      let req := default_user_agent E true req in
      match optBody opt with
      | None => mret (inr req)
      | Some b =>
          match env_SetBody E b (gzipEnabled c) with
          | Some err => errorf c (LogCannotSetBody err);; mret (inl err)
          | None =>
              mret (inr (mkRequest (Method req) (URL_ req) (Header req) (BasicAuth req) (Some b)))
          end
      end
  end.

(** [if !opt.Stream { defer res.Body.Close() }]: the method value
    [res.Body.Close] is evaluated when the [defer] statement runs, which
    panics for a response without a body ([res.Body == nil]); the call of
    [Close] when [PerformRequest] returns leaves no mark on the state. *)
Definition closeBody (opt : PerformRequestOptions) (res : HttpResponse) : M unit :=
  if negb (optStream opt) then
    match ResBody res with
    | BodyNil => panic
    | _ => mret tt
    end
  else mret tt.

(** The part of an iteration after a response without transport error has
    passed the retry check: the deferred closing of the body, deprecation
    warnings, [checkResponse], [MarkAsHealthy], [newResponse] and the final
    info log. *)
Definition finishRequest (E : Env) (c : Client) (opt : PerformRequestOptions)
  (method : string) (conn : addr) (req : Request) (res : HttpResponse) : M Step :=
  closeBody opt res;;
  (if bool_decide (Warning res = []) then mret tt
   else modify (emit EvDeprecation);;
        forM_ (Warning res) (λ warning, errorf c (LogDeprecation warning)));;
  match checkResponse req res (optIgnoreErrors opt) with
  | Some err =>
      let '(resp, _) := env_newResponse E res (optMaxResponseSize opt) (optStream opt) in
      mret (Return resp (Some err))
  | None =>
      MarkAsHealthy conn;;
      let '(resp, err) := env_newResponse E res (optMaxResponseSize opt) (optStream opt) in
      match err with
      | Some e => mret (Return None (Some e))
      | None =>
          match resp with
          | None => panic
          | Some r =>
              infof c (LogRequest method (URL_ req) (RespStatusCode r));;
              mret (Return resp None)
          end
      end
  end.

(** The part of an iteration after the [Doer] has answered [res, err] to
    the request [req] sent to [conn]. *)
Definition afterDo (E : Env) (c : Client) (opt : PerformRequestOptions)
  (method : string) (rt : Retrier) (retryStatusCodes : option (list Z))
  (n : Z) (conn : addr) (req : Request)
  (res : option HttpResponse) (err : option error) : M Step :=
  if IsContextErr err then mret (Return None err)
  else
  match err with
  | Some _ =>
      let n := incr n in
      '(wait, ok, rerr) ← Retry rt n (Some req) res err;
      match rerr with
      | Some re =>
          u ← URL conn; errorf c (LogIsDead u);;
          MarkAsDead conn;;
          mret (Return None (Some re))
      | None =>
          if negb ok then
            u ← URL conn; errorf c (LogIsDead u);;
            MarkAsDead conn;;
            mret (Return None err)
          else Sleep wait;; mret (Continue true n)
      end
  | None =>
      match res with
      | None => panic
      | Some r =>
          if retry retryStatusCodes (StatusCode r) then
            let n := incr n in
            '(wait, ok, rerr) ← Retry rt n (Some req) res err;
            match rerr with
            | Some re =>
                u ← URL conn; errorf c (LogIsDead u);;
                MarkAsDead conn;;
                mret (Return None (Some re))
            | None =>
                if (ok : bool) then Sleep wait;; mret (Continue true n)
                else finishRequest E c opt method conn req r
            end
          else finishRequest E c opt method conn req r
      end
  end.

(** One iteration of [for { ... }] in [PerformRequest]. *)
Definition PerformRequest_iter (E : Env) (c : Client) (opt : PerformRequestOptions)
  (method : string) (rt : Retrier) (retryStatusCodes : option (list Z))
  (retried : bool) (n : Z) : M Step :=
  '(conn, err) ← next c;
  if match err with Some e => isErrNoClient (Cause e) | None => false end then
    let n := incr n in
    again ← (if negb retried then
               healthcheck E c false;;
               mret (healthcheckEnabled c)
             else mret false);
    if (again : bool) then mret (Continue true n)
    else
      '(wait, ok, rerr) ← Retry rt n None None err;
      match rerr with
      | Some re => mret (Return None (Some re))
      | None =>
          if negb ok then mret (Return None err)
          else Sleep wait;; mret (Continue true n)
      end
  else
  match err with
  | Some e => errorf c LogNoConnection;; mret (Return None (Some e))
  | None =>
  match conn with
  | None => panic
  | Some conn =>
  b ← buildRequest E c opt method conn;
  match b with
  | inl e => mret (Return None (Some e))
  | inr req =>
      modify (emit (EvDo conn req));;
      '(res, err) ← Do E req;
      afterDo E c opt method rt retryStatusCodes n conn req res err
  end
  end
  end.

Fixpoint PerformRequest_loop (E : Env) (c : Client) (opt : PerformRequestOptions)
  (method : string) (rt : Retrier) (retryStatusCodes : option (list Z))
  (fuel : nat) (retried : bool) (n : Z) : M (option Response * option error) :=
  match fuel with
  | O => out_of_fuel
  | S fuel' =>
      s ← PerformRequest_iter E c opt method rt retryStatusCodes retried n;
      match s with
      | Continue retried' n' =>
          PerformRequest_loop E c opt method rt retryStatusCodes fuel' retried' n'
      | Return resp err => mret (resp, err)
      end
  end.

(** The retrier, the retry status codes and the method a call works with:
    the options of the call override the client's. *)
Definition callRetrier (c : Client) (opt : PerformRequestOptions) : Retrier :=
  match optRetrier opt with Some r => r | None => retrier c end.

Definition callRetryStatusCodes (c : Client) (opt : PerformRequestOptions)
  : option (list Z) :=
  match optRetryStatusCodes opt with
  | Some codes => Some codes
  | None => retryStatusCodes c
  end.

Definition callMethod (c : Client) (opt : PerformRequestOptions) : string :=
  if bool_decide (optMethod opt = "GET") && bool_decide (optBody opt ≠ None)
     && negb (bool_decide (sendGetBodyAs c = "GET"))
  then sendGetBodyAs c else optMethod opt.

(** [PerformRequest]; [fuel] bounds the number of iterations of its loop. *)
Definition PerformRequest (E : Env) (c : Client) (fuel : nat)
  (opt : PerformRequestOptions) : M (option Response * option error) :=
  PerformRequest_loop E c opt (callMethod c opt) (callRetrier c opt)
    (callRetryStatusCodes c opt) fuel false 0.
(** ** Predicates on states *)

(** Is the connection at address [a] dead? A dangling pointer counts as
    neither dead nor alive. *)
Definition deadAt (h : gmap addr conn) (a : addr) : bool :=
  match h !! a with Some k => dead k | None => false end.

Definition liveAt (h : gmap addr conn) (a : addr) : bool :=
  match h !! a with Some k => negb (dead k) | None => false end.

(** Every connection of the pool exists and is marked dead. *)
Definition all_dead (w : World) : bool := forallb (deadAt (heap w)) (conns w).

(** Every pointer of a list points to a connection. *)
Definition valid (h : gmap addr conn) (l : list addr) : bool :=
  forallb (λ a, bool_decide (is_Some (h !! a))) l.

(** The length of the pool fits an [int] and the cursor is where [next] and
    [updateConns] leave it: at -1 or on an entry. *)
Definition cursor_ok (w : World) : bool :=
  bool_decide (Z.of_nat (length (conns w)) < 2 ^ 63)
  && bool_decide (-1 ≤ cindex w) && bool_decide (cindex w < Z.of_nat (length (conns w))).

(** [n] successive calls of [next], with the connections they return. *)
Fixpoint nexts (c : Client) (n : nat) : M (list (option addr * option error)) :=
  match n with
  | O => mret []
  | S n' => r ← next c; rs ← nexts c n'; mret (r :: rs)
  end.

(** Where [next] moves the cursor: one step forward, back to 0 at the end
    of the pool. *)
Definition advance (numConns ci : Z) : Z :=
  if bool_decide (numConns ≤ incr ci) then 0 else incr ci.

(** The pool in the order in which [next] visits it: from the entry after
    the cursor to the end, then from the start up to the cursor. *)
Definition cycle (w : World) : list addr :=
  rotate (Z.to_nat (cindex w + 1)) (conns w).

(** The live connections, in that order. *)
Definition live_cycle (w : World) : list addr :=
  filter (λ a, liveAt (heap w) a = true) (cycle w).

(** ** Example pools and clients *)

Definition epA : addr := 0%nat.
Definition epB : addr := 1%nat.
Definition epC : addr := 2%nat.

Definition heapOf (a b c : conn) : gmap addr conn :=
  <[epC := c]> (<[epB := b]> (<[epA := a]> ∅)).

Definition markedDead (k : conn) : conn := deadened 0 k.

Definition nodeA : conn := newConn "A" "http://a:9200".
Definition nodeB : conn := newConn "B" "http://b:9200".
Definition nodeC : conn := newConn "C" "http://c:9200".

(** The pool [A, B, C], all alive, cursor at its initial position. *)
Definition poolABC : World :=
  mkWorld [epA; epB; epC] (-1) (heapOf nodeA nodeB nodeC) 0 0 0 [].

(** The same pool with B marked dead. *)
Definition poolABC_Bdead : World :=
  mkWorld [epA; epB; epC] (-1) (heapOf nodeA (markedDead nodeB) nodeC) 0 0 0 [].

(** The same pool with every connection marked dead. *)
Definition poolABC_dead : World :=
  mkWorld [epA; epB; epC] (-1)
    (heapOf (markedDead nodeA) (markedDead nodeB) (markedDead nodeC)) 0 0 0 [].

(** A retrier that allows [k] retries, waiting 100ms before each:
    what [SetMaxRetries(k)] configures, without the jitter. *)
Definition retries (k : Z) : Retrier :=
  λ n _ _ _, if bool_decide (n ≤ k) then (100000000, true, None) else (0, false, None).

(** [noRetries]: the retrier that does not retry. *)
Definition noRetries : Retrier := λ _ _ _ _, (0, false, None).

(** A client as [NewSimpleClient] sets it up (no health checks, no
    sniffing), with an error log. *)
Definition simpleClient (rt : Retrier) (codes : option (list Z)) : Client :=
  mkClient ["http://a:9200"; "http://b:9200"; "http://c:9200"]
    true false false (-1000000000) false "" "" "GET" false rt codes [].

(** The same client with sniffing enabled. *)
Definition sniffingClient : Client :=
  mkClient ["http://a:9200"; "http://b:9200"; "http://c:9200"]
    true false false (-1000000000) true "" "" "GET" false noRetries None [].

(** ** Reading the trace *)

(** The connections requests were sent to, in order. *)
Definition sent_to (tr : list event) : list addr :=
  omap (λ e, match e with EvDo a _ => Some a | _ => None end) tr.

(** The connections marked dead, in order. *)
Definition marked_dead (tr : list event) : list addr :=
  omap (λ e, match e with EvMarkAsDead a => Some a | _ => None end) tr.

(** The attempt numbers the retrier was consulted for, in order. *)
Definition consulted (tr : list event) : list Z :=
  omap (λ e, match e with EvRetry n => Some n | _ => None end) tr.

(** The durations slept, in order. *)
Definition slept (tr : list event) : list Z :=
  omap (λ e, match e with EvSleep d => Some d | _ => None end) tr.


(** ** Example environments and calls *)

(** An environment in which requests can always be built, the [Doer]
    answers as [doer] says and at once, health-check probes do not time out,
    the calling context is never done and [newResponse] succeeds. *)
Definition envOf (doer : nat → Request → option HttpResponse * option error) : Env :=
  mkEnv "linux-amd64" (λ _ _, None) (λ _ _, None) doer (λ _, 0) (λ _, false)
    (λ _, None) (λ r _ _, (Some (mkResponse (StatusCode r) None), None)).

Definition connectionRefused : error := OtherError "connection refused" false.

(** Every send fails with a transport error. *)
Definition envRefused : Env := envOf (λ _ _, (None, Some connectionRefused)).

(** Every send is answered with the given status and a response without a
    body. *)
Definition envStatus (status : Z) : Env :=
  envOf (λ _ _, (Some (mkHttpResponse status [] BodyNil), None)).

(** The send is cut short by the cancellation of the call's context. *)
Definition canceledSend : error := UrlError "Get" "http://a:9200/" Canceled.
Definition envCanceled : Env := envOf (λ _ _, (None, Some canceledSend)).

(** The send fails with a temporary error that is no cancellation. *)
Definition temporaryFailure : error :=
  UrlError "Get" "http://a:9200/" (OtherError "connection reset by peer" true).
Definition envTemporary : Env := envOf (λ _ _, (None, Some temporaryFailure)).

(** [GET /] without parameters, body or overrides. *)
Definition getRoot : PerformRequestOptions :=
  mkOptions "GET" "/" None None "" [] None None [] 0 false.

(** Is the error one of the two context errors, bare or wrapped in
    [*url.Error]s as the [Doer] returns them? *)
Fixpoint isCancellation (e : error) : bool :=
  match e with
  | Canceled | DeadlineExceeded => true
  | UrlError _ _ inner => isCancellation inner
  | _ => false
  end.

(** A retrier that allows exactly [k] retries: it says "retry" for the
    attempts 1 to [k] and "do not retry" for attempt [k + 1], without ever
    returning an error of its own. *)
Definition allows_exactly (k : Z) (rt : Retrier) : Prop :=
  (∀ n req res err, 1 ≤ n ≤ k → ∃ wait, rt n req res err = (wait, true, None))
  ∧ (∀ req res err, ∃ wait, rt (k + 1) req res err = (wait, false, None)).

(** The sends number [k] to [k + m - 1] fail with transport errors that are
    no context errors, whatever the request. *)
Definition sends_fail (E : Env) (k m : nat) : Prop :=
  ∀ i req, (k ≤ i < k + m)%nat →
    ∃ res e, env_Do E i req = (res, Some e) ∧ IsContextErr_err e = false.

(** The sends number [k] to [k + m - 1] are answered with a status of the
    list [codes], whatever the request. *)
Definition sends_answer (E : Env) (codes : list Z) (k m : nat) : Prop :=
  ∀ i req, (k ≤ i < k + m)%nat →
    ∃ r, env_Do E i req = (Some r, None) ∧ inCodes codes (StatusCode r) = true.

(** Requests can always be built. *)
Definition builds (E : Env) : Prop :=
  (∀ m u, env_NewRequest E m u = None) ∧ (∀ b g, env_SetBody E b g = None).

(** Events that only inform: log messages and the deprecation callback. *)
Definition is_log (e : event) : bool :=
  match e with
  | EvErrorf _ | EvInfof _ | EvDeprecation => true
  | _ => false
  end.

(** [quiet w w']: from [w] to [w'] nothing changed but the trace, which
    gained log events only. *)
Definition quiet (w w' : World) : Prop :=
  conns w' = conns w ∧ cindex w' = cindex w ∧ heap w' = heap w
  ∧ clock w' = clock w ∧ ndo w' = ndo w ∧ nprobe w' = nprobe w
  ∧ ∃ evs, trace w' = trace w ++ evs ∧ forallb is_log evs = true.

(** Can the body of the response be closed in this call? Yes when the
    response has a body; a call that streams does not close it. *)
Definition closable (opt : PerformRequestOptions) (res : HttpResponse) : bool :=
  optStream opt
  || match ResBody res with
     | BodyNil => false
     | _ => true
     end.

(** The sends number [k] to [k + m - 1], when they are answered, are
    answered with a response whose body can be closed. *)
Definition bodies_closable (E : Env) (opt : PerformRequestOptions) (k m : nat) : Prop :=
  ∀ i req r, (k ≤ i < k + m)%nat → env_Do E i req = (Some r, None) → closable opt r = true.

(** A response with the given status and a body that is there and empty:
    no bytes, so no JSON. *)
Definition emptyBody (status : Z) : HttpResponse := mkHttpResponse status [] BodyNotJSON.

(** Every send is answered with the given status and an empty body. *)
Definition envReplies (status : Z) : Env := envOf (λ _ _, (Some (emptyBody status), None)).

(** [newResponse] gives a response or an error. *)
Definition newResponse_total (E : Env) : Prop :=
  ∀ r size stream, env_newResponse E r size stream ≠ (None, None).

(** A response with HTTP status 500 whose body decodes to an error of
    status 404. *)
Definition mismatchedResponse : HttpResponse :=
  mkHttpResponse 500 []
    (BodyDecoded 404 (Some (mkErrorDetails "index_not_found_exception" "no such index"))).

Definition anyRequest : Request := mkRequest "GET" "http://a:9200/" [] None None.

(** ** Health-check probes *)

(** The outcome of the probe of URL [u] started as probe number [kp] when
    [kd] requests have been handed to the [Doer]. *)
Definition probe_outcome (E : Env) (c : Client) (kp kd : nat) (u : string)
  : ProbeOutcome :=
  if env_timeout E kp then ProbeTimeout
  else match env_NewRequest E "HEAD" u with
       | Some err => ProbeAnswer 0 (Some err)
       | None =>
           ProbeAnswer
             (match (env_Do E kd (headRequest E c u)).1 with
              | Some r => StatusCode r
              | None => 0
              end)
             (env_Do E kd (headRequest E c u)).2
       end.

(** The liveness a probe outcome stands for: dead on a timeout, dead on a
    transport error, alive on a status in [200, 299], dead otherwise. *)
Definition outcome_dead (o : ProbeOutcome) : bool :=
  match o with
  | ProbeTimeout => true
  | ProbeAnswer _ (Some _) => true
  | ProbeAnswer status None =>
      if bool_decide (200 ≤ status ≤ 299) then false else true
  end.

(** A pool in which probes of A and C answer 200 and B is unreachable. *)
Definition envBdown : Env :=
  envOf (λ _ r, if bool_decide (URL_ r = "http://b:9200")
                then (None, Some connectionRefused)
                else (Some (mkHttpResponse 200 [] BodyNil), None)).

(** A client with health checks enabled. *)
Definition checkingClient : Client :=
  mkClient ["http://a:9200"; "http://b:9200"; "http://c:9200"]
    true false true 1000000000 false "" "" "GET" false noRetries None [].

(** ** Reconciliation *)

(** The identity of a connection: its node identifier and its URL. *)
Definition key (h : gmap addr conn) (a : addr) : option (string * string) :=
  (λ k, (nodeID k, url k)) <$> h !! a.

(** Do two connections have the same identifier and the same URL? *)
Definition sameNode (h : gmap addr conn) (o d : addr) : bool :=
  match h !! o, h !! d with
  | Some ko, Some kd => bool_decide (nodeID ko = nodeID kd) && bool_decide (url ko = url kd)
  | _, _ => false
  end.

(** The first connection of [olds] with the identity of [d]. *)
Fixpoint find_old (h : gmap addr conn) (olds : list addr) (d : addr) : option addr :=
  match olds with
  | [] => None
  | o :: rest => if sameNode h o d then Some o else find_old h rest d
  end.

(** A discovery that reports A and C as they are in the pool (as fresh
    objects 10 and 12) and a new node D (object 13), but not B. *)
Definition nodeD : conn := newConn "D" "http://d:9200".
Definition discoveredHeap : gmap addr conn :=
  <[13%nat := nodeD]> (<[12%nat := nodeC]> (<[10%nat := nodeA]>
     (heapOf (markedDead nodeA) nodeB nodeC))).
Definition poolBeforeSniff : World :=
  mkWorld [epA; epB; epC] 1 discoveredHeap 0 0 0 [].

(** ** Startup health check *)

(** The [Doer] answers with a response or with an error. *)
Definition doer_total (E : Env) : Prop := ∀ k req, env_Do E k req ≠ (None, None).

(** [recorded E l]: [l] is an error that a probe of the startup health
    check records: the error of a send, or the 401 of an answer. *)
Definition recorded (E : Env) (l : option error) : Prop :=
  (∃ k req res e, env_Do E k req = (res, Some e) ∧ l = Some e)
  ∨ (∃ k req res, env_Do E k req = (Some res, None) ∧ StatusCode res = 401
                  ∧ l = Some (ElasticError 401 None)).

(** The ways in which [startupHealthcheck], started at [start], ends with
    result [r] in state [w']: a URL answered with a 2xx status; a request
    could not be built; the calling context was done; the timeout elapsed. *)
Definition startup_outcome (E : Env) (c : Client) (start timeout : Z)
  (r : option error) (w' : World) : Prop :=
  (r = None
   ∧ ∃ k req res, env_Do E k req = (Some res, None) ∧ 200 ≤ StatusCode res < 300)
  ∨ (∃ u e, u ∈ urls c ∧ env_NewRequest E "HEAD" u = Some e ∧ r = Some e)
  ∨ (∃ t e, env_ctxErr E t = Some e ∧ r = startup_result (Some e))
  ∨ (∃ l, (l = None ∨ recorded E l) ∧ r = startup_result l ∧ timeout < clock w' - start).

(** The request of the startup probe of URL [u]. *)
Definition startupRequest (c : Client) (u : string) : Request :=
  let req := mkRequest "HEAD" u [] None None in
  let req := if hasBasicAuth c
             then SetBasicAuth (basicAuthUsername c) (basicAuthPassword c) req
             else req in
  add_headers (headers c) req.

(** What the [Doer] answers to one probe. *)
Definition Answer : Type := option HttpResponse * option error.

(** The answers to the probes of one round over the URLs [us] when [k]
    requests have been handed to the [Doer] before: the probe of the [i]-th
    URL is send number [k + i]. *)
Definition round_answers (E : Env) (c : Client) (us : list string) (k : nat)
  : list Answer :=
  imap (λ i u, env_Do E (k + i) (startupRequest c u)) us.

(** The answers to the probes of [rounds] successive rounds. *)
Definition run_answers (E : Env) (c : Client) (k rounds : nat) : list Answer :=
  mjoin ((λ r, round_answers E c (urls c) (k + r * length (urls c))) <$> seq 0 rounds).

(** An answer that ends the startup health check with success: a response,
    no error, and a status in [200, 299]. *)
Definition is_success (a : Answer) : bool :=
  match a with
  | (Some r, None) => bool_decide (200 ≤ StatusCode r) && bool_decide (StatusCode r < 300)
  | _ => false
  end.

(** The error that an answer has the startup health check record: the
    error of the send, or an [*Error] for a 401 answer. *)
Definition recorded_by (a : Answer) : option error :=
  match a with
  | (_, Some e) => Some e
  | (Some r, None) =>
      if bool_decide (StatusCode r = 401) then Some (ElasticError 401 None) else None
  | (None, None) => None
  end.

(** The error recorded last by a list of answers, and [init] when none of
    them records one. *)
Definition latest (init : option error) (l : list Answer) : option error :=
  match last (omap recorded_by l) with
  | Some e => Some e
  | None => init
  end.

(** What a round with the answers [A] gives, and how many requests it
    sends: it stops with success at the first successful answer; without
    one it probes every URL and ends with the error recorded last. *)
Definition round_result (lastErr : option error) (A : list Answer)
  : option error + option error :=
  match list_find (λ a, is_success a = true) A with
  | Some _ => inl None
  | None => inr (latest lastErr A)
  end.

Definition round_sends (A : list Answer) : nat :=
  match list_find (λ a, is_success a = true) A with
  | Some (i, _) => S i
  | None => length A
  end.

(** The time that the sends number [k] to [k + m - 1] take. *)
Definition latency (E : Env) (k m : nat) : Z :=
  foldr Z.add 0 ((λ i, Z.max 0 (env_took E (k + i)%nat)) <$> seq 0 m).

(** The state before the pool is set up. *)
Definition startWorld : World := mkWorld [] (-1) ∅ 0 0 0 [].

(** The first three probes are answered 401, the later ones 200. *)
Definition envUnauthorizedThenOk : Env :=
  envOf (λ k _, if bool_decide (k < 3)%nat
                then (Some (mkHttpResponse 401 [] BodyNil), None)
                else (Some (mkHttpResponse 200 [] BodyNil), None)).

(** The first probe is answered 401, the later ones fail. *)
Definition envUnauthorizedThenRefused : Env :=
  envOf (λ k _, if bool_decide (k = 0)%nat
                then (Some (mkHttpResponse 401 [] BodyNil), None)
                else (None, Some connectionRefused)).

(** Every probe is answered 401. *)
Definition envUnauthorized : Env := envStatus 401.

(** * Further functions of the client *)

(** ** Addresses reported by the cluster: [extractHostname] *)

(** [strings.Split(s, sep)] for a separator of one byte, as both
    separators of [extractHostname] are: the pieces of [s] between the
    occurrences of [sep], in order; always at least one piece. *)
Fixpoint Split (s : string) (sep : ascii) : list string :=
  match s with
  | EmptyString => [EmptyString]
  | String ch rest =>
      if bool_decide (ch = sep) then EmptyString :: Split rest sep
      else match Split rest sep with
           | first :: others => String ch first :: others
           | [] => [String ch EmptyString]
           end
  end.

(** Does the byte occur in the string? *)
Fixpoint occurs (ch : ascii) (s : string) : bool :=
  match s with
  | EmptyString => false
  | String x rest => bool_decide (x = ch) || occurs ch rest
  end.

Definition slash : ascii := "/"%char.
Definition colon : ascii := ":"%char.

(** [extractHostname]; [None] stands for the panic of an index out of
    range. *)
Definition extractHostname (scheme address : string) : option string :=
  let addrs := Split address slash in
  let ports := Split address colon in
  host ← (if bool_decide (1 < length addrs)%nat then addrs !! 0%nat
          else first ← addrs !! 0%nat; Split first colon !! 0%nat);
  port ← ports !! (length ports - 1)%nat;
  Some (scheme +:+ "://" +:+ host +:+ ":" +:+ port).

(** ** Reading errors: [ErrorReason] *)

(** [ErrorReason] (errors.go): the reason of an [*Error] that has details,
    the empty string for every other value. *)
Definition ErrorReason (err : option error) : string :=
  match err with
  | None => ""
  | Some (ElasticError _ (Some d)) => Reason d
  | Some _ => ""
  end.

(** ** Setting up the pool: [NewSimpleClient], [DialContext] *)

(** [&conn{...}]: a new object at an address not in use. *)
Definition alloc (k : conn) : M addr := λ w,
  let a := fresh (dom (heap w)) in
  Ok a (set_heap (<[a := k]> (heap w)) w).

(** [for _, url := range c.urls { c.conns = append(c.conns, newConn(url, url)) }]. *)
Fixpoint appendConns (us : list string) : M unit :=
  match us with
  | [] => mret tt
  | u :: rest =>
      a ← alloc (newConn u u);
      cs ← gets conns;
      modify (set_conns (cs ++ [a]));;
      appendConns rest
  end.

(** The client literal both constructors start from: no connections, the
    cursor at -1. *)
Definition emptyPool : M unit :=
  modify (set_conns []);; modify (set_cindex (-1)).

(** [NewSimpleClient], from the point where the options have run and
    [c.urls] has been given its default and been canonicalized: [c] is the
    client as configured by then. The result is the error returned, if
    any. *)
Definition NewSimpleClient (c : Client) : M (option error) :=
  emptyPool;;
  appendConns (urls c);;
  mustActiveConn.

(** [DialContext], from the same point on. [timeoutStartup] is
    [c.healthcheckTimeoutStartup] and [fuel] bounds the rounds of the startup
    health check. The start of the background health checker leaves no mark
    on the state. *)
Definition DialContext (E : Env) (c : Client) (fuel : nat) (timeoutStartup : Z)
  : M (option error) :=
  emptyPool;;
  failed ← (if healthcheckEnabled c then startupHealthcheck E c fuel timeoutStartup
            else mret None);
  match failed with
  | Some err => mret (Some err)
  | None =>
      appendConns (urls c);;
      (if healthcheckEnabled c then healthcheck E c true else mret tt);;
      mustActiveConn
  end.

(** ** Reading a call of [PerformRequest] *)

(** The path of a call with its encoded parameters. *)
Definition pathWithParams (opt : PerformRequestOptions) : string :=
  match optParams opt with
  | Some q => optPath opt +:+ "?" +:+ q
  | None => optPath opt
  end.

(** The error, if any, with which building the request of a call for the
    base URL [u] fails: the error of [NewRequest] or, when the call has a
    body, the error of [SetBody]. *)
Definition build_error (E : Env) (c : Client) (opt : PerformRequestOptions)
  (method u : string) : option error :=
  match env_NewRequest E method (u +:+ pathWithParams opt) with
  | Some err => Some err
  | None =>
      match optBody opt with
      | None => None
      | Some b => env_SetBody E b (gzipEnabled c)
      end
  end.

(** The send number [k] is answered, whatever the request, with a response
    whose body can be closed, whose status is not one to retry on, that
    [checkResponse] accepts and that [newResponse] can read. *)
Definition answers_well (E : Env) (opt : PerformRequestOptions)
  (codes : option (list Z)) (k : nat) : Prop :=
  ∀ req, ∃ r resp,
    env_Do E k req = (Some r, None)
    ∧ closable opt r = true
    ∧ retry codes (StatusCode r) = false
    ∧ checkResponse req r (optIgnoreErrors opt) = None
    ∧ env_newResponse E r (optMaxResponseSize opt) (optStream opt) = (Some resp, None).

(** An environment in which no request can be built. *)
Definition invalidMethod : error := OtherError "net/http: invalid method" false.
Definition envUnbuildable : Env :=
  mkEnv "linux-amd64" (λ _ _, Some invalidMethod) (λ _ _, None) (λ _ _, (None, None))
    (λ _, 0) (λ _, false) (λ _, None) (λ _ _ _, (None, None)).

(** ** Reading a health check *)

(** The events a health check leaves: probes, log messages and liveness
    marks. *)
Definition is_health_event (e : event) : bool :=
  match e with
  | EvErrorf _ | EvProbe _ _ | EvMarkAsDead _ | EvMarkAsAlive _ => true
  | _ => false
  end.

(** Every health-check probe runs into its timeout. *)
Definition envTimeouts : Env :=
  mkEnv "linux-amd64" (λ _ _, None) (λ _ _, None)
    (λ _ _, (Some (mkHttpResponse 200 [] BodyNil), None))
    (λ _, 0) (λ _, true) (λ _, None)
    (λ r _ _, (Some (mkResponse (StatusCode r) None), None)).

(** The send number [k] is answered, whatever the request, with a response
    whose body can be closed, whose status is not one to retry on and that
    [checkResponse] rejects. *)
Definition answers_badly (E : Env) (opt : PerformRequestOptions)
  (codes : option (list Z)) (k : nat) : Prop :=
  ∀ req, ∃ r err,
    env_Do E k req = (Some r, None)
    ∧ closable opt r = true
    ∧ retry codes (StatusCode r) = false
    ∧ checkResponse req r (optIgnoreErrors opt) = Some err.

(** The reason in the decoded body of a response, if it has one. *)
Definition body_reason (res : HttpResponse) : string :=
  match ResBody res with
  | BodyDecoded _ (Some d) => Reason d
  | _ => ""
  end.

(** Every send is answered 404 with the error body of a missing index. *)
Definition indexMissing : HttpResponse :=
  mkHttpResponse 404 []
    (BodyDecoded 404 (Some (mkErrorDetails "index_not_found_exception" "no such index"))).
Definition envIndexMissing : Env := envOf (λ _ _, (Some indexMissing, None)).

(** ** Reading a startup health check *)

Definition is_startup_probe (e : event) : bool :=
  match e with
  | EvProbe None _ => true
  | _ => false
  end.

(** [probes_only w w']: from [w] to [w'] the pool and its connections are
    untouched; time has passed, requests have been handed to the [Doer], and
    the trace has gained one startup probe per such request. *)
Definition probes_only (w w' : World) : Prop :=
  conns w' = conns w ∧ cindex w' = cindex w ∧ heap w' = heap w
  ∧ nprobe w' = nprobe w ∧ clock w ≤ clock w' ∧ (ndo w ≤ ndo w')%nat
  ∧ ∃ evs, trace w' = trace w ++ evs
           ∧ forallb is_startup_probe evs = true
           ∧ length evs = (ndo w' - ndo w)%nat.


(** The first send fails, the later ones are answered 200. *)
Definition envBdownFirst : Env :=
  envOf (λ k _, if bool_decide (k = 0)%nat
                then (None, Some connectionRefused)
                else (Some (mkHttpResponse 200 [] BodyNil), None)).

(** The send number [k] is answered, whatever the request, with a response
    whose body can be closed and that [checkResponse] accepts, but that
    [newResponse] cannot read. *)
Definition answers_unreadably (E : Env) (opt : PerformRequestOptions)
  (codes : option (list Z)) (k : nat) (e : error) : Prop :=
  ∀ req, ∃ r resp,
    env_Do E k req = (Some r, None)
    ∧ closable opt r = true
    ∧ retry codes (StatusCode r) = false
    ∧ checkResponse req r (optIgnoreErrors opt) = None
    ∧ env_newResponse E r (optMaxResponseSize opt) (optStream opt) = (resp, Some e).

(** A retrier that gives up with an error of its own while saying "retry". *)
Definition retrierError : error := OtherError "retrier: giving up" false.
Definition failingRetrier : Retrier := λ _ _ _ _, (0, true, Some retrierError).

(** Every send is answered 200 with a body that [newResponse] cannot read. *)
Definition bodyTooLarge : error := OtherError "elastic: response body too large" false.
Definition envUnreadable : Env :=
  mkEnv "linux-amd64" (λ _ _, None) (λ _ _, None)
    (λ _ _, (Some (mkHttpResponse 200 [] BodyNotJSON), None))
    (λ _, 0) (λ _, false) (λ _, None) (λ _ _ _, (None, Some bodyTooLarge)).


(** * Properties *)

(** ** Running computations *)

Lemma run_bind {A B} (m : M A) (f : A → M B) (w : World) :
  (m ≫= f) w = match m w with Ok a w' => f a w' | Panic => Panic | OutOfFuel => OutOfFuel end.
Proof. reflexivity. Qed.

Lemma incr_small x : -2 ^ 63 ≤ x + 1 < 2 ^ 63 → incr x = x + 1.
Proof.
  intros H. unfold incr, wrap64.
  rewrite Z.mod_small by lia. lia.
Qed.

Lemma slice_index_ok {A} (l : list A) (i : Z) x w :
  0 ≤ i → l !! Z.to_nat i = Some x → slice_index l i w = Ok x w.
Proof.
  intros Hi Hl. unfold slice_index.
  rewrite bool_decide_true by done. by rewrite Hl.
Qed.

Lemma IsDead_ok a w k : heap w !! a = Some k → IsDead a w = Ok (dead k) w.
Proof. intros H. unfold IsDead, deref. rewrite run_bind, H. reflexivity. Qed.

Lemma URL_ok a w k : heap w !! a = Some k → URL a w = Ok (url k) w.
Proof. intros H. unfold URL, deref. rewrite run_bind, H. reflexivity. Qed.

Lemma NodeID_ok a w k : heap w !! a = Some k → NodeID a w = Ok (nodeID k) w.
Proof. intros H. unfold NodeID, deref. rewrite run_bind, H. reflexivity. Qed.

Lemma MarkAsAlive_ok a w k : heap w !! a = Some k →
  MarkAsAlive a w = Ok tt (emit (EvMarkAsAlive a) (set_heap (<[a := alive k]> (heap w)) w)).
Proof. intros H. unfold MarkAsAlive, deref. rewrite run_bind, H. reflexivity. Qed.

Lemma errorf_run c m w :
  errorf c m w = Ok tt (if errorlog c then emit (EvErrorf m) w else w).
Proof. unfold errorf. by destruct (errorlog c). Qed.

Lemma infof_run c m w :
  infof c m w = Ok tt (if infolog c then emit (EvInfof m) w else w).
Proof. unfold infof. by destruct (infolog c). Qed.

(** ** Pointers and cursors *)

Lemma deadAt_Some h a : deadAt h a = true → ∃ k, h !! a = Some k ∧ dead k = true.
Proof. unfold deadAt. destruct (h !! a) as [k|]; [eauto | done]. Qed.

Lemma liveAt_Some h a : liveAt h a = true → ∃ k, h !! a = Some k ∧ dead k = false.
Proof.
  unfold liveAt. destruct (h !! a) as [k|]; [|done].
  intros H. exists k. split; [done|]. by destruct (dead k).
Qed.

Lemma valid_lookup h l a : valid h l = true → a ∈ l → is_Some (h !! a).
Proof.
  unfold valid. rewrite forallb_forall. intros H Ha.
  apply list_elem_of_In, H in Ha. by apply bool_decide_eq_true in Ha.
Qed.

Lemma valid_intro h l : (∀ a, a ∈ l → is_Some (h !! a)) → valid h l = true.
Proof.
  intros H. unfold valid. apply forallb_forall. intros a Ha.
  apply bool_decide_eq_true, H. by apply list_elem_of_In.
Qed.

Lemma all_dead_valid w : all_dead w = true → valid (heap w) (conns w) = true.
Proof.
  unfold all_dead, valid. rewrite !forallb_forall. intros H a Ha.
  apply H, deadAt_Some in Ha as (k & -> & _). by apply bool_decide_eq_true.
Qed.

Lemma cursor_ok_inv w : cursor_ok w = true →
  Z.of_nat (length (conns w)) < 2 ^ 63 ∧ -1 ≤ cindex w < Z.of_nat (length (conns w)).
Proof.
  unfold cursor_ok. intros Hc.
  apply andb_prop in Hc as [Hc Hc3]. apply andb_prop in Hc as [Hc1 Hc2].
  apply bool_decide_eq_true in Hc1, Hc2, Hc3. lia.
Qed.

Lemma cursor_ok_intro w :
  Z.of_nat (length (conns w)) < 2 ^ 63 → -1 ≤ cindex w < Z.of_nat (length (conns w)) →
  cursor_ok w = true.
Proof. intros ? ?. unfold cursor_ok. rewrite !bool_decide_true by lia. done. Qed.

(** ** Rotations of the pool *)

Lemma rotate_lookup_cons {A} (l : list A) (s : nat) (x : A) :
  l !! s = Some x →
  rotate s l = x :: (drop (S s) l ++ take s l)
  ∧ rotate (S s) l = (drop (S s) l ++ take s l) ++ [x].
Proof.
  intros Hx. pose proof (lookup_lt_Some _ _ _ Hx) as Hlt.
  unfold rotate. split.
  - rewrite Nat.mod_small by lia.
    by rewrite (drop_S _ _ _ Hx).
  - destruct (decide (S s = length l)) as [Heq|Hne].
    + rewrite Heq, Nat.Div0.mod_same. rewrite drop_0, take_0, app_nil_r, drop_all.
      simpl. rewrite <- (take_drop s l) at 1. rewrite (drop_S _ _ _ Hx).
      by rewrite Heq, drop_all.
    + rewrite Nat.mod_small by lia.
      rewrite (take_S_r _ _ _ Hx). by rewrite app_assoc.
Qed.

Lemma rotate_length_0 {A} (l : list A) : rotate (length l) l = rotate 0 l.
Proof. unfold rotate. by rewrite Nat.Div0.mod_same, Nat.Div0.mod_0_l. Qed.

(** Moving the cursor one step rotates the visiting order by one. *)
Lemma cycle_step w : cursor_ok w = true → conns w ≠ [] →
  let ci := advance (Z.of_nat (length (conns w))) (cindex w) in
  ∃ x t, 0 ≤ ci < Z.of_nat (length (conns w))
         ∧ conns w !! Z.to_nat ci = Some x
         ∧ cycle w = x :: t ∧ cycle (set_cindex ci w) = t ++ [x].
Proof.
  intros Hc Hne ci. apply cursor_ok_inv in Hc as [Hlen Hci].
  assert (Hn : 0 < Z.of_nat (length (conns w))).
  { destruct (conns w); [done | simpl; lia]. }
  assert (Hr : 0 ≤ ci < Z.of_nat (length (conns w))).
  { subst ci. unfold advance. rewrite incr_small by lia. case_bool_decide; lia. }
  destruct (lookup_lt_is_Some_2 (conns w) (Z.to_nat ci)) as [x Hx]; [lia|].
  destruct (rotate_lookup_cons _ _ _ Hx) as [H1 H2].
  exists x, (drop (S (Z.to_nat ci)) (conns w) ++ take (Z.to_nat ci) (conns w)).
  split; [done|]. split; [done|]. split.
  - unfold cycle. rewrite <- H1. subst ci. unfold advance.
    rewrite incr_small by lia. case_bool_decide as Hb.
    + replace (Z.to_nat (cindex w + 1)) with (length (conns w)) by lia.
      apply rotate_length_0.
    + done.
  - unfold cycle. simpl. rewrite <- H2. f_equal. lia.
Qed.

Lemma filter_eq_cons {A} (P : A → Prop) `{∀ x, Decision (P x)} (l : list A) a L :
  filter P l = a :: L →
  ∃ l1 l2, l = l1 ++ a :: l2 ∧ Forall (λ x, ¬ P x) l1 ∧ P a ∧ filter P l2 = L.
Proof.
  induction l as [|x l IH]; [done|].
  rewrite filter_cons. case_decide as Hx.
  - intros [= -> <-]. exists [], l. by repeat split.
  - intros Hf. destruct (IH Hf) as (l1 & l2 & -> & Hl1 & Ha & HL).
    exists (x :: l1), l2. repeat split; try done. by constructor.
Qed.

Lemma filter_none {A} (P : A → Prop) `{∀ x, Decision (P x)} (l : list A) :
  Forall (λ x, ¬ P x) l → filter P l = [].
Proof.
  induction 1 as [|x l Hx _ IH]; [done|].
  rewrite filter_cons. by case_decide.
Qed.

(** ** [next]: scanning the pool *)

(** A full scan over a pool of dead connections finds nothing and changes
    the cursor only. *)
Lemma scan_all_dead (k : nat) : ∀ w,
  all_dead w = true → cursor_ok w = true → (k ≤ length (conns w))%nat →
  ∃ ci, next_loop (Z.of_nat (length (conns w))) k w = Ok None (set_cindex ci w)
        ∧ cursor_ok (set_cindex ci w) = true.
Proof.
  induction k as [|k IH]; intros w Hd Hc Hk.
  - exists (cindex w). destruct w; simpl. split; [reflexivity | exact Hc].
  - pose proof (cursor_ok_inv _ Hc) as [Hc1 Hc2].
    set (n := Z.of_nat (length (conns w))) in *.
    set (ci := if bool_decide (n ≤ incr (cindex w)) then 0 else incr (cindex w)).
    assert (Hci : 0 ≤ ci < n).
    { subst ci. rewrite incr_small by lia. case_bool_decide; lia. }
    destruct (lookup_lt_is_Some_2 (conns w) (Z.to_nat ci)) as [a Ha]; [lia|].
    assert (Hda : deadAt (heap w) a = true).
    { unfold all_dead in Hd. rewrite forallb_forall in Hd. apply Hd.
      apply list_elem_of_In. eapply list_elem_of_lookup_2; eauto. }
    apply deadAt_Some in Hda as (kk & Hkk & Hdead).
    destruct (IH (set_cindex ci w)) as (ci' & Hrun & Hok).
    + exact Hd.
    + apply cursor_ok_intro; simpl; lia.
    + simpl. lia.
    + exists ci'. simpl in Hrun, Hok. split; [|exact Hok].
      cbn [next_loop]. rewrite run_bind. cbn [gets]. fold n ci.
      rewrite run_bind. cbn [modify]. rewrite run_bind. cbn [gets].
      rewrite run_bind.
      erewrite slice_index_ok; [| lia | exact Ha].
      rewrite run_bind. erewrite IsDead_ok by exact Hkk.
      rewrite Hdead. cbn [negb]. exact Hrun.
Qed.

(** A scan whose visiting order starts with dead connections [l1] followed
    by a live connection [a] returns [a] and leaves the cursor on it. *)
Lemma next_loop_finds (k : nat) : ∀ w l1 a l2,
  cursor_ok w = true → valid (heap w) (conns w) = true →
  cycle w = l1 ++ a :: l2 → (length l1 < k)%nat →
  Forall (λ x, liveAt (heap w) x = false) l1 → liveAt (heap w) a = true →
  ∃ p, next_loop (Z.of_nat (length (conns w))) k w = Ok (Some a) (set_cindex p w)
       ∧ cursor_ok (set_cindex p w) = true
       ∧ cycle (set_cindex p w) = l2 ++ l1 ++ [a].
Proof.
  induction k as [|k IH]; intros w l1 a l2 Hc Hv Hcy Hk Hl1 Ha; [lia|].
  assert (Hne : conns w ≠ []).
  { intros E. unfold cycle, rotate in Hcy. rewrite E, drop_nil, take_nil in Hcy.
    by destruct l1. }
  destruct (cycle_step w Hc Hne) as (x & t & Hr & Hx & Hcx & Hct).
  set (ci := advance (Z.of_nat (length (conns w))) (cindex w)) in *.
  pose proof (cursor_ok_inv _ Hc) as [Hlen _].
  assert (Hc1 : cursor_ok (set_cindex ci w) = true).
  { apply cursor_ok_intro; simpl; lia. }
  destruct (valid_lookup _ _ x Hv) as [kx Hkx].
  { eapply list_elem_of_lookup_2; eauto. }
  assert (Hrun : next_loop (Z.of_nat (length (conns w))) (S k) w =
    if negb (dead kx) then Ok (Some x) (set_cindex ci w)
    else next_loop (Z.of_nat (length (conns w))) k (set_cindex ci w)).
  { cbn [next_loop]. rewrite run_bind. cbn [gets].
    fold (advance (Z.of_nat (length (conns w))) (cindex w)). fold ci.
    rewrite run_bind. cbn [modify]. rewrite run_bind. cbn [gets].
    rewrite run_bind.
    erewrite slice_index_ok; [| lia | exact Hx].
    rewrite run_bind. erewrite IsDead_ok by exact Hkx.
    by destruct (dead kx). }
  rewrite Hrun. rewrite Hcx in Hcy.
  destruct l1 as [|y l1'].
  - simpl in Hcy. injection Hcy as -> ->.
    unfold liveAt in Ha. rewrite Hkx in Ha. rewrite Ha.
    exists ci. split; [done|]. split; [done|]. by rewrite Hct.
  - simpl in Hcy. injection Hcy as -> ->.
    apply Forall_cons in Hl1 as [Hy Hl1].
    unfold liveAt in Hy. rewrite Hkx in Hy.
    apply negb_false_iff in Hy. rewrite Hy. cbn [negb].
    destruct (IH (set_cindex ci w) l1' a (l2 ++ [y])) as (p & Hp & Hpc & Hpy).
    + done.
    + done.
    + rewrite Hct. by rewrite <- app_assoc.
    + simpl in Hk. lia.
    + done.
    + done.
    + exists p.
      change (set_cindex p (set_cindex ci w)) with (set_cindex p w) in *.
      change (conns (set_cindex ci w)) with (conns w) in *.
      split; [done|]. split; [done|].
      rewrite Hpy. rewrite <- !app_assoc. done.
Qed.

(** One call of [next] on a pool with a live connection: it returns the
    first live connection after the cursor and moves the cursor to it. *)
Lemma next_live (c : Client) (w : World) (a : addr) (L : list addr) :
  cursor_ok w = true → valid (heap w) (conns w) = true →
  live_cycle w = a :: L →
  ∃ p, next c w = Ok (Some a, None) (set_cindex p w)
       ∧ cursor_ok (set_cindex p w) = true
       ∧ live_cycle (set_cindex p w) = L ++ [a].
Proof.
  intros Hc Hv HL. unfold live_cycle in HL.
  apply filter_eq_cons in HL as (l1 & l2 & Hcy & Hl1 & Ha & Hl2).
  assert (Hlen : (length l1 < length (conns w))%nat).
  { assert (E : length (cycle w) = length (conns w)) by apply length_rotate.
    rewrite Hcy, length_app in E. simpl in E. lia. }
  destruct (next_loop_finds (length (conns w)) w l1 a l2) as (p & Hp & Hpc & Hpy);
    try done.
  { eapply Forall_impl; [exact Hl1|]. intros x Hx. simpl in Hx.
    by destruct (liveAt (heap w) x). }
  exists p. split; [|split; [done|]].
  - unfold next. rewrite run_bind. cbn [gets]. rewrite run_bind, Hp. done.
  - unfold live_cycle. rewrite Hpy. cbn [heap set_cindex].
    rewrite !filter_app, Hl2, (filter_none _ l1) by done.
    rewrite filter_cons, decide_True by done. done.
Qed.

(** The [j]-th of successive calls returns the [j mod K]-th live
    connection after the cursor, where [K] is the number of live ones. *)
Lemma nexts_cycle (c : Client) (n : nat) : ∀ w,
  cursor_ok w = true → valid (heap w) (conns w) = true →
  live_cycle w ≠ [] →
  ∃ p, nexts c n w =
         Ok ((λ j, (live_cycle w !! (j `mod` length (live_cycle w))%nat, None)) <$> seq 0 n)
            (set_cindex p w)
       ∧ cursor_ok (set_cindex p w) = true.
Proof.
  induction n as [|n IH]; intros w Hc Hv HL.
  - exists (cindex w). split; [by destruct w | by destruct w].
  - destruct (live_cycle w) as [|a L] eqn:E; [done|].
    destruct (next_live c w a L Hc Hv E) as (p & Hp & Hpc & HpL).
    destruct (IH (set_cindex p w)) as (q & Hq & Hqc); [done|done| |].
    { rewrite HpL. by destruct L. }
    exists q. change (set_cindex q (set_cindex p w)) with (set_cindex q w) in *.
    split; [|done].
    cbn [nexts]. rewrite run_bind, Hp, run_bind, Hq. cbn [mret M_ret].
    f_equal. rewrite HpL.
    cbn [seq fmap list_fmap]. f_equal.
    + by rewrite Nat.Div0.mod_0_l.
    + rewrite <- seq_shift. rewrite <- list_fmap_compose.
      apply list_fmap_ext. intros _ j _. unfold compose. f_equal.
      rewrite length_app. change (length (a :: L)) with (S (length L)).
      change (length [a]) with 1%nat. rewrite Nat.add_1_r.
      remember (S (length L)) as K eqn:HK.
      assert (Hj : (j `mod` K < K)%nat) by (apply Nat.mod_upper_bound; lia).
      replace (S j `mod` K)%nat with ((j `mod` K + 1) `mod` K)%nat
        by (rewrite Nat.Div0.add_mod_idemp_l; f_equal; lia).
      destruct (decide (j `mod` K + 1 = K)%nat) as [Heq|Hne].
      * rewrite Heq, Nat.Div0.mod_same.
        rewrite lookup_app_r by lia.
        replace (j `mod` K - length L)%nat with 0%nat by lia. done.
      * rewrite (Nat.mod_small (j `mod` K + 1)) by lia.
        rewrite lookup_app_l by lia.
        rewrite Nat.add_1_r. done.
Qed.

(** ** [MarkAsAlive] over the pool *)

Lemma forM_MarkAsAlive (l : list addr) : ∀ w,
  valid (heap w) l = true →
  ∃ h, forM_ l MarkAsAlive w =
         Ok tt (mkWorld (conns w) (cindex w) h (clock w) (ndo w) (nprobe w)
                  (trace w ++ (EvMarkAsAlive <$> l)))
       ∧ ∀ a, h !! a = if bool_decide (a ∈ l) then alive <$> heap w !! a else heap w !! a.
Proof.
  induction l as [|x l IH]; intros w Hv.
  - exists (heap w). split; [|done]. destruct w; simpl. by rewrite app_nil_r.
  - simpl in Hv. apply andb_prop in Hv as [Hx Hv].
    apply bool_decide_eq_true in Hx as [k Hk].
    set (w1 := emit (EvMarkAsAlive x) (set_heap (<[x := alive k]> (heap w)) w)).
    destruct (IH w1) as (h & Hrun & Hh).
    { apply valid_intro. intros b Hb. simpl. rewrite lookup_insert.
      destruct (decide (x = b)); [done|].
      eapply valid_lookup; [exact Hv | done]. }
    exists h. split.
    + cbn [forM_]. rewrite run_bind, (MarkAsAlive_ok _ _ _ Hk). fold w1.
      rewrite Hrun. simpl. by rewrite <- app_assoc.
    + intros a. rewrite Hh. simpl. rewrite lookup_insert.
      destruct (decide (x = a)) as [->|Hne].
      * rewrite (bool_decide_true (a ∈ a :: l)) by left.
        rewrite Hk. simpl. by destruct (bool_decide (a ∈ l)).
      * assert (Hiff : bool_decide (a ∈ l) = bool_decide (a ∈ x :: l)).
        { apply bool_decide_ext. rewrite elem_of_cons.
          split; [by right | intros [Heq|?]; [by subst | done]]. }
        by rewrite Hiff.
Qed.

(** ** Claims about [next] *)

(** C1. On a pool whose endpoints are all marked dead, one call of [next]
    returns no connection and the "no available connection" error that
    wraps [ErrNoClient]. With sniffing disabled it first marks every
    endpoint of the pool alive, changing nothing else of them, after giving
    the error logger the "all nodes marked as dead" message; on a pool that
    is not empty the next call then returns a connection. With sniffing
    enabled no connection changes and nothing is logged. *)
Theorem next_all_dead (c : Client) (w : World) :
  all_dead w = true → cursor_ok w = true →
  ∃ w', next c w = Ok (None, Some errNoAvailableConnection) w'
    ∧ Cause errNoAvailableConnection = ErrNoClient
    ∧ conns w' = conns w ∧ cursor_ok w' = true
    ∧ if snifferEnabled c then
        heap w' = heap w ∧ trace w' = trace w
      else
        (∀ a, heap w' !! a =
              if bool_decide (a ∈ conns w) then alive <$> heap w !! a else heap w !! a)
        ∧ Forall (λ a, liveAt (heap w') a = true) (conns w)
        ∧ trace w' = trace w
                     ++ (if errorlog c
                         then [EvErrorf (LogAllDead (Z.of_nat (length (conns w))))]
                         else [])
                     ++ (EvMarkAsAlive <$> conns w)
        ∧ (conns w ≠ [] →
           ∃ a w'', next c w' = Ok (Some a, None) w'' ∧ a ∈ conns w).
Proof.
  intros Hd Hc.
  destruct (scan_all_dead (length (conns w)) w Hd Hc) as (ci & Hrun & Hci); [lia|].
  pose proof (all_dead_valid _ Hd) as Hv.
  unfold next at 1. rewrite run_bind. cbn [gets]. rewrite run_bind, Hrun.
  destruct (snifferEnabled c) eqn:Hs; cbn [negb].
  - eexists. split; [reflexivity|]. split; [done|]. split; [done|]. split; [done|].
    by destruct w.
  - set (w0 := set_cindex ci w) in *.
    set (msg := LogAllDead (Z.of_nat (length (conns w)))).
    assert (He : ∃ w1, errorf c msg w0 = Ok tt w1 ∧ conns w1 = conns w ∧ heap w1 = heap w
      ∧ cindex w1 = ci
      ∧ trace w1 = trace w ++ (if errorlog c then [EvErrorf msg] else [])).
    { rewrite errorf_run. destruct (errorlog c).
      - eexists. split; [reflexivity|]. by destruct w.
      - eexists. split; [reflexivity|]. destruct w; simpl. by rewrite app_nil_r. }
    destruct He as (w1 & He & Hc1 & Hh1 & Hi1 & Ht1).
    destruct (forM_MarkAsAlive (conns w) w1) as (h & Hm & Hh).
    { by rewrite Hh1. }
    rewrite run_bind, run_bind, He, run_bind. cbn [gets]. rewrite Hc1, Hm.
    eexists. split; [reflexivity|].
    match goal with |- _ ∧ _ ∧ cursor_ok ?W = true ∧ _ => set (w2 := W) end.
    assert (Hc2 : cursor_ok w2 = true).
    { apply cursor_ok_inv in Hci as [? ?]. subst w0. cbn [conns cindex set_cindex] in *.
      apply cursor_ok_intro; subst w2; cbn [conns cindex]; rewrite ?Hc1, ?Hi1; lia. }
    split; [done|]. split; [by subst w2|]. split; [done|].
    change (heap w2) with h. change (trace w2) with (trace w1 ++ (EvMarkAsAlive <$> conns w)).
    assert (Hlive : Forall (λ a, liveAt h a = true) (conns w)).
    { apply Forall_forall. intros a Ha. unfold liveAt.
      rewrite Hh, Hh1, bool_decide_true by done.
      destruct (valid_lookup _ _ a Hv Ha) as [k ->]. done. }
    split; [by rewrite <- Hh1|]. split; [done|]. split.
    { by rewrite Ht1, <- app_assoc. }
    intros Hne.
    assert (Hv2 : valid (heap w2) (conns w2) = true).
    { subst w2. cbn [heap conns]. rewrite Hc1. apply valid_intro.
      intros a Ha. rewrite Forall_forall in Hlive.
      destruct (liveAt_Some _ _ (Hlive a Ha)) as (k & -> & _). done. }
    destruct (live_cycle w2) as [|a L] eqn:E.
    + exfalso. unfold live_cycle in E.
      assert (Hin : ∀ a, a ∈ cycle w2 → False).
      { intros a Ha. assert (Ha' : a ∈ filter (λ a, liveAt (heap w2) a = true) (cycle w2)).
        { apply list_elem_of_filter. split; [|done].
          unfold cycle in Ha. apply elem_of_rotate in Ha. subst w2. cbn [heap conns] in *.
          rewrite Hc1 in Ha. rewrite Forall_forall in Hlive. by apply Hlive. }
        rewrite E in Ha'. by apply elem_of_nil in Ha'. }
      assert (Hl : length (cycle w2) = length (conns w)).
      { unfold cycle. rewrite length_rotate. subst w2. cbn [conns]. by rewrite Hc1. }
      destruct (cycle w2) as [|x t]; [|by apply (Hin x); left].
      destruct (conns w); [done | simpl in Hl; lia].
    + destruct (next_live c w2 a L Hc2 Hv2 E) as (p & Hp & _ & _).
      exists a, (set_cindex p w2). split; [done|].
      assert (Ha : a ∈ live_cycle w2) by (rewrite E; left).
      unfold live_cycle in Ha. apply list_elem_of_filter in Ha as [_ Ha].
      unfold cycle in Ha. apply elem_of_rotate in Ha. subst w2. cbn [conns] in Ha.
      by rewrite Hc1 in Ha.
Qed.

Lemma next_all_dead_witness :
  all_dead poolABC_dead = true ∧ cursor_ok poolABC_dead = true ∧
  ∃ w', next (simpleClient noRetries None) poolABC_dead
          = Ok (None, Some errNoAvailableConnection) w'
        ∧ conns w' = conns poolABC_dead.
Proof.
  split; [reflexivity|]. split; [reflexivity|].
  destruct (next_all_dead (simpleClient noRetries None) poolABC_dead eq_refl eq_refl)
    as (w' & H1 & _ & H2 & _).
  exists w'. split; [exact H1 | exact H2].
Defined.

(** C2. [next] selects in round-robin order and skips dead endpoints. On
    the pool [A, B, C] with all alive and the cursor at its initial
    position four calls return A, B, C, A; with only B dead three calls
    return A, C, A. In general, on a pool with at least one live endpoint,
    successive calls leave the connections and the membership unchanged and
    the [j]-th call returns the [j mod K]-th of the [K] live endpoints in
    pool order starting after the cursor: only live endpoints are returned,
    [K] successive calls return each of them exactly once, and those are the
    live endpoints of the pool, without repetition when the pool has none. *)
Theorem next_round_robin :
  (∀ c, ∃ w', nexts c 4 poolABC
              = Ok [(Some epA, None); (Some epB, None); (Some epC, None); (Some epA, None)] w')
  ∧ (∀ c, ∃ w', nexts c 3 poolABC_Bdead
                = Ok [(Some epA, None); (Some epC, None); (Some epA, None)] w')
  ∧ ∀ c w n,
      cursor_ok w = true → valid (heap w) (conns w) = true → live_cycle w ≠ [] →
      let L := live_cycle w in
      (∃ w', nexts c n w = Ok ((λ j, (L !! (j `mod` length L)%nat, None)) <$> seq 0 n) w'
             ∧ heap w' = heap w ∧ conns w' = conns w ∧ trace w' = trace w)
      ∧ (∃ w', nexts c (length L) w = Ok ((λ a, (Some a, None)) <$> L) w')
      ∧ Forall (λ a, liveAt (heap w) a = true ∧ a ∈ conns w) L
      ∧ L ≡ₚ filter (λ a, liveAt (heap w) a = true) (conns w)
      ∧ (NoDup (conns w) → NoDup L).
Proof.
  split; [|split].
  - intros c. eexists. vm_compute. reflexivity.
  - intros c. eexists. vm_compute. reflexivity.
  - intros c w n Hc Hv HL L.
    assert (Hperm : cycle w ≡ₚ conns w).
    { unfold cycle, rotate. rewrite Permutation_app_comm. by rewrite take_drop. }
    split; [|split; [|split; [|split]]].
    + destruct (nexts_cycle c n w Hc Hv HL) as (p & Hp & _).
      exists (set_cindex p w). split; [exact Hp|]. by destruct w.
    + destruct (nexts_cycle c (length L) w Hc Hv HL) as (p & Hp & _).
      exists (set_cindex p w). rewrite Hp. f_equal. subst L.
      apply list_eq. intros i. rewrite !list_lookup_fmap.
      destruct (decide (i < length (live_cycle w))%nat) as [Hi|Hi].
      * rewrite lookup_seq_lt by done. simpl.
        rewrite Nat.mod_small by done.
        destruct (lookup_lt_is_Some_2 _ _ Hi) as [x Hx]. by rewrite Hx.
      * rewrite lookup_seq_ge by lia. rewrite lookup_ge_None_2 by lia. done.
    + apply Forall_forall. intros a Ha. subst L. unfold live_cycle in Ha.
      apply list_elem_of_filter in Ha as [Hl Ha]. split; [done|].
      by rewrite <- Hperm.
    + subst L. unfold live_cycle. by rewrite Hperm.
    + intros Hnd. subst L. unfold live_cycle. apply NoDup_filter.
      by rewrite Hperm.
Qed.

Lemma next_round_robin_witness :
  cursor_ok poolABC_Bdead = true
  ∧ valid (heap poolABC_Bdead) (conns poolABC_Bdead) = true
  ∧ live_cycle poolABC_Bdead ≠ []
  ∧ ∃ w', nexts sniffingClient 5 poolABC_Bdead
          = Ok ((λ j, (live_cycle poolABC_Bdead
                         !! (j `mod` length (live_cycle poolABC_Bdead))%nat, None))
                  <$> seq 0 5) w'.
Proof.
  assert (H : live_cycle poolABC_Bdead ≠ []) by (vm_compute; discriminate).
  split; [reflexivity|]. split; [reflexivity|]. split; [exact H|].
  destruct next_round_robin as (_ & _ & Hg).
  destruct (Hg sniffingClient poolABC_Bdead 5%nat eq_refl eq_refl H)
    as ((w' & Hw & _) & _).
  exists w'. exact Hw.
Defined.

(** ** The steps of [PerformRequest] *)

Lemma MarkAsDead_ok a w k : heap w !! a = Some k →
  MarkAsDead a w
  = Ok tt (emit (EvMarkAsDead a) (set_heap (<[a := deadened (clock w) k]> (heap w)) w)).
Proof. intros H. unfold MarkAsDead, deref. rewrite run_bind, H. reflexivity. Qed.

Lemma MarkAsHealthy_ok a w k : heap w !! a = Some k →
  MarkAsHealthy a w
  = Ok tt (emit (EvMarkAsHealthy a) (set_heap (<[a := healthy k]> (heap w)) w)).
Proof. intros H. unfold MarkAsHealthy, deref. rewrite run_bind, H. reflexivity. Qed.

Lemma buildRequest_ok E c opt method a w k :
  heap w !! a = Some k →
  (∀ m u, env_NewRequest E m u = None) → (∀ b g, env_SetBody E b g = None) →
  ∃ req, buildRequest E c opt method a w = Ok (inr req) w.
Proof.
  intros Hk Hn Hb. unfold buildRequest.
  rewrite run_bind, (URL_ok _ _ _ Hk), Hn.
  destruct (optBody opt) as [b|].
  - rewrite Hb. eexists. reflexivity.
  - eexists. reflexivity.
Qed.

(** The state once the request to [a] has been handed to the [Doer]. *)
Lemma iter_sends E c opt method rt codes retried n w a L :
  cursor_ok w = true → valid (heap w) (conns w) = true → live_cycle w = a :: L →
  (∀ m u, env_NewRequest E m u = None) → (∀ b g, env_SetBody E b g = None) →
  ∃ p req w1,
    w1 = set_clock (clock w + Z.max 0 (env_took E (ndo w)))
           (set_ndo (S (ndo w)) (emit (EvDo a req) (set_cindex p w)))
    ∧ PerformRequest_iter E c opt method rt codes retried n w
      = afterDo E c opt method rt codes n a req
          (env_Do E (ndo w) req).1 (env_Do E (ndo w) req).2 w1
    ∧ cursor_ok w1 = true ∧ live_cycle w1 = L ++ [a].
Proof.
  intros Hc Hv HL Hn Hb.
  destruct (next_live c w a L Hc Hv HL) as (p & Hp & Hpc & HpL).
  assert (Ha : a ∈ conns w).
  { assert (H : a ∈ live_cycle w) by (rewrite HL; left).
    unfold live_cycle in H. apply list_elem_of_filter in H as [_ H].
    unfold cycle in H. by apply elem_of_rotate in H. }
  destruct (valid_lookup _ _ a Hv Ha) as [k Hk].
  destruct (buildRequest_ok E c opt method a (set_cindex p w) k Hk Hn Hb) as (req & Hreq).
  exists p, req. eexists. split; [reflexivity|]. split; [|split].
  - unfold PerformRequest_iter. rewrite run_bind, Hp. cbn match.
    rewrite run_bind, Hreq. cbn match.
    rewrite run_bind. cbn [modify]. rewrite run_bind.
    unfold Do at 1. rewrite !run_bind. cbn [gets modify mret M_ret].
    cbn [ndo clock emit set_ndo set_cindex].
    by destruct (env_Do E (ndo w) req) as [res err].
  - apply cursor_ok_inv in Hpc as [? ?]. by apply cursor_ok_intro.
  - exact HpL.
Qed.

(** A send that fails with an error of the context kind ends the call at
    once and changes nothing. *)
Lemma afterDo_context E c opt method rt codes n a req res e w :
  IsContextErr_err e = true →
  afterDo E c opt method rt codes n a req res (Some e) w = Ok (Return None (Some e)) w.
Proof. intros He. unfold afterDo. cbn [IsContextErr]. by rewrite He. Qed.


Lemma afterDo_transport_stop E c opt method rt codes n a req res e w wait ok rerr k :
  IsContextErr_err e = false → heap w !! a = Some k →
  rt (incr n) (Some req) res (Some e) = (wait, ok, rerr) →
  (ok = false ∨ rerr ≠ None) →
  afterDo E c opt method rt codes n a req res (Some e) w
  = Ok (Return None (match rerr with Some re => Some re | None => Some e end))
       (emit (EvMarkAsDead a)
          (set_heap (<[a := deadened (clock w) k]> (heap w))
             (if errorlog c
              then emit (EvErrorf (LogIsDead (url k))) (emit (EvRetry (incr n)) w)
              else emit (EvRetry (incr n)) w))).
Proof.
  intros He Hk Hrt Hstop. unfold afterDo. cbn [IsContextErr]. rewrite He.
  unfold Retry. rewrite !run_bind. cbn [modify mret M_ret]. rewrite Hrt.
  assert (Hmark : ∀ r : Step,
    ((u ← URL a; errorf c (LogIsDead u);; MarkAsDead a;; mret r) : M Step)
      (emit (EvRetry (incr n)) w)
    = Ok r (emit (EvMarkAsDead a)
          (set_heap (<[a := deadened (clock w) k]> (heap w))
             (if errorlog c
              then emit (EvErrorf (LogIsDead (url k))) (emit (EvRetry (incr n)) w)
              else emit (EvRetry (incr n)) w)))).
  { intros r. rewrite run_bind, (URL_ok _ _ k) by done.
    rewrite run_bind, errorf_run, run_bind.
    rewrite (MarkAsDead_ok _ _ k) by (by destruct (errorlog c)).
    by destruct (errorlog c). }
  destruct rerr as [re|].
  - apply Hmark.
  - destruct Hstop as [-> | ?]; [|done]. cbn [negb]. apply Hmark.
Qed.

(** ** Cancellation *)

Lemma isCancellation_context e : isCancellation e = true → IsContextErr_err e = true.
Proof.
  induction e; simpl; try done.
  intros H. rewrite (IHe H). by destruct (Temporary e).
Qed.

Lemma loop_Return E c opt method rt codes fuel retried n w resp err w' :
  PerformRequest_iter E c opt method rt codes retried n w = Ok (Return resp err) w' →
  PerformRequest_loop E c opt method rt codes (S fuel) retried n w = Ok (resp, err) w'.
Proof. intros H. cbn [PerformRequest_loop]. by rewrite run_bind, H. Qed.

Lemma loop_Continue E c opt method rt codes fuel retried n w retried' n' w' :
  PerformRequest_iter E c opt method rt codes retried n w = Ok (Continue retried' n') w' →
  PerformRequest_loop E c opt method rt codes (S fuel) retried n w
  = PerformRequest_loop E c opt method rt codes fuel retried' n' w'.
Proof. intros H. cbn [PerformRequest_loop]. by rewrite run_bind, H. Qed.

(** Whatever the loop has done before, the iteration whose send fails with
    an error that [IsContextErr] accepts returns that error; between the
    states before and after the iteration only the cursor, the count of sends
    and the clock differ, and the trace gains the send alone. *)
Lemma loop_context_error E c opt method rt codes fuel retried n w a L e :
  IsContextErr_err e = true →
  cursor_ok w = true → valid (heap w) (conns w) = true → live_cycle w = a :: L →
  (∀ m u, env_NewRequest E m u = None) → (∀ b g, env_SetBody E b g = None) →
  (∀ req, (env_Do E (ndo w) req).2 = Some e) →
  ∃ w' req,
    PerformRequest_loop E c opt method rt codes (S fuel) retried n w = Ok (None, Some e) w'
    ∧ heap w' = heap w ∧ conns w' = conns w
    ∧ trace w' = trace w ++ [EvDo a req].
Proof.
  intros He Hc Hv HL Hn Hb Hdo.
  destruct (iter_sends E c opt method rt codes retried n w a L Hc Hv HL Hn Hb)
    as (p & req & w1 & Hw1 & Hrun & _ & _).
  rewrite Hdo, afterDo_context in Hrun by done.
  exists w1, req. split; [by apply loop_Return|].
  subst w1. by destruct w.
Qed.

(** C5. A send that fails with a context cancellation or deadline error
    ends [PerformRequest]: the error is returned as it is, the retrier is
    not consulted and no connection of the pool changes. This holds for the
    code after any send, and for the call as a whole from any state of its
    loop in which the pool has a live connection and the request can be
    built. *)
Theorem canceled_send_leaves_pool_unchanged
  (E : Env) (c : Client) (opt : PerformRequestOptions) (method : string)
  (rt : Retrier) (codes : option (list Z)) (e : error) :
  isCancellation e = true →
  (∀ n a req res w,
      afterDo E c opt method rt codes n a req res (Some e) w = Ok (Return None (Some e)) w)
  ∧ (∀ fuel retried n w a L,
      cursor_ok w = true → valid (heap w) (conns w) = true → live_cycle w = a :: L →
      (∀ m u, env_NewRequest E m u = None) → (∀ b g, env_SetBody E b g = None) →
      (∀ req, (env_Do E (ndo w) req).2 = Some e) →
      ∃ w' req,
        PerformRequest_loop E c opt method rt codes (S fuel) retried n w
        = Ok (None, Some e) w'
        ∧ heap w' = heap w ∧ conns w' = conns w
        ∧ trace w' = trace w ++ [EvDo a req]
        ∧ consulted (trace w') = consulted (trace w)
        ∧ marked_dead (trace w') = marked_dead (trace w)).
Proof.
  intros He. apply isCancellation_context in He. split.
  - intros. by apply afterDo_context.
  - intros fuel retried n w a L Hc Hv HL Hn Hb Hdo.
    destruct (loop_context_error E c opt method rt codes fuel retried n w a L e)
      as (w' & req & Hrun & Hh & Hcs & Ht); try done.
    exists w', req. repeat split; try done.
    + rewrite Ht. unfold consulted. rewrite omap_app. simpl. by rewrite app_nil_r.
    + rewrite Ht. unfold marked_dead. rewrite omap_app. simpl. by rewrite app_nil_r.
Qed.

Lemma canceled_send_leaves_pool_unchanged_witness :
  isCancellation canceledSend = true
  ∧ ∃ w', PerformRequest envCanceled (simpleClient (retries 2) None) 1 getRoot poolABC
          = Ok (None, Some canceledSend) w'
          ∧ heap w' = heap poolABC.
Proof.
  split; [reflexivity|].
  destruct (canceled_send_leaves_pool_unchanged envCanceled (simpleClient (retries 2) None)
              getRoot "GET" (retries 2) None canceledSend eq_refl) as [_ H].
  destruct (H 0%nat false 0 poolABC epA [epB; epC]) as (w' & req & Hrun & Hh & _);
    try reflexivity.
  exists w'. split; [exact Hrun | exact Hh].
Defined.

(** C10. [IsContextErr] accepts the two context errors and, beyond them,
    every [*url.Error] that is temporary or wraps an error it accepts. So
    there are transport errors that are no cancellation of the caller, such
    as a temporary connection failure inside a [*url.Error], for which
    [PerformRequest] returns at once with that error, without consulting the
    retrier and without marking the connection dead. *)
Theorem temporary_errors_end_the_call :
  (∀ e, IsContextErr_err e = true ↔
        e = Canceled ∨ e = DeadlineExceeded
        ∨ ∃ op u inner, e = UrlError op u inner
                        ∧ (Temporary inner = true ∨ IsContextErr_err inner = true))
  ∧ (IsContextErr (Some temporaryFailure) = true ∧ isCancellation temporaryFailure = false)
  ∧ ∀ E c opt method rt codes e,
      IsContextErr (Some e) = true →
      (∀ n a req res w,
          afterDo E c opt method rt codes n a req res (Some e) w
          = Ok (Return None (Some e)) w)
      ∧ (∀ fuel retried n w a L,
          cursor_ok w = true → valid (heap w) (conns w) = true → live_cycle w = a :: L →
          (∀ m u, env_NewRequest E m u = None) → (∀ b g, env_SetBody E b g = None) →
          (∀ req, (env_Do E (ndo w) req).2 = Some e) →
          ∃ w' req,
            PerformRequest_loop E c opt method rt codes (S fuel) retried n w
            = Ok (None, Some e) w'
            ∧ heap w' = heap w ∧ conns w' = conns w
            ∧ trace w' = trace w ++ [EvDo a req]).
Proof.
  split; [|split].
  - intros e. split.
    + destruct e as [| |op u inner| | | | |]; simpl; try done; auto.
      intros H. right. right. exists op, u, inner. split; [done|].
      destruct (Temporary inner); auto.
    + intros [-> | [-> | (op & u & inner & -> & [H|H])]]; simpl; try done.
      * by rewrite H.
      * rewrite H. by destruct (Temporary inner).
  - split; reflexivity.
  - intros E c opt method rt codes e He. simpl in He. split.
    + intros. by apply afterDo_context.
    + intros. by eapply loop_context_error.
Qed.

Lemma temporary_errors_end_the_call_witness :
  IsContextErr (Some temporaryFailure) = true
  ∧ ∃ w', PerformRequest envTemporary (simpleClient (retries 2) None) 1 getRoot poolABC
          = Ok (None, Some temporaryFailure) w'
          ∧ heap w' = heap poolABC ∧ consulted (trace w') = [].
Proof.
  split; [reflexivity|].
  destruct temporary_errors_end_the_call as (_ & _ & H).
  destruct (H envTemporary (simpleClient (retries 2) None) getRoot "GET" (retries 2) None
              temporaryFailure eq_refl) as [_ H'].
  destruct (H' 0%nat false 0 poolABC epA [epB; epC]) as (w' & req & Hrun & Hh & _ & Ht);
    try reflexivity.
  exists w'. split; [exact Hrun|]. split; [exact Hh|].
  rewrite Ht. reflexivity.
Defined.

(** ** Transport errors and the retrier *)



Lemma live_cycle_elem w a : a ∈ live_cycle w → liveAt (heap w) a = true ∧ a ∈ conns w.
Proof.
  unfold live_cycle. intros H. apply list_elem_of_filter in H as [Hl H].
  unfold cycle in H. by apply elem_of_rotate in H.
Qed.

Lemma retries_allows_exactly k : 0 ≤ k → allows_exactly k (retries k).
Proof.
  intros Hk. split.
  - intros n req res err Hn. exists 100000000. unfold retries.
    by rewrite bool_decide_true by lia.
  - intros req res err. exists 0. unfold retries.
    by rewrite bool_decide_false by lia.
Qed.




(** ** After the answer: [finishRequest] *)

Lemma quiet_refl w : quiet w w.
Proof.
  repeat split; try done. exists []. split; [by rewrite app_nil_r | done].
Qed.

Lemma quiet_trans w1 w2 w3 : quiet w1 w2 → quiet w2 w3 → quiet w1 w3.
Proof.
  intros (H1 & H2 & H3 & H4 & H5 & H6 & evs & Ht & Hl)
         (G1 & G2 & G3 & G4 & G5 & G6 & evs' & Gt & Gl).
  repeat split; try congruence.
  exists (evs ++ evs'). split.
  - by rewrite Gt, Ht, app_assoc.
  - rewrite forallb_app, Hl, Gl. done.
Qed.

Lemma quiet_emit w e : is_log e = true → quiet w (emit e w).
Proof.
  intros He. repeat split; try done. exists [e]. split; [done|].
  simpl. by rewrite He.
Qed.

Lemma quiet_errorf c m w w' : errorf c m w = Ok tt w' → quiet w w'.
Proof.
  rewrite errorf_run. intros [= <-]. destruct (errorlog c).
  - by apply quiet_emit.
  - apply quiet_refl.
Qed.

Lemma quiet_infof c m w w' : infof c m w = Ok tt w' → quiet w w'.
Proof.
  rewrite infof_run. intros [= <-]. destruct (infolog c).
  - by apply quiet_emit.
  - apply quiet_refl.
Qed.

(** Logging a list of messages always succeeds, quietly. *)
Lemma forM_errorf {A} (c : Client) (f : A → logmsg) (l : list A) : ∀ w,
  ∃ w', forM_ l (λ x, errorf c (f x)) w = Ok tt w' ∧ quiet w w'.
Proof.
  induction l as [|x l IH]; intros w.
  - exists w. split; [done | apply quiet_refl].
  - cbn [forM_]. rewrite run_bind, errorf_run.
    destruct (IH (if errorlog c then emit (EvErrorf (f x)) w else w)) as (w' & Hrun & Hq).
    exists w'. split; [done|].
    eapply quiet_trans; [|exact Hq].
    destruct (errorlog c); [by apply quiet_emit | apply quiet_refl].
Qed.

(** Log events are neither sends, nor markings, nor calls of the retrier. *)
Lemma log_silent (evs : list event) : forallb is_log evs = true →
  sent_to evs = [] ∧ marked_dead evs = [] ∧ consulted evs = [] ∧ slept evs = [].
Proof.
  intros Hl.
  assert (H : ∀ {B} (g : event → option B),
    (∀ e, is_log e = true → g e = None) → omap g evs = []).
  { intros B g Hg. induction evs as [|e evs IH]; [done|].
    simpl in Hl. apply andb_prop in Hl as [He Hl].
    simpl. rewrite (Hg e He). by apply IH. }
  unfold sent_to, marked_dead, consulted, slept.
  rewrite !H; [done | | | |]; by intros [].
Qed.

Lemma quiet_silent w w' : quiet w w' →
  sent_to (trace w') = sent_to (trace w)
  ∧ marked_dead (trace w') = marked_dead (trace w)
  ∧ consulted (trace w') = consulted (trace w)
  ∧ slept (trace w') = slept (trace w).
Proof.
  intros (_ & _ & _ & _ & _ & _ & evs & -> & Hl).
  destruct (log_silent evs Hl) as (H1 & H2 & H3 & H4).
  unfold sent_to, marked_dead, consulted, slept in *.
  rewrite !omap_app, H1, H2, H3, H4, !app_nil_r. done.
Qed.

(** The deprecation warnings of a response are reported quietly. *)
Lemma warnings_quiet (c : Client) (res : HttpResponse) (w : World) :
  ∃ w', (if bool_decide (Warning res = []) then mret tt
         else modify (emit EvDeprecation);;
              forM_ (Warning res) (λ warning, errorf c (LogDeprecation warning))) w
        = Ok tt w' ∧ quiet w w'.
Proof.
  case_bool_decide.
  - exists w. split; [done | apply quiet_refl].
  - rewrite run_bind. cbn [modify].
    destruct (forM_errorf c LogDeprecation (Warning res) (emit EvDeprecation w))
      as (w' & Hrun & Hq).
    exists w'. split; [done|].
    eapply quiet_trans; [|exact Hq]. by apply quiet_emit.
Qed.

(** The deferred closing of the body: nothing happens when the body can be
    closed, and a response without a body makes a call that does not stream
    panic. *)
Lemma closeBody_run opt r w : closable opt r = true → closeBody opt r w = Ok tt w.
Proof.
  unfold closable, closeBody. destruct (optStream opt); [done|].
  by destruct (ResBody r).
Qed.

Lemma closable_false opt r :
  closable opt r = false ↔ optStream opt = false ∧ ResBody r = BodyNil.
Proof.
  unfold closable. destruct (optStream opt), (ResBody r); cbn; split; try done;
    by intros [? ?].
Qed.

Lemma finishRequest_nil_body E c opt method a req r w :
  closable opt r = false → finishRequest E c opt method a req r w = Panic.
Proof.
  intros [Hs Hb]%closable_false. unfold finishRequest, closeBody.
  rewrite run_bind, Hs, Hb. reflexivity.
Qed.

(** What [finishRequest] does with a response, by the result of
    [checkResponse]. *)
Lemma finishRequest_error E c opt method a req r w err :
  closable opt r = true →
  checkResponse req r (optIgnoreErrors opt) = Some err →
  ∃ w', finishRequest E c opt method a req r w
        = Ok (Return (env_newResponse E r (optMaxResponseSize opt) (optStream opt)).1
                (Some err)) w'
        ∧ quiet w w'.
Proof.
  intros Hbody Hcheck. unfold finishRequest.
  rewrite run_bind, (closeBody_run _ _ _ Hbody).
  destruct (warnings_quiet c r w) as (w0 & Hrun & Hq).
  rewrite run_bind, Hrun, Hcheck.
  exists w0. split; [|done].
  by destruct (env_newResponse E r (optMaxResponseSize opt) (optStream opt)).
Qed.

Lemma finishRequest_success E c opt method a req r w k :
  closable opt r = true →
  checkResponse req r (optIgnoreErrors opt) = None →
  heap w !! a = Some k →
  env_newResponse E r (optMaxResponseSize opt) (optStream opt) ≠ (None, None) →
  ∃ w' w0 w1,
    finishRequest E c opt method a req r w
    = Ok (match env_newResponse E r (optMaxResponseSize opt) (optStream opt) with
          | (_, Some e) => Return None (Some e)
          | (resp, None) => Return resp None
          end) w'
    ∧ quiet w w0
    ∧ w1 = emit (EvMarkAsHealthy a) (set_heap (<[a := healthy k]> (heap w0)) w0)
    ∧ quiet w1 w'.
Proof.
  intros Hbody Hcheck Hk Hnew. unfold finishRequest.
  rewrite run_bind, (closeBody_run _ _ _ Hbody).
  destruct (warnings_quiet c r w) as (w0 & Hrun & Hq).
  rewrite run_bind, Hrun, Hcheck.
  assert (Hk0 : heap w0 !! a = Some k).
  { destruct Hq as (_ & _ & -> & _). done. }
  rewrite run_bind, (MarkAsHealthy_ok _ _ _ Hk0).
  set (w1 := emit (EvMarkAsHealthy a) (set_heap (<[a := healthy k]> (heap w0)) w0)).
  destruct (env_newResponse E r (optMaxResponseSize opt) (optStream opt))
    as [[resp|] [e|]]; try done.
  - exists w1, w0, w1. split; [done|]. split; [done|]. split; [done|]. apply quiet_refl.
  - rewrite run_bind, infof_run.
    eexists _, w0, w1. split; [reflexivity|]. split; [done|]. split; [done|].
    destruct (infolog c); [by apply quiet_emit | apply quiet_refl].
  - exists w1, w0, w1. split; [done|]. split; [done|]. split; [done|]. apply quiet_refl.
Qed.

(** Whatever the response whose body can be closed, [finishRequest]
    returns, sends nothing, does not consult the retrier and marks no
    connection dead. *)
Lemma finishRequest_frame E c opt method a req r w k :
  closable opt r = true → heap w !! a = Some k → newResponse_total E →
  ∃ resp err w' evs,
    finishRequest E c opt method a req r w = Ok (Return resp err) w'
    ∧ trace w' = trace w ++ evs
    ∧ sent_to evs = [] ∧ marked_dead evs = [] ∧ consulted evs = [] ∧ slept evs = []
    ∧ ndo w' = ndo w ∧ conns w' = conns w
    ∧ (∀ b, deadAt (heap w') b = true → deadAt (heap w) b = true).
Proof.
  intros Hbody Hk Hnew.
  destruct (checkResponse req r (optIgnoreErrors opt)) as [err|] eqn:Hcheck.
  - destruct (finishRequest_error E c opt method a req r w err Hbody Hcheck)
      as (w' & Hrun & Hq).
    destruct Hq as (Hcs & _ & Hh & _ & Hn & _ & evs & Ht & Hl).
    destruct (log_silent evs Hl) as (? & ? & ? & ?).
    eexists _, _, w', evs. split; [exact Hrun|].
    repeat split; try done. intros b. by rewrite Hh.
  - destruct (finishRequest_success E c opt method a req r w k Hbody Hcheck Hk (Hnew _ _ _))
      as (w' & w0 & w1 & Hrun & Hq0 & Hw1 & Hq1).
    destruct Hq0 as (Hcs0 & _ & Hh0 & _ & Hn0 & _ & evs0 & Ht0 & Hl0).
    destruct Hq1 as (Hcs1 & _ & Hh1 & _ & Hn1 & _ & evs1 & Ht1 & Hl1).
    destruct (log_silent evs0 Hl0) as (S0 & M0 & C0 & P0).
    destruct (log_silent evs1 Hl1) as (S1 & M1 & C1 & P1).
    assert (Hres : ∃ resp err,
      match env_newResponse E r (optMaxResponseSize opt) (optStream opt) with
      | (_, Some e) => Return None (Some e)
      | (resp, None) => Return resp None
      end = Return resp err).
    { destruct (env_newResponse E r (optMaxResponseSize opt) (optStream opt))
        as [resp [e|]]; eauto. }
    destruct Hres as (resp & err & Hres). rewrite Hres in Hrun.
    exists resp, err, w', (evs0 ++ [EvMarkAsHealthy a] ++ evs1).
    split; [exact Hrun|]. subst w1. cbn [trace conns heap ndo emit set_heap] in *.
    split. { rewrite Ht1, Ht0. by rewrite <- !app_assoc. }
    unfold sent_to, marked_dead, consulted, slept in *.
    rewrite !omap_app, S0, S1, M0, M1, C0, C1, P0, P1. cbn.
    repeat split; try congruence.
    intros b. rewrite Hh1. unfold deadAt.
    rewrite lookup_insert. destruct (decide (a = b)); [done|]. by rewrite Hh0.
Qed.

(** ** Retry status codes *)

(** The send was answered with a status of the retry list and the retrier
    says "retry". *)
Lemma afterDo_status_retry E c opt method rt codes n a req r w wait :
  retry codes (StatusCode r) = true →
  rt (incr n) (Some req) (Some r) None = (wait, true, None) →
  afterDo E c opt method rt codes n a req (Some r) None w
  = Ok (Continue true (incr n))
       (set_clock (clock w + Z.max 0 wait)
          (emit (EvSleep wait) (emit (EvRetry (incr n)) w))).
Proof.
  intros Hcode Hrt. unfold afterDo. cbn [IsContextErr]. rewrite Hcode.
  unfold Retry. rewrite !run_bind. cbn [modify mret M_ret]. rewrite Hrt. reflexivity.
Qed.

(** ... the retrier returns an error of its own. *)
Lemma afterDo_status_fatal E c opt method rt codes n a req r w wait ok re k :
  retry codes (StatusCode r) = true → heap w !! a = Some k →
  rt (incr n) (Some req) (Some r) None = (wait, ok, Some re) →
  afterDo E c opt method rt codes n a req (Some r) None w
  = Ok (Return None (Some re))
       (emit (EvMarkAsDead a)
          (set_heap (<[a := deadened (clock w) k]> (heap w))
             (if errorlog c
              then emit (EvErrorf (LogIsDead (url k))) (emit (EvRetry (incr n)) w)
              else emit (EvRetry (incr n)) w))).
Proof.
  intros Hcode Hk Hrt. unfold afterDo. cbn [IsContextErr]. rewrite Hcode.
  unfold Retry. rewrite !run_bind. cbn [modify mret M_ret]. rewrite Hrt.
  cbn match. rewrite run_bind, (URL_ok _ _ k) by done.
  rewrite run_bind, errorf_run, run_bind.
  rewrite (MarkAsDead_ok _ _ k) by (by destruct (errorlog c)).
  by destruct (errorlog c).
Qed.

(** ... the retrier says "do not retry": the response is handled like any
    other. *)
Lemma afterDo_status_decline E c opt method rt codes n a req r w wait :
  retry codes (StatusCode r) = true →
  rt (incr n) (Some req) (Some r) None = (wait, false, None) →
  afterDo E c opt method rt codes n a req (Some r) None w
  = finishRequest E c opt method a req r (emit (EvRetry (incr n)) w).
Proof.
  intros Hcode Hrt. unfold afterDo. cbn [IsContextErr]. rewrite Hcode.
  unfold Retry. rewrite !run_bind. cbn [modify mret M_ret]. rewrite Hrt. reflexivity.
Qed.

(** The status is not in the retry list. *)
Lemma afterDo_status_plain E c opt method rt codes n a req r w :
  retry codes (StatusCode r) = false →
  afterDo E c opt method rt codes n a req (Some r) None w
  = finishRequest E c opt method a req r w.
Proof. intros Hcode. unfold afterDo. cbn [IsContextErr]. by rewrite Hcode. Qed.

(** With a retrier that allows exactly one retry and two answers whose
    statuses are in the retry list, the second with a body that can be
    closed, [PerformRequest] makes exactly two attempts and marks no
    connection dead. *)
Lemma retry_status_two_attempts
  (E : Env) (c : Client) (opt : PerformRequestOptions) (fuel : nat) (w : World)
  (codes : list Z) :
  cursor_ok w = true → valid (heap w) (conns w) = true → live_cycle w ≠ [] →
  builds E → newResponse_total E →
  callRetryStatusCodes c opt = Some codes → sends_answer E codes (ndo w) 2 →
  bodies_closable E opt (S (ndo w)) 1 →
  allows_exactly 1 (callRetrier c opt) → (2 ≤ fuel)%nat →
  ∃ w' resp err evs,
    PerformRequest E c fuel opt w = Ok (resp, err) w'
    ∧ ndo w' = (ndo w + 2)%nat
    ∧ trace w' = trace w ++ evs
    ∧ length (sent_to evs) = 2%nat
    ∧ consulted evs = [1; 2]
    ∧ marked_dead evs = []
    ∧ (∀ b, deadAt (heap w') b = true → deadAt (heap w) b = true).
Proof.
  intros Hc Hv HL [Hn Hb] Hnew Hcodes Hdo Hbody [Hretry Hstop] Hfuel.
  destruct fuel as [|[|fuel]]; try lia.
  set (rt := callRetrier c opt) in *.
  set (m := callMethod c opt).
  destruct (live_cycle w) as [|a1 L1] eqn:E1; [done|].
  (* first attempt: answered, retried *)
  destruct (iter_sends E c opt m rt (Some codes) false 0 w a1 L1 Hc Hv E1 Hn Hb)
    as (p1 & req1 & w1 & Hw1 & Hrun1 & Hc1 & HL1).
  destruct (Hdo (ndo w) req1) as (r1 & Hr1 & Hs1); [lia|].
  destruct (Hretry 1 (Some req1) (Some r1) None) as (wait1 & Hwait1); [lia|].
  rewrite Hr1 in Hrun1. cbn [fst snd] in Hrun1.
  rewrite (afterDo_status_retry _ _ _ _ _ _ _ _ _ _ _ wait1) in Hrun1 by done.
  change (incr 0) with 1 in Hrun1.
  set (w1' := set_clock (clock w1 + Z.max 0 wait1)
                (emit (EvSleep wait1) (emit (EvRetry 1) w1))) in *.
  (* second attempt: answered, not retried *)
  destruct (L1 ++ [a1]) as [|a2 L2] eqn:E2; [by destruct L1|].
  assert (Hv1 : valid (heap w1') (conns w1') = true) by (by subst w1' w1).
  assert (Ha2 : ∃ k2, heap w !! a2 = Some k2).
  { destruct (live_cycle_elem w1 a2) as [Hl _]; [rewrite HL1; left|].
    apply liveAt_Some in Hl as (k2 & Hk2 & _). exists k2. by subst w1. }
  destruct Ha2 as (k2 & Hk2).
  destruct (iter_sends E c opt m rt (Some codes) true 1 w1' a2 L2) as
    (p2 & req2 & w2 & Hw2 & Hrun2 & Hc2 & HL2); try done.
  destruct (Hdo (ndo w1') req2) as (r2 & Hr2 & Hs2); [subst w1' w1; simpl; lia|].
  destruct (Hstop (Some req2) (Some r2) None) as (wait2 & Hwait2).
  rewrite Hr2 in Hrun2. cbn [fst snd] in Hrun2.
  rewrite (afterDo_status_decline _ _ _ _ _ _ _ _ _ _ _ wait2) in Hrun2 by done.
  change (incr 1) with 2 in Hrun2.
  destruct (finishRequest_frame E c opt m a2 req2 r2 (emit (EvRetry 2) w2) k2)
    as (resp & err & w' & evs & Hfin & Ht & Hs & Hm & Hco & Hsl & Hnd & Hcs & Hdead).
  { apply (Hbody (ndo w1') req2); [subst w1' w1; simpl; lia | done]. }
  { by subst w2 w1' w1. }
  { done. }
  rewrite Hfin in Hrun2.
  exists w', resp, err,
    ([EvDo a1 req1; EvRetry 1; EvSleep wait1]
     ++ [EvDo a2 req2; EvRetry 2] ++ evs).
  split.
  { unfold PerformRequest. fold m rt. rewrite Hcodes.
    rewrite (loop_Continue _ _ _ _ _ _ _ _ _ _ _ _ _ Hrun1).
    by apply loop_Return. }
  split. { rewrite Hnd. subst w2 w1' w1. simpl. lia. }
  split. { rewrite Ht. subst w2 w1' w1. simpl. by rewrite <- !app_assoc. }
  unfold sent_to, marked_dead, consulted in *.
  rewrite !omap_app, Hs, Hm, Hco. cbn.
  repeat split; try done.
  intros b Hb'. apply Hdead in Hb'. by subst w2 w1' w1.
Qed.

(** C4, as the code has it. When a send is answered with a status of the
    retry list, the retrier is consulted. If it returns an error of its own,
    the connection is marked dead and that error returned. If it says
    "retry", the executor sleeps and loops and no connection changes. If it
    says "do not retry", the connection is not marked dead: the response is
    handled as one whose status is not in the list. For a response whose
    body can be closed (it has a body, or the call streams) the call then
    returns; a response without a body makes a call that does not stream
    panic where it defers the closing of the body. So with two answers of
    such a status, 503 say, the second with a body that can be closed, and a
    retrier that allows exactly one retry there are exactly two attempts and
    no connection is marked dead. *)
Theorem retry_status_codes_policy :
  (∀ E c opt method rt codes n a req r w k wait ok rerr,
      retry codes (StatusCode r) = true → heap w !! a = Some k → newResponse_total E →
      rt (incr n) (Some req) (Some r) None = (wait, ok, rerr) →
      match rerr, ok with
      | Some re, _ =>
          ∃ w' evs, afterDo E c opt method rt codes n a req (Some r) None w
                    = Ok (Return None (Some re)) w'
                    ∧ trace w' = trace w ++ evs
                    ∧ consulted evs = [incr n] ∧ marked_dead evs = [a]
                    ∧ deadAt (heap w') a = true
      | None, true =>
          ∃ w', afterDo E c opt method rt codes n a req (Some r) None w
                = Ok (Continue true (incr n)) w'
                ∧ heap w' = heap w
                ∧ trace w' = trace w ++ [EvRetry (incr n); EvSleep wait]
      | None, false =>
          afterDo E c opt method rt codes n a req (Some r) None w
          = finishRequest E c opt method a req r (emit (EvRetry (incr n)) w)
          ∧ afterDo E c opt method rt None n a req (Some r) None (emit (EvRetry (incr n)) w)
            = finishRequest E c opt method a req r (emit (EvRetry (incr n)) w)
          ∧ (closable opt r = true →
             ∃ resp err w' evs,
               afterDo E c opt method rt codes n a req (Some r) None w
               = Ok (Return resp err) w'
               ∧ trace w' = trace w ++ evs
               ∧ consulted evs = [incr n] ∧ marked_dead evs = []
               ∧ (∀ b, deadAt (heap w') b = true → deadAt (heap w) b = true))
          ∧ (closable opt r = false →
             afterDo E c opt method rt codes n a req (Some r) None w = Panic)
      end)
  ∧ (∀ E c opt fuel w codes,
      cursor_ok w = true → valid (heap w) (conns w) = true → live_cycle w ≠ [] →
      builds E → newResponse_total E →
      callRetryStatusCodes c opt = Some codes → sends_answer E codes (ndo w) 2 →
      bodies_closable E opt (S (ndo w)) 1 →
      allows_exactly 1 (callRetrier c opt) → (2 ≤ fuel)%nat →
      ∃ w' resp err evs,
        PerformRequest E c fuel opt w = Ok (resp, err) w'
        ∧ ndo w' = (ndo w + 2)%nat
        ∧ trace w' = trace w ++ evs
        ∧ length (sent_to evs) = 2%nat
        ∧ consulted evs = [1; 2]
        ∧ marked_dead evs = []
        ∧ (∀ b, deadAt (heap w') b = true → deadAt (heap w) b = true)).
Proof.
  split; [|exact retry_status_two_attempts].
  intros E c opt method rt codes n a req r w k wait ok rerr Hcode Hk Hnew Hrt.
  destruct rerr as [re|]; [|destruct ok].
  - rewrite (afterDo_status_fatal _ _ _ _ _ _ _ _ _ _ _ wait ok re k) by done.
    eexists _, ([EvRetry (incr n)]
                ++ (if errorlog c then [EvErrorf (LogIsDead (url k))] else [])
                ++ [EvMarkAsDead a]).
    split; [reflexivity|]. cbn [trace heap emit set_heap].
    split. { destruct (errorlog c); cbn [trace emit]; by rewrite <- !app_assoc. }
    split. { by destruct (errorlog c). }
    split. { by destruct (errorlog c). }
    unfold deadAt. by rewrite lookup_insert_eq.
  - rewrite (afterDo_status_retry _ _ _ _ _ _ _ _ _ _ _ wait) by done.
    eexists. split; [reflexivity|]. cbn [trace heap emit set_clock].
    split; [done|]. by rewrite <- !app_assoc.
  - split; [by apply (afterDo_status_decline _ _ _ _ _ _ _ _ _ _ _ wait)|].
    split; [by apply afterDo_status_plain|].
    rewrite (afterDo_status_decline _ _ _ _ _ _ _ _ _ _ _ wait) by done.
    split; [|by apply finishRequest_nil_body].
    intros Hbody.
    destruct (finishRequest_frame E c opt method a req r (emit (EvRetry (incr n)) w) k)
      as (resp & err & w' & evs & Hfin & Ht & Hs & Hm & Hco & Hsl & Hnd & Hcs & Hdead);
      [done | done | done |].
    exists resp, err, w', ([EvRetry (incr n)] ++ evs).
    split; [done|]. split. { rewrite Ht. cbn [trace emit]. by rewrite <- app_assoc. }
    unfold consulted, marked_dead in *. rewrite !omap_app, Hco, Hm. cbn.
    repeat split; try done.
Qed.

Lemma envOf_newResponse_total doer : newResponse_total (envOf doer).
Proof. intros r size stream. discriminate. Qed.

Lemma envOf_builds doer : builds (envOf doer).
Proof. split; intros; reflexivity. Qed.

Lemma retry_status_codes_policy_witness :
  ∃ w' resp err evs,
    PerformRequest (envReplies 503) (simpleClient (retries 1) (Some [503])) 2 getRoot poolABC
    = Ok (resp, err) w'
    ∧ trace w' = trace poolABC ++ evs
    ∧ consulted evs = [1; 2] ∧ marked_dead evs = [].
Proof.
  destruct retry_status_codes_policy as [_ H].
  destruct (H (envReplies 503) (simpleClient (retries 1) (Some [503])) getRoot 2%nat
              poolABC [503])
    as (w' & resp & err & evs & Hrun & _ & Ht & _ & Hc & Hm & _).
  - reflexivity.
  - reflexivity.
  - vm_compute. discriminate.
  - apply envOf_builds.
  - apply envOf_newResponse_total.
  - reflexivity.
  - intros i req Hi. eexists. split; reflexivity.
  - intros i req r Hi [= <-]. reflexivity.
  - apply (retries_allows_exactly 1). lia.
  - lia.
  - exists w', resp, err, evs. split; [exact Hrun|]. split; [exact Ht|].
    split; [exact Hc | exact Hm].
Defined.

(** C4, as the specification states it, fails: with 503 in the retry list,
    answers that carry a body and a retrier that declines to retry, the call
    returns the application error of the 503 answer and the connection that
    answered is not marked dead. *)
Lemma declined_retry_marks_dead_counterexample :
  retry (callRetryStatusCodes (simpleClient noRetries (Some [503])) getRoot) 503 = true
  ∧ (∀ n req res err, noRetries n req res err = (0, false, None))
  ∧ closable getRoot (emptyBody 503) = true
  ∧ ∃ w' resp,
      PerformRequest (envReplies 503) (simpleClient noRetries (Some [503])) 1 getRoot poolABC
      = Ok (Some resp, Some (ElasticError 503 None)) w'
      ∧ sent_to (trace w') = [epA]
      ∧ consulted (trace w') = [1]
      ∧ marked_dead (trace w') = []
      ∧ deadAt (heap w') epA = false.
Proof.
  split; [reflexivity|]. split; [reflexivity|]. split; [reflexivity|].
  eexists _, _. split; [vm_compute; reflexivity|]. repeat split.
Qed.

(** ** Application errors *)

Lemma inCodes_elem (codes : list Z) (x : Z) : inCodes codes x = true ↔ x ∈ codes.
Proof.
  induction codes as [|code codes IH]; simpl.
  - split; [done | by intros ?%elem_of_nil].
  - rewrite elem_of_cons. case_bool_decide as Hx.
    + split; [by left; subst | done].
    + rewrite IH. split; [by right | intros [->|?]; done].
Qed.

(** The status an [*Error] made from a response carries: the one decoded
    from the body when there is one and it is not zero, the HTTP status
    otherwise. *)
Lemma createResponseError_status (res : HttpResponse) :
  ∃ details,
    createResponseError res
    = ElasticError (match ResBody res with
                    | BodyDecoded status _ =>
                        if bool_decide (status = 0) then StatusCode res else status
                    | _ => StatusCode res
                    end) details.
Proof. unfold createResponseError. destruct (ResBody res); eauto. Qed.

(** C9, as the code has it. [checkResponse] returns nil if and only if the
    status is in [200, 299] or in the ignore list. Otherwise it returns an
    [*Error] whose status is the one decoded from the response body when the
    body decodes to a status that is not zero, and the HTTP status in every
    other case. For a response whose body can be closed (it has a body, or
    the call streams), and whose status is not in the retry list or for
    which the retrier, consulted once, declines to retry, [PerformRequest]
    returns such an error without a retry, a sleep or a change to a
    connection, together with the response [newResponse] builds, if any;
    when there is no such error the connection is marked healthy, which
    clears its failure history, and the response built by [newResponse] is
    returned. A response without a body makes a call that does not stream
    panic before [checkResponse] is reached. *)
Theorem application_errors_are_returned :
  (∀ req res ignoreErrors,
      checkResponse req res ignoreErrors = None
      ↔ (200 ≤ StatusCode res ≤ 299 ∨ StatusCode res ∈ ignoreErrors))
  ∧ (∀ req res ignoreErrors e,
      checkResponse req res ignoreErrors = Some e →
      ∃ details,
        e = ElasticError (match ResBody res with
                          | BodyDecoded status _ =>
                              if bool_decide (status = 0) then StatusCode res else status
                          | _ => StatusCode res
                          end) details)
  ∧ (∀ E c opt method rt codes n a req r w err,
      closable opt r = true →
      checkResponse req r (optIgnoreErrors opt) = Some err →
      (retry codes (StatusCode r) = false →
       ∃ w', afterDo E c opt method rt codes n a req (Some r) None w
             = Ok (Return (env_newResponse E r (optMaxResponseSize opt) (optStream opt)).1
                     (Some err)) w'
             ∧ quiet w w')
      ∧ (∀ wait,
           retry codes (StatusCode r) = true →
           rt (incr n) (Some req) (Some r) None = (wait, false, None) →
           ∃ w', afterDo E c opt method rt codes n a req (Some r) None w
                 = Ok (Return (env_newResponse E r (optMaxResponseSize opt)
                                 (optStream opt)).1 (Some err)) w'
                 ∧ quiet (emit (EvRetry (incr n)) w) w'))
  ∧ (∀ E c opt method rt codes n a req r w k resp,
      closable opt r = true →
      checkResponse req r (optIgnoreErrors opt) = None →
      heap w !! a = Some k →
      env_newResponse E r (optMaxResponseSize opt) (optStream opt) = (Some resp, None) →
      (retry codes (StatusCode r) = false →
       ∃ w', afterDo E c opt method rt codes n a req (Some r) None w
             = Ok (Return (Some resp) None) w'
             ∧ heap w' = <[a := healthy k]> (heap w)
             ∧ failures (healthy k) = 0 ∧ dead (healthy k) = false
             ∧ deadSince (healthy k) = None
             ∧ consulted (trace w') = consulted (trace w))
      ∧ (∀ wait,
           retry codes (StatusCode r) = true →
           rt (incr n) (Some req) (Some r) None = (wait, false, None) →
           ∃ w', afterDo E c opt method rt codes n a req (Some r) None w
                 = Ok (Return (Some resp) None) w'
                 ∧ heap w' = <[a := healthy k]> (heap w)
                 ∧ consulted (trace w') = consulted (trace w) ++ [incr n]))
  ∧ (∀ E c opt method rt codes n a req r w,
      closable opt r = false →
      (retry codes (StatusCode r) = false →
       afterDo E c opt method rt codes n a req (Some r) None w = Panic)
      ∧ (∀ wait,
           retry codes (StatusCode r) = true →
           rt (incr n) (Some req) (Some r) None = (wait, false, None) →
           afterDo E c opt method rt codes n a req (Some r) None w = Panic)).
Proof.
  assert (Hhealthy : ∀ E c opt method a req r w k resp,
    closable opt r = true →
    checkResponse req r (optIgnoreErrors opt) = None →
    heap w !! a = Some k →
    env_newResponse E r (optMaxResponseSize opt) (optStream opt) = (Some resp, None) →
    ∃ w', finishRequest E c opt method a req r w = Ok (Return (Some resp) None) w'
          ∧ heap w' = <[a := healthy k]> (heap w)
          ∧ consulted (trace w') = consulted (trace w)).
  { intros E c opt method a req r w k resp Hbody Hcheck Hk Hnew.
    destruct (finishRequest_success E c opt method a req r w k Hbody Hcheck Hk)
      as (w' & w0 & w1 & Hrun & Hq0 & Hw1 & Hq1).
    { by rewrite Hnew. }
    rewrite Hnew in Hrun. exists w'. split; [exact Hrun|].
    destruct (quiet_silent _ _ Hq0) as (_ & _ & Hco0 & _).
    destruct (quiet_silent _ _ Hq1) as (_ & _ & Hco1 & _).
    destruct Hq0 as (_ & _ & Hh0 & _). destruct Hq1 as (_ & _ & Hh1 & _).
    split. { rewrite Hh1. subst w1. cbn [heap emit set_heap]. by rewrite Hh0. }
    rewrite Hco1. subst w1. cbn [trace emit set_heap].
    unfold consulted in *. rewrite omap_app. cbn. by rewrite app_nil_r. }
  split; [|split; [|split; [|split]]].
  - intros req res ignoreErrors. unfold checkResponse.
    destruct (bool_decide (200 ≤ StatusCode res) && bool_decide (StatusCode res ≤ 299))
      eqn:Hrange.
    + apply andb_prop in Hrange as [H1 H2]. apply bool_decide_eq_true in H1, H2.
      split; [intros _; left; lia | done].
    + destruct (inCodes ignoreErrors (StatusCode res)) eqn:Hin.
      * apply inCodes_elem in Hin. split; [by right | done].
      * split; [done|]. intros [H|H].
        -- rewrite !bool_decide_true in Hrange by lia. done.
        -- apply inCodes_elem in H. congruence.
  - intros req res ignoreErrors e. unfold checkResponse.
    destruct (_ && _); [done|]. destruct (inCodes _ _); [done|].
    intros [= <-]. apply createResponseError_status.
  - intros E c opt method rt codes n a req r w err Hbody Hcheck. split.
    + intros Hcode. rewrite afterDo_status_plain by done. by apply finishRequest_error.
    + intros wait Hcode Hrt.
      rewrite (afterDo_status_decline _ _ _ _ _ _ _ _ _ _ _ wait) by done.
      by apply finishRequest_error.
  - intros E c opt method rt codes n a req r w k resp Hbody Hcheck Hk Hnew. split.
    + intros Hcode. rewrite afterDo_status_plain by done.
      destruct (Hhealthy E c opt method a req r w k resp) as (w' & Hrun & Hh & Hco);
        try done.
      exists w'. by repeat split.
    + intros wait Hcode Hrt.
      rewrite (afterDo_status_decline _ _ _ _ _ _ _ _ _ _ _ wait) by done.
      destruct (Hhealthy E c opt method a req r (emit (EvRetry (incr n)) w) k resp)
        as (w' & Hrun & Hh & Hco); try done.
      exists w'. split; [done|]. split; [done|].
      rewrite Hco. cbn [trace emit]. unfold consulted. by rewrite omap_app.
  - intros E c opt method rt codes n a req r w Hbody. split.
    + intros Hcode. rewrite afterDo_status_plain by done.
      by apply finishRequest_nil_body.
    + intros wait Hcode Hrt.
      rewrite (afterDo_status_decline _ _ _ _ _ _ _ _ _ _ _ wait) by done.
      by apply finishRequest_nil_body.
Qed.

Lemma application_errors_are_returned_witness :
  checkResponse anyRequest mismatchedResponse [] = Some (createResponseError mismatchedResponse)
  ∧ ∃ w', afterDo (envStatus 500) (simpleClient noRetries None) getRoot "GET" noRetries None
            0 epA anyRequest (Some mismatchedResponse) None poolABC
          = Ok (Return (Some (mkResponse 500 None))
                  (Some (createResponseError mismatchedResponse))) w'
          ∧ quiet poolABC w'.
Proof.
  split; [reflexivity|].
  destruct application_errors_are_returned as (_ & _ & H & _).
  exact (proj1 (H (envStatus 500) (simpleClient noRetries None) getRoot "GET" noRetries None
                  0 epA anyRequest mismatchedResponse poolABC
                  (createResponseError mismatchedResponse) eq_refl eq_refl) eq_refl).
Defined.

(** C9, as the specification states it, fails: for an answer with HTTP
    status 500 whose body decodes to an error of status 404, the [*Error]
    that [checkResponse] returns carries 404, not the HTTP status. *)
Lemma error_status_counterexample :
  StatusCode mismatchedResponse = 500
  ∧ ∃ details, checkResponse anyRequest mismatchedResponse [] = Some (ElasticError 404 details)
  ∧ ¬ (∃ details, checkResponse anyRequest mismatchedResponse []
                  = Some (ElasticError (StatusCode mismatchedResponse) details)).
Proof.
  split; [reflexivity|]. eexists. split; [reflexivity|].
  intros [details H]. discriminate H.
Qed.

(** ** Health checks *)

Lemma Do_run E r w :
  Do E r w = Ok (env_Do E (ndo w) r)
               (set_clock (clock w + Z.max 0 (env_took E (ndo w))) (set_ndo (S (ndo w)) w)).
Proof. reflexivity. Qed.

(** One probe: the counters advance and the outcome is the one the
    environment gives. *)
Lemma probe_run E c a u w :
  ∃ w', probe E c a u w = Ok (probe_outcome E c (nprobe w) (ndo w) u) w'
        ∧ conns w' = conns w ∧ cindex w' = cindex w ∧ heap w' = heap w
        ∧ nprobe w' = S (nprobe w)
        ∧ (ndo w ≤ ndo w' ≤ S (ndo w))%nat
        ∧ marked_dead (trace w') = marked_dead (trace w).
Proof.
  unfold probe, probe_outcome.
  cbv [mbind M_bind mret M_ret gets modify]. cbn [nprobe set_nprobe].
  destruct (env_NewRequest E "HEAD" u) as [err|].
  - cbn [fst snd].
    destruct (env_timeout E (nprobe w)); eexists; (split; [reflexivity|]);
      cbn; repeat split; lia.
  - rewrite Do_run.
    cbn [ndo emit set_nprobe].
    destruct (env_Do E (ndo w) (headRequest E c u)) as [res err].
    cbn [fst snd].
    destruct (env_timeout E (nprobe w)); eexists; (split; [reflexivity|]);
      cbn; (repeat split; try lia);
      unfold marked_dead; rewrite omap_app; cbn; by rewrite app_nil_r.
Qed.

(** The health check of one connection. *)
Lemma healthcheck_conn_spec E c a w k :
  heap w !! a = Some k →
  ∃ w',
    healthcheck_conn E c a w = Ok tt w'
    ∧ conns w' = conns w ∧ cindex w' = cindex w
    ∧ nprobe w' = S (nprobe w) ∧ (ndo w ≤ ndo w' ≤ S (ndo w))%nat
    ∧ heap w' = <[a := if outcome_dead (probe_outcome E c (nprobe w) (ndo w) (url k))
                       then deadened (clock w') k else alive k]> (heap w).
Proof.
  intros Hk. unfold healthcheck_conn.
  rewrite run_bind, (URL_ok _ _ k) by done.
  destruct (probe_run E c a (url k) w) as (w1 & Hrun & Hcs & Hci & Hh & Hnp & Hnd & _).
  rewrite run_bind, Hrun.
  assert (Hk1 : heap w1 !! a = Some k) by (by rewrite Hh).
  assert (Hdead : ∀ m : logmsg,
    ∃ w', ((u ← URL a; errorf c (LogIsDead u);; MarkAsDead a) : M unit) w1 = Ok tt w'
      ∧ conns w' = conns w ∧ cindex w' = cindex w
      ∧ nprobe w' = S (nprobe w) ∧ (ndo w ≤ ndo w' ≤ S (ndo w))%nat
      ∧ heap w' = <[a := deadened (clock w') k]> (heap w)).
  { intros _. rewrite run_bind, (URL_ok _ _ k), run_bind, errorf_run by done.
    rewrite (MarkAsDead_ok _ _ k) by (by destruct (errorlog c)).
    eexists. split; [reflexivity|].
    destruct (errorlog c); cbn; rewrite ?Hcs, ?Hci, ?Hnp, ?Hh; repeat split; lia. }
  destruct (probe_outcome E c (nprobe w) (ndo w) (url k)) as [|status [err|]];
    cbn [outcome_dead].
  - apply (Hdead LogNoConnection).
  - apply (Hdead LogNoConnection).
  - destruct (bool_decide (200 ≤ status) && bool_decide (status < 300)) eqn:Hs.
    + apply andb_prop in Hs as [H1 H2]. apply bool_decide_eq_true in H1, H2.
      rewrite bool_decide_true by lia.
      rewrite (MarkAsAlive_ok _ _ k) by done.
      eexists. split; [reflexivity|]. cbn. rewrite ?Hcs, ?Hci, ?Hnp, ?Hh.
      repeat split; lia.
    + rewrite bool_decide_false.
      2:{ intros [H1 H2]. rewrite !bool_decide_true in Hs by lia. done. }
      rewrite run_bind, (MarkAsDead_ok _ _ k) by done.
      rewrite run_bind, (URL_ok _ _ (deadened (clock w1) k)).
      2:{ cbn. by rewrite lookup_insert_eq. }
      rewrite errorf_run.
      eexists. split; [reflexivity|].
      destruct (errorlog c); cbn; rewrite ?Hcs, ?Hci, ?Hnp, ?Hh; repeat split; lia.
Qed.

Lemma valid_insert h l a k : valid h l = true → valid (<[a := k]> h) l = true.
Proof.
  intros Hv. apply valid_intro. intros b Hb. rewrite lookup_insert.
  destruct (decide (a = b)); [done|]. by eapply valid_lookup.
Qed.

(** A sweep over connections that are pairwise distinct: each is left in
    the state its own probe stands for. *)
Lemma sweep_spec E c (l : list addr) : ∀ w,
  NoDup l → valid (heap w) l = true →
  ∃ w',
    forM_ l (healthcheck_conn E c) w = Ok tt w'
    ∧ conns w' = conns w ∧ cindex w' = cindex w
    ∧ nprobe w' = (nprobe w + length l)%nat
    ∧ (ndo w ≤ ndo w' ≤ ndo w + length l)%nat
    ∧ (∀ b, b ∉ l → heap w' !! b = heap w !! b)
    ∧ ∀ i a k, l !! i = Some a → heap w !! a = Some k →
        ∃ kd k', (ndo w ≤ kd ≤ ndo w + i)%nat
          ∧ heap w' !! a = Some k'
          ∧ nodeID k' = nodeID k ∧ url k' = url k
          ∧ dead k' = outcome_dead (probe_outcome E c (nprobe w + i) kd (url k)).
Proof.
  induction l as [|x l IH]; intros w Hnd Hv.
  - exists w. cbn [forM_ length]. repeat split; try done; try lia.
  - apply NoDup_cons in Hnd as [Hx Hnd].
    simpl in Hv. apply andb_prop in Hv as [Hvx Hv].
    apply bool_decide_eq_true in Hvx as [kx Hkx].
    destruct (healthcheck_conn_spec E c x w kx Hkx)
      as (w1 & Hrun1 & Hcs1 & Hci1 & Hnp1 & Hn1 & Hh1).
    destruct (IH w1 Hnd) as (w' & Hrun & Hcs & Hci & Hnp & Hn & Hframe & Hall).
    { rewrite Hh1. by apply valid_insert. }
    exists w'. cbn [forM_ length]. rewrite run_bind, Hrun1.
    split; [exact Hrun|]. split; [congruence|]. split; [congruence|].
    split; [lia|]. split; [lia|]. split.
    + intros b Hb. apply not_elem_of_cons in Hb as [Hbx Hb].
      rewrite Hframe, Hh1 by done. by rewrite lookup_insert_ne.
    + intros [|i] a k Hi Hk.
      * injection Hi as <-. rewrite Hkx in Hk. injection Hk as <-.
        exists (ndo w). eexists. split; [lia|].
        rewrite Hframe, Hh1, lookup_insert_eq by done.
        rewrite Nat.add_0_r. split; [reflexivity|].
        by destruct (outcome_dead _).
      * cbn in Hi.
        assert (Hax : x ≠ a).
        { intros ->. apply Hx. eapply list_elem_of_lookup_2; eauto. }
        destruct (Hall i a k Hi) as (kd & k' & Hkd & Hk' & Hid & Hu & Hd).
        { rewrite Hh1. by rewrite lookup_insert_ne. }
        exists kd, k'. split; [lia|]. split; [done|]. split; [done|]. split; [done|].
        rewrite Hd, Hnp1. do 2 f_equal. lia.
Qed.

(** C6. The liveness a health check leaves an endpoint in is determined
    by the outcome of its probe alone: dead after a timeout, dead after a
    transport error, alive after a status in [200, 299], dead after any
    other status. This holds for each probed endpoint whatever its state
    before, and for every endpoint of a sweep over a pool that is enabled or
    forced; a sweep that is neither does nothing. *)
Theorem healthcheck_liveness_by_outcome :
  (outcome_dead ProbeTimeout = true
   ∧ (∀ status e, outcome_dead (ProbeAnswer status (Some e)) = true)
   ∧ (∀ status, outcome_dead (ProbeAnswer status None) = false ↔ 200 ≤ status ≤ 299))
  ∧ (∀ E c a w k,
      heap w !! a = Some k →
      ∃ w' k',
        healthcheck_conn E c a w = Ok tt w'
        ∧ heap w' !! a = Some k'
        ∧ dead k' = outcome_dead (probe_outcome E c (nprobe w) (ndo w) (url k))
        ∧ nodeID k' = nodeID k ∧ url k' = url k
        ∧ ∀ b, b ≠ a → heap w' !! b = heap w !! b)
  ∧ (∀ E c force w,
      healthcheckEnabled c || force = true →
      NoDup (conns w) → valid (heap w) (conns w) = true →
      ∃ w',
        healthcheck E c force w = Ok tt w'
        ∧ conns w' = conns w
        ∧ (∀ b, b ∉ conns w → heap w' !! b = heap w !! b)
        ∧ ∀ i a k, conns w !! i = Some a → heap w !! a = Some k →
            ∃ kd, (ndo w ≤ kd ≤ ndo w + i)%nat
              ∧ deadAt (heap w') a
                = outcome_dead (probe_outcome E c (nprobe w + i) kd (url k)))
  ∧ (∀ E c w, healthcheckEnabled c = false → healthcheck E c false w = Ok tt w).
Proof.
  split; [|split; [|split]].
  - split; [done|]. split; [done|]. intros status. cbn. case_bool_decide; split; done.
  - intros E c a w k Hk.
    destruct (healthcheck_conn_spec E c a w k Hk) as (w' & Hrun & _ & _ & _ & _ & Hh).
    eexists w', _. split; [exact Hrun|]. rewrite Hh. split; [apply lookup_insert_eq|].
    split; [by destruct (outcome_dead _)|].
    split; [by destruct (outcome_dead _)|]. split; [by destruct (outcome_dead _)|].
    intros b Hb. by rewrite lookup_insert_ne.
  - intros E c force w Hon Hnd Hv. unfold healthcheck.
    replace (negb (healthcheckEnabled c) && negb force) with false.
    2:{ by destruct (healthcheckEnabled c), force. }
    rewrite run_bind. cbn [gets].
    destruct (sweep_spec E c (conns w) w Hnd Hv)
      as (w' & Hrun & Hcs & _ & _ & _ & Hframe & Hall).
    exists w'. split; [exact Hrun|]. split; [exact Hcs|]. split; [exact Hframe|].
    intros i a k Hi Hk.
    destruct (Hall i a k Hi Hk) as (kd & k' & Hkd & Hk' & _ & _ & Hd).
    exists kd. split; [exact Hkd|]. unfold deadAt. by rewrite Hk'.
  - intros E c w Hoff. unfold healthcheck. by rewrite Hoff.
Qed.

Lemma healthcheck_liveness_by_outcome_witness :
  ∃ w', healthcheck envBdown checkingClient false poolABC = Ok tt w'
        ∧ deadAt (heap w') epA = false
        ∧ deadAt (heap w') epB = true
        ∧ deadAt (heap w') epC = false.
Proof.
  destruct healthcheck_liveness_by_outcome as (_ & _ & H & _).
  destruct (H envBdown checkingClient false poolABC) as (w' & Hrun & _ & _ & Hall).
  - reflexivity.
  - apply (bool_decide_unpack _). vm_compute. exact I.
  - reflexivity.
  - exists w'. split; [exact Hrun|].
    vm_compute in Hrun. injection Hrun as <-. by vm_compute.
Defined.

(** ** Reconciliation: [updateConns] *)

Lemma findOld_run (olds : list addr) (d : addr) (w : World) :
  valid (heap w) olds = true → is_Some (heap w !! d) →
  findOld olds d w = Ok (find_old (heap w) olds d) w.
Proof.
  intros Hv [kd Hkd]. induction olds as [|o olds IH]; [done|].
  simpl in Hv. apply andb_prop in Hv as [Ho Hv].
  apply bool_decide_eq_true in Ho as [ko Hko].
  cbn [findOld find_old]. unfold sameNode. rewrite Hko, Hkd.
  rewrite run_bind, (NodeID_ok _ _ ko), run_bind, (NodeID_ok _ _ kd) by done.
  rewrite run_bind.
  destruct (bool_decide (nodeID ko = nodeID kd)).
  - rewrite run_bind, (URL_ok _ _ ko), run_bind, (URL_ok _ _ kd) by done.
    cbn [mret M_ret andb].
    destruct (bool_decide (url ko = url kd)); [done | by apply IH].
  - cbn [mret M_ret andb]. by apply IH.
Qed.

Lemma find_old_Some h olds d o :
  find_old h olds d = Some o → o ∈ olds ∧ sameNode h o d = true.
Proof.
  induction olds as [|x olds IH]; [done|]. cbn [find_old].
  destruct (sameNode h x d) eqn:Hx.
  - intros [= <-]. split; [left | done].
  - intros H. destruct (IH H) as [? ?]. split; [by right | done].
Qed.

Lemma find_old_None h olds d :
  find_old h olds d = None ↔ ∀ o, o ∈ olds → sameNode h o d = false.
Proof.
  induction olds as [|x olds IH]; cbn [find_old].
  - split; [by intros _ o ?%elem_of_nil | done].
  - destruct (sameNode h x d) eqn:Hx.
    + split; [done|]. intros H. rewrite H in Hx; [done | left].
    + rewrite IH. split.
      * intros H o [->|Ho]%elem_of_cons; [done | by apply H].
      * intros H o Ho. apply H. by right.
Qed.

(** The outer loop appends, for each discovered connection, the old
    connection it matches or the discovered one itself. *)
Lemma updateConns_loop_run c (olds discovered : list addr) : ∀ acc w,
  valid (heap w) olds = true → valid (heap w) discovered = true →
  ∃ w', updateConns_loop c olds discovered acc w
        = Ok (acc ++ ((λ d, default d (find_old (heap w) olds d)) <$> discovered)) w'
        ∧ quiet w w'.
Proof.
  induction discovered as [|d discovered IH]; intros acc w Hvo Hvd.
  - exists w. cbn. rewrite app_nil_r. split; [done | apply quiet_refl].
  - simpl in Hvd. apply andb_prop in Hvd as [Hd Hvd].
    apply bool_decide_eq_true in Hd. pose proof Hd as [kd Hkd].
    cbn [updateConns_loop]. rewrite run_bind, findOld_run by done.
    destruct (find_old (heap w) olds d) as [o|] eqn:Hf.
    + destruct (IH (acc ++ [o]) w Hvo Hvd) as (w' & Hrun & Hq).
      exists w'. split; [|done]. rewrite Hrun. cbn. by rewrite Hf, <- app_assoc.
    + rewrite run_bind, (URL_ok _ _ kd), run_bind, infof_run by done.
      set (w1 := if infolog c then emit (EvInfof (LogJoined (url kd))) w else w).
      assert (Hq1 : quiet w w1).
      { subst w1. destruct (infolog c); [by apply quiet_emit | apply quiet_refl]. }
      assert (Hh1 : heap w1 = heap w) by (by destruct Hq1 as (_ & _ & ? & _)).
      destruct (IH (acc ++ [d]) w1) as (w' & Hrun & Hq); [by rewrite Hh1..|].
      exists w'. split; [|by eapply quiet_trans].
      rewrite Hrun, Hh1. cbn. by rewrite Hf, <- app_assoc.
Qed.

Lemma sameNode_key h o d :
  sameNode h o d = true ↔ key h o = key h d ∧ is_Some (h !! o).
Proof.
  unfold sameNode, key.
  destruct (h !! o) as [ko|], (h !! d) as [kd|]; cbn.
  - rewrite andb_true_iff, !bool_decide_eq_true. split.
    + intros [-> ->]. eauto.
    + intros [[= -> ->] _]. done.
  - split; [done | by intros [? _]].
  - split; [done | by intros [_ [? ?]]].
  - split; [done | by intros [_ [? ?]]].
Qed.

(** On a pool whose identities are pairwise distinct, looking for the
    identity of a pool entry finds that entry. *)
Lemma find_old_self h (olds : list addr) :
  NoDup (key h <$> olds) → valid h olds = true →
  ∀ o d, o ∈ olds → key h d = key h o → find_old h olds d = Some o.
Proof.
  induction olds as [|x olds IH]; intros Hnd Hv o d Ho Hk.
  - by apply elem_of_nil in Ho.
  - cbn in Hnd. apply NoDup_cons in Hnd as [Hx Hnd].
    simpl in Hv. apply andb_prop in Hv as [Hvx Hv]. apply bool_decide_eq_true in Hvx.
    cbn [find_old]. apply elem_of_cons in Ho as [->|Ho].
    + assert (H : sameNode h x d = true) by (by apply sameNode_key).
      by rewrite H.
    + destruct (sameNode h x d) eqn:Hs.
      * exfalso. apply sameNode_key in Hs as [Hs _]. apply Hx.
        rewrite Hs, Hk. by apply list_elem_of_fmap_2.
      * by apply IH.
Qed.

(** On a pool whose identities are pairwise distinct, reconciling with
    connections that carry the same identities gives back the pool, in the
    order of the discovery. *)
Lemma reconcile_same_identities h (olds discovered : list addr) :
  NoDup (key h <$> olds) → valid h olds = true →
  ∃ G : option (string * string) → addr,
    (∀ o, o ∈ olds → G (key h o) = o)
    ∧ (key h <$> discovered ⊆ key h <$> olds →
       (λ d, default d (find_old h olds d)) <$> discovered = G <$> (key h <$> discovered)).
Proof.
  intros Hnd Hv.
  set (G := λ kk : option (string * string),
         default 0%nat (snd <$> list_find (λ o, key h o = kk) olds)).
  assert (HG : ∀ o, o ∈ olds → G (key h o) = o).
  { intros o Ho. subst G. cbn beta.
    destruct (list_find_elem_of (λ x, key h x = key h o) olds o Ho eq_refl) as [[i x] Hf].
    rewrite Hf. cbn. apply list_find_Some in Hf as (Hx & Hk & _).
    apply list_elem_of_lookup_2 in Hx.
    pose proof (find_old_self h olds Hnd Hv x x Hx eq_refl) as H1.
    pose proof (find_old_self h olds Hnd Hv o x Ho Hk) as H2.
    congruence. }
  exists G. split; [exact HG|].
  intros Hsub. rewrite <- list_fmap_compose.
  apply list_fmap_ext. intros i d Hd. cbn.
  assert (Hkd : key h d ∈ key h <$> olds).
  { apply Hsub. apply list_elem_of_fmap_2. by eapply list_elem_of_lookup_2. }
  apply list_elem_of_fmap in Hkd as (o & Hk & Ho).
  rewrite (find_old_self h olds Hnd Hv o d Ho Hk). cbn.
  by rewrite Hk, HG.
Qed.

(** C7. [updateConns] leaves every connection object as it is, so that
    liveness and failure history stay with the object; resets the cursor;
    and makes the pool the list that has, for each discovered endpoint in
    turn, the first existing entry with the same identifier and URL when
    there is one, and the discovered entry itself when there is none. So an
    existing entry that no discovered endpoint matches is dropped; when every
    discovered endpoint matches an existing entry the new pool consists of
    existing objects with their state; and reconciling a pool whose entries
    have pairwise distinct identities with the same identities gives the
    same entries, in the same order when the discovery has that order. *)
Theorem updateConns_keeps_matching_entries (c : Client) (w : World) (discovered : list addr) :
  valid (heap w) (conns w) = true → valid (heap w) discovered = true →
  ∃ w',
    updateConns c discovered w = Ok tt w'
    ∧ heap w' = heap w ∧ cindex w' = -1
    ∧ (∃ evs, trace w' = trace w ++ evs ∧ forallb is_log evs = true)
    ∧ length (conns w') = length discovered
    ∧ (Z.of_nat (length discovered) < 2 ^ 63 → cursor_ok w' = true)
    ∧ (∀ i d, discovered !! i = Some d →
         (∃ o, conns w' !! i = Some o ∧ o ∈ conns w ∧ sameNode (heap w) o d = true)
         ∨ (conns w' !! i = Some d ∧ ∀ o, o ∈ conns w → sameNode (heap w) o d = false))
    ∧ (∀ o, o ∈ conns w → (∀ d, d ∈ discovered → sameNode (heap w) o d = false) →
         o ∉ conns w')
    ∧ ((∀ d, d ∈ discovered → ∃ o, o ∈ conns w ∧ sameNode (heap w) o d = true) →
         ∀ r, r ∈ conns w' → r ∈ conns w ∧ heap w' !! r = heap w !! r)
    ∧ (NoDup (key (heap w) <$> conns w) →
         (key (heap w) <$> discovered ≡ₚ key (heap w) <$> conns w → conns w' ≡ₚ conns w)
         ∧ (key (heap w) <$> discovered = key (heap w) <$> conns w → conns w' = conns w)).
Proof.
  intros Hvo Hvd.
  destruct (updateConns_loop_run c (conns w) discovered [] w Hvo Hvd) as (w1 & Hrun & Hq).
  destruct Hq as (Hcs & Hci & Hh & _ & _ & _ & evs & Ht & Hl).
  set (new := (λ d, default d (find_old (heap w) (conns w) d)) <$> discovered) in *.
  exists (set_cindex (-1) (set_conns new w1)).
  split. { unfold updateConns. rewrite run_bind. cbn [gets]. by rewrite run_bind, Hrun. }
  cbn [heap cindex trace conns set_cindex set_conns].
  assert (Hnew : ∀ i d, discovered !! i = Some d →
    new !! i = Some (default d (find_old (heap w) (conns w) d))).
  { intros i d Hd. subst new. by rewrite list_lookup_fmap, Hd. }
  split; [done|]. split; [done|]. split; [by exists evs|].
  split; [by subst new; rewrite length_fmap|].
  split.
  { intros Hlen. apply cursor_ok_intro; cbn [conns cindex set_cindex set_conns];
      subst new; rewrite length_fmap; lia. }
  split; [|split; [|split]].
  - intros i d Hd. rewrite (Hnew i d Hd).
    destruct (find_old (heap w) (conns w) d) as [o|] eqn:Hf.
    + left. exists o. apply find_old_Some in Hf as [? ?]. done.
    + right. split; [done|]. by apply find_old_None.
  - intros o Ho Hno Hin. subst new.
    apply list_elem_of_fmap in Hin as (d & Hd & Hdin).
    destruct (find_old (heap w) (conns w) d) as [o'|] eqn:Hf; cbn in Hd; subst o.
    + apply find_old_Some in Hf as [_ Hs]. rewrite (Hno d Hdin) in Hs. done.
    + pose proof (Hno d Hdin) as Hs. apply find_old_None with (o := d) in Hf; [|done].
      assert (Hself : sameNode (heap w) d d = true).
      { apply sameNode_key. split; [done|]. by eapply valid_lookup. }
      congruence.
  - intros Hall r Hr. subst new.
    apply list_elem_of_fmap in Hr as (d & -> & Hdin).
    destruct (Hall d Hdin) as (o & Ho & Hs).
    destruct (find_old (heap w) (conns w) d) as [o'|] eqn:Hf; cbn.
    + apply find_old_Some in Hf as [? _]. by rewrite Hh.
    + apply find_old_None with (o := o) in Hf; [congruence | done].
  - intros Hnd.
    destruct (reconcile_same_identities (heap w) (conns w) discovered Hnd Hvo)
      as (G & HG & Heq).
    assert (Hid : G <$> (key (heap w) <$> conns w) = conns w).
    { rewrite <- list_fmap_compose. rewrite <- (list_fmap_id (conns w)) at 2.
      apply list_fmap_ext. intros i o Ho. cbn. apply HG.
      by eapply list_elem_of_lookup_2. }
    split.
    + intros Hperm. subst new. rewrite Heq.
      * by rewrite Hperm, Hid.
      * intros kk. by rewrite Hperm.
    + intros Hsame. subst new. rewrite Heq.
      * by rewrite Hsame, Hid.
      * by rewrite Hsame.
Qed.

Lemma updateConns_keeps_matching_entries_witness :
  ∃ w', updateConns (simpleClient noRetries None) [10; 12; 13]%nat poolBeforeSniff = Ok tt w'
        ∧ heap w' = heap poolBeforeSniff ∧ cindex w' = -1
        ∧ conns w' = [epA; epC; 13%nat]
        ∧ deadAt (heap w') epA = true.
Proof.
  destruct (updateConns_keeps_matching_entries (simpleClient noRetries None) poolBeforeSniff
              [10; 12; 13]%nat eq_refl eq_refl) as (w' & Hrun & Hh & Hci & _).
  exists w'. split; [exact Hrun|]. split; [exact Hh|]. split; [exact Hci|].
  vm_compute in Hrun. injection Hrun as <-. split; reflexivity.
Defined.

(** ** Startup health check *)

(** One round over the seed URLs. *)
Lemma startup_urls_spec E c : doer_total E → ∀ us lastErr w,
  (lastErr = None ∨ recorded E lastErr) →
  ∃ r w',
    startup_urls E c us lastErr w = Ok r w' ∧ clock w ≤ clock w'
    ∧ match r with
      | inl None =>
          ∃ k req res, env_Do E k req = (Some res, None) ∧ 200 ≤ StatusCode res < 300
      | inl (Some e) => ∃ u, u ∈ us ∧ env_NewRequest E "HEAD" u = Some e
      | inr l => l = None ∨ recorded E l
      end.
Proof.
  intros Htot us. induction us as [|u us IH]; intros lastErr w Hl.
  - exists (inr lastErr), w. split; [done|]. split; [lia | done].
  - cbn [startup_urls].
    destruct (env_NewRequest E "HEAD" u) as [err|] eqn:Hn.
    { exists (inl (Some err)), w. split; [done|]. split; [lia|].
      exists u. split; [left | done]. }
    set (req := add_headers (headers c) _).
    rewrite run_bind. cbn [modify]. rewrite run_bind, Do_run.
    set (w1 := set_clock _ _).
    assert (Hclock : clock w ≤ clock w1) by (subst w1; cbn; lia).
    destruct (env_Do E (ndo (emit (EvProbe None req) w)) req) as [res err] eqn:Hdo.
    destruct err as [e|].
    + destruct (IH (Some e) w1) as (r & w' & Hrun & Hc & Hr).
      { right. left. eauto 10. }
      exists r, w'. split; [done|]. split; [lia|].
      destruct r as [[e'|]|l]; try done.
      destruct Hr as (u' & Hu' & He'). exists u'. split; [by right | done].
    + destruct res as [r|]; [|by destruct (Htot _ _ Hdo)].
      destruct (bool_decide (200 ≤ StatusCode r) && bool_decide (StatusCode r < 300)) eqn:Hs.
      * apply andb_prop in Hs as [H1 H2]. apply bool_decide_eq_true in H1, H2.
        exists (inl None), w1. split; [done|]. split; [lia|]. eauto 10.
      * clear Hs. case_bool_decide as H401.
        -- destruct (IH (Some (ElasticError (StatusCode r) None)) w1) as (r' & w' & Hrun & Hc & Hr).
           { right. right. rewrite H401. eauto 10. }
           exists r', w'. split; [done|]. split; [lia|].
           destruct r' as [[e'|]|l]; try done.
           destruct Hr as (u' & Hu' & He'). exists u'. split; [by right | done].
        -- destruct (IH lastErr w1 Hl) as (r' & w' & Hrun & Hc & Hr).
           exists r', w'. split; [done|]. split; [lia|].
           destruct r' as [[e'|]|l]; try done.
           destruct Hr as (u' & Hu' & He'). exists u'. split; [by right | done].
Qed.

(** The loop ends when it has fuel for the rounds of the time left. *)
Lemma startup_loop_spec E c : doer_total E → ∀ fuel start timeout lastErr w,
  (1 ≤ fuel)%nat → timeout - (clock w - start) < Z.of_nat fuel * second →
  (lastErr = None ∨ recorded E lastErr) →
  ∃ r w', startupHealthcheck_loop E c fuel start timeout lastErr w = Ok r w'
          ∧ startup_outcome E c start timeout r w'.
Proof.
  intros Htot fuel. induction fuel as [|fuel IH]; intros start timeout lastErr w Hf Ht Hl.
  { lia. }
  cbn [startupHealthcheck_loop].
  destruct (startup_urls_spec E c Htot (urls c) lastErr w Hl) as (r & w1 & Hrun & Hc & Hr).
  rewrite run_bind, Hrun.
  destruct r as [[e|]|l].
  - exists (Some e), w1. split; [done|]. right. left.
    destruct Hr as (u & Hu & He). eauto.
  - exists None, w1. split; [done|]. left. done.
  - rewrite run_bind. cbn [gets].
    destruct (env_ctxErr E (clock w1 + second)) as [e|] eqn:Hctx.
    + exists (startup_result (Some e)), w1. split; [done|]. right. right. left. eauto.
    + rewrite run_bind. cbn [modify]. rewrite run_bind. cbn [gets clock set_clock].
      case_bool_decide as Hdone.
      * eexists _, _. split; [reflexivity|]. right. right. right.
        exists l. cbn [clock set_clock]. done.
      * apply IH; [| |done].
        -- assert (0 < second) by done. cbn [clock set_clock] in *. nia.
        -- cbn [clock set_clock]. unfold second in *. lia.
Qed.

(** *** Rounds and what they record *)

Lemma latest_nil init : latest init [] = init.
Proof. reflexivity. Qed.

Lemma latest_cons init a A :
  latest init (a :: A)
  = latest (match recorded_by a with Some e => Some e | None => init end) A.
Proof.
  unfold latest. cbn [omap list_omap]. destruct (recorded_by a) as [e|]; [|done].
  cbn. destruct (omap recorded_by A) as [|x l] eqn:Ho; [done|].
  rewrite last_cons_cons. destruct (last (x :: l)) eqn:Hl; [done|].
  by apply last_None in Hl.
Qed.

Lemma latest_app init A B : latest init (A ++ B) = latest (latest init A) B.
Proof.
  revert init. induction A as [|a A IH]; intros init; [done|].
  cbn [app]. by rewrite !latest_cons, IH.
Qed.

Lemma latest_snoc init A a :
  latest init (A ++ [a])
  = match recorded_by a with Some e => Some e | None => latest init A end.
Proof. by rewrite latest_app, latest_cons, latest_nil. Qed.

Lemma round_answers_cons E c u us k :
  round_answers E c (u :: us) k
  = env_Do E k (startupRequest c u) :: round_answers E c us (S k).
Proof.
  unfold round_answers. cbn [imap]. rewrite Nat.add_0_r. f_equal.
  apply imap_ext. intros i x _. cbn. do 2 f_equal. lia.
Qed.

Lemma latency_S E k m :
  latency E k (S m) = Z.max 0 (env_took E k) + latency E (S k) m.
Proof.
  unfold latency. cbn [seq fmap list_fmap foldr]. rewrite Nat.add_0_r. f_equal.
  rewrite <- seq_shift, <- list_fmap_compose. f_equal.
  apply list_fmap_ext. intros _ i _. cbn. do 2 f_equal. lia.
Qed.

Lemma latency_nonneg E k m : 0 ≤ latency E k m.
Proof.
  revert k. induction m as [|m IH]; intros k; [done|].
  rewrite latency_S. specialize (IH (S k)). lia.
Qed.

Lemma round_result_cons lastErr a A :
  round_result lastErr (a :: A)
  = if is_success a then inl None
    else round_result (match recorded_by a with Some e => Some e | None => lastErr end) A.
Proof.
  unfold round_result. cbn [list_find]. destruct (is_success a) eqn:Ha.
  - by rewrite decide_True.
  - rewrite decide_False by done. rewrite latest_cons.
    by destruct (list_find _ A) as [[i x]|].
Qed.

Lemma round_sends_cons a A :
  round_sends (a :: A) = if is_success a then 1%nat else S (round_sends A).
Proof.
  unfold round_sends. cbn [list_find length]. destruct (is_success a) eqn:Ha.
  - by rewrite decide_True.
  - rewrite decide_False by done.
    by destruct (list_find _ A) as [[i x]|].
Qed.

(** One round over URLs whose requests can be built, by the answers to its
    probes. *)
Lemma startup_round E c : doer_total E → ∀ us lastErr w,
  (∀ u, u ∈ us → env_NewRequest E "HEAD" u = None) →
  ∃ w', startup_urls E c us lastErr w
        = Ok (round_result lastErr (round_answers E c us (ndo w))) w'
      ∧ ndo w' = (ndo w + round_sends (round_answers E c us (ndo w)))%nat
      ∧ clock w' = clock w + latency E (ndo w) (round_sends (round_answers E c us (ndo w))).
Proof.
  intros Htot us. induction us as [|u us IH]; intros lastErr w Hnew.
  - exists w. cbn. split; [done|]. split; lia.
  - rewrite round_answers_cons, round_result_cons, round_sends_cons.
    cbn [startup_urls]. rewrite (Hnew u) by left.
    fold (startupRequest c u).
    rewrite run_bind. cbn [modify]. rewrite run_bind, Do_run. cbn [ndo clock emit].
    set (w1 := set_clock _ _).
    assert (Hrest : ∀ l, ∃ w',
      startup_urls E c us l w1
      = Ok (round_result l (round_answers E c us (S (ndo w)))) w'
      ∧ ndo w' = (ndo w + S (round_sends (round_answers E c us (S (ndo w)))))%nat
      ∧ clock w' = clock w + latency E (ndo w)
                               (S (round_sends (round_answers E c us (S (ndo w)))))).
    { intros l. destruct (IH l w1) as (w' & Hrun & Hn & Hc).
      { intros v Hv. apply Hnew. by right. }
      exists w'. split; [exact Hrun|]. rewrite Hn, Hc, latency_S.
      subst w1. cbn [ndo clock set_clock set_ndo emit]. split; lia. }
    destruct (env_Do E (ndo w) (startupRequest c u)) as [res [e|]] eqn:Hdo;
      cbn [is_success recorded_by].
    + destruct res; apply Hrest.
    + destruct res as [r|]; [|by destruct (Htot _ _ Hdo)].
      destruct (bool_decide (200 ≤ StatusCode r) && bool_decide (StatusCode r < 300)).
      * exists w1. split; [done|]. rewrite latency_S. unfold latency. subst w1.
        cbn [ndo clock set_clock set_ndo emit seq fmap list_fmap foldr]. split; lia.
      * case_bool_decide as H401; [rewrite H401|]; apply Hrest.
Qed.

Lemma round_without_success E c us k :
  (∀ i req, is_success (env_Do E i req) = false) →
  list_find (λ a, is_success a = true) (round_answers E c us k) = None.
Proof.
  intros Hno. apply list_find_None, Forall_forall. intros a Ha.
  unfold round_answers in Ha. apply list_elem_of_lookup in Ha as (i & Hi).
  rewrite list_lookup_imap in Hi. destruct (us !! i); [|done].
  cbn in Hi. injection Hi as <-. by rewrite Hno.
Qed.

Lemma run_answers_S E c k rounds :
  run_answers E c k (S rounds)
  = round_answers E c (urls c) k ++ run_answers E c (k + length (urls c)) rounds.
Proof.
  unfold run_answers. cbn [seq fmap list_fmap mjoin list_join].
  rewrite Nat.add_0_r. f_equal.
  rewrite <- seq_shift, <- list_fmap_compose. f_equal.
  apply list_fmap_ext. intros _ r _. cbn. f_equal. lia.
Qed.

(** The whole loop when no probe is answered with success and the calling
    context is never done: it ends by the timeout, after as many rounds as
    that takes, with the error recorded last by all of its probes. *)
Lemma startup_loop_timeout E c :
  doer_total E → (∀ u, u ∈ urls c → env_NewRequest E "HEAD" u = None) →
  (∀ t, env_ctxErr E t = None) → (∀ i req, is_success (env_Do E i req) = false) →
  ∀ fuel start timeout lastErr w,
    (1 ≤ fuel)%nat → timeout - (clock w - start) < Z.of_nat fuel * second →
    ∃ rounds w',
      (1 ≤ rounds ≤ fuel)%nat
      ∧ startupHealthcheck_loop E c fuel start timeout lastErr w
        = Ok (startup_result (latest lastErr (run_answers E c (ndo w) rounds))) w'
      ∧ ndo w' = (ndo w + rounds * length (urls c))%nat
      ∧ timeout < clock w' - start.
Proof.
  intros Htot Hnew Hctx Hno fuel.
  induction fuel as [|fuel IH]; intros start timeout lastErr w Hf Ht; [lia|].
  cbn [startupHealthcheck_loop].
  destruct (startup_round E c Htot (urls c) lastErr w Hnew) as (w1 & Hrun & Hn1 & Hc1).
  pose proof (round_without_success E c (urls c) (ndo w) Hno) as Hfind.
  unfold round_result, round_sends in Hrun, Hn1, Hc1. rewrite Hfind in Hrun, Hn1, Hc1.
  assert (Hlen : length (round_answers E c (urls c) (ndo w)) = length (urls c)).
  { unfold round_answers. apply length_imap. }
  rewrite Hlen in Hn1.
  assert (Hclock : clock w ≤ clock w1).
  { rewrite Hc1. pose proof (latency_nonneg E (ndo w)
      (length (round_answers E c (urls c) (ndo w)))). lia. }
  rewrite run_bind, Hrun, run_bind. cbn [gets].
  rewrite Hctx, run_bind. cbn [modify]. rewrite run_bind. cbn [gets clock set_clock].
  case_bool_decide as Hdone.
  - exists 1%nat. eexists. split; [lia|]. split.
    { rewrite run_answers_S. unfold run_answers at 1. cbn [seq fmap list_fmap mjoin list_join].
      rewrite app_nil_r. reflexivity. }
    cbn [ndo clock set_clock]. split; lia.
  - destruct (IH start timeout (latest lastErr (round_answers E c (urls c) (ndo w)))
                (set_clock (clock w1 + second) w1))
      as (rounds & w' & Hr & Hloop & Hn & Hto).
    + assert (0 < second) by done. cbn [clock set_clock] in *. nia.
    + cbn [clock set_clock]. unfold second in *. lia.
    + exists (S rounds), w'. split; [lia|]. split.
      { rewrite Hloop. cbn [ndo set_clock]. rewrite Hn1, run_answers_S, latest_app.
        reflexivity. }
      split; [|done]. rewrite Hn. cbn [ndo set_clock]. lia.
Qed.

Lemma startup_result_verbatim e :
  IsContextErr (Some e) || IsUnauthorized (Some e) = true → startup_result (Some e) = Some e.
Proof. intros H. unfold startup_result. by rewrite H. Qed.

Lemma startup_result_wrapped e :
  IsContextErr (Some e) || IsUnauthorized (Some e) = false →
  startup_result (Some e) = Some (Wrapf ErrNoClient "health check timeout: %v" e).
Proof. intros H. unfold startup_result. by rewrite H. Qed.

(** C8, as the code has it. The startup health check probes all seed
    URLs, round after round with one second between rounds, until a URL
    answers with a 2xx status (it returns nil), the timeout has elapsed or
    the calling context is done; given fuel for the rounds of the timeout it
    ends in one of these ways, or with the error of a request that could not
    be built. The calling context being done ends the loop, and its error is
    what is returned. The error of a send and the 401 of an answer are only
    recorded, the latest replacing the earlier, and the loop goes on. When
    the loop ends, a recorded error of the context kind or a 401 error is
    returned as it is; any other recorded error, and no recorded error, gives
    an error that wraps [ErrNoClient].

    In detail: a round whose probes can be built stops at the first answer
    with a 2xx status, and the check then returns nil; a round without such
    an answer probes every URL once and hands on the error recorded last by
    its answers, or the error it was given when none of them records one.
    When no probe is ever answered with a 2xx status and the calling context
    is never done, the check ends after the rounds that the timeout takes
    with the result for the error recorded last by all the probes of the
    run, in the order in which they were sent. *)
Theorem startupHealthcheck_outcomes (E : Env) (c : Client) (fuel : nat) (timeout : Z)
  (w : World) :
  doer_total E → (1 ≤ fuel)%nat → timeout < Z.of_nat fuel * second →
  (∃ r w', startupHealthcheck E c fuel timeout w = Ok r w'
           ∧ startup_outcome E c (clock w) timeout r w')
  ∧ (∀ e, IsContextErr (Some e) || IsUnauthorized (Some e) = true →
          startup_result (Some e) = Some e)
  ∧ (∀ e, IsContextErr (Some e) || IsUnauthorized (Some e) = false →
          ∃ e', startup_result (Some e) = Some e' ∧ Cause e' = ErrNoClient)
  ∧ (∃ e', startup_result None = Some e' ∧ Cause e' = ErrNoClient)
  ∧ (∀ fuel' start lastErr w0 l w1 e,
        startup_urls E c (urls c) lastErr w0 = Ok (inr l) w1 →
        env_ctxErr E (clock w1 + second) = Some e →
        startupHealthcheck_loop E c (S fuel') start timeout lastErr w0
        = Ok (startup_result (Some e)) w1)
  ∧ (∀ fuel' start lastErr w0 l w1,
        startup_urls E c (urls c) lastErr w0 = Ok (inr l) w1 →
        env_ctxErr E (clock w1 + second) = None →
        startupHealthcheck_loop E c (S fuel') start timeout lastErr w0
        = if bool_decide (timeout < clock w1 + second - start)
          then Ok (startup_result l) (set_clock (clock w1 + second) w1)
          else startupHealthcheck_loop E c fuel' start timeout l
                 (set_clock (clock w1 + second) w1))
  ∧ (∀ fuel' start lastErr w0 ret w1,
        startup_urls E c (urls c) lastErr w0 = Ok (inl ret) w1 →
        startupHealthcheck_loop E c (S fuel') start timeout lastErr w0 = Ok ret w1)
  ∧ (∀ us lastErr w0,
        (∀ u, u ∈ us → env_NewRequest E "HEAD" u = None) →
        let A := round_answers E c us (ndo w0) in
        ∃ w1, startup_urls E c us lastErr w0 = Ok (round_result lastErr A) w1
              ∧ ndo w1 = (ndo w0 + round_sends A)%nat
              ∧ clock w1 = clock w0 + latency E (ndo w0) (round_sends A))
  ∧ (∀ lastErr (A : list Answer),
        (∀ i a, A !! i = Some a → is_success a = true →
           (∀ j b, (j < i)%nat → A !! j = Some b → is_success b = false) →
           round_result lastErr A = inl None ∧ round_sends A = S i)
        ∧ (Forall (λ a, is_success a = false) A →
           round_result lastErr A = inr (latest lastErr A) ∧ round_sends A = length A))
  ∧ (∀ init (A : list Answer) a,
        latest init [] = init
        ∧ latest init (A ++ [a])
          = match recorded_by a with Some e => Some e | None => latest init A end)
  ∧ ((∀ u, u ∈ urls c → env_NewRequest E "HEAD" u = None) →
     (∀ t, env_ctxErr E t = None) →
     (∀ i req, is_success (env_Do E i req) = false) →
     ∃ rounds w',
       (1 ≤ rounds ≤ fuel)%nat
       ∧ startupHealthcheck E c fuel timeout w
         = Ok (startup_result (latest None (run_answers E c (ndo w) rounds))) w'
       ∧ ndo w' = (ndo w + rounds * length (urls c))%nat
       ∧ timeout < clock w' - clock w).
Proof.
  intros Htot Hf Ht.
  split; [|split; [|split; [|split; [|split; [|split; [|split; [|split; [|split; [|split]]]]]]]]].
  - unfold startupHealthcheck. rewrite run_bind. cbn [gets].
    apply startup_loop_spec; [done | done | lia | by left].
  - apply startup_result_verbatim.
  - intros e He. rewrite startup_result_wrapped by done. eauto.
  - eexists. split; reflexivity.
  - intros fuel' start lastErr w0 l w1 e Hrun Hctx.
    cbn [startupHealthcheck_loop]. rewrite run_bind, Hrun, run_bind. cbn [gets].
    by rewrite Hctx.
  - intros fuel' start lastErr w0 l w1 Hrun Hctx.
    cbn [startupHealthcheck_loop]. rewrite run_bind, Hrun, run_bind. cbn [gets].
    rewrite Hctx, run_bind. cbn [modify]. rewrite run_bind. cbn [gets clock set_clock].
    by case_bool_decide.
  - intros fuel' start lastErr w0 ret w1 Hrun.
    cbn [startupHealthcheck_loop]. by rewrite run_bind, Hrun.
  - intros us lastErr w0 Hnew. by apply startup_round.
  - intros lastErr A. split.
    + intros i a Hi Ha Hbefore.
      assert (Hfind : list_find (λ a, is_success a = true) A = Some (i, a)).
      { apply list_find_Some. split; [done|]. split; [done|].
        intros j b Hj Hlt. rewrite (Hbefore j b) by done. done. }
      unfold round_result, round_sends. by rewrite Hfind.
    + intros Hno.
      assert (Hfind : list_find (λ a, is_success a = true) A = None).
      { apply list_find_None. eapply Forall_impl; [exact Hno|].
        intros a Ha. cbn in Ha. by rewrite Ha. }
      unfold round_result, round_sends. by rewrite Hfind.
  - intros init A a. split; [apply latest_nil | apply latest_snoc].
  - intros Hnew Hctx Hno. unfold startupHealthcheck. rewrite run_bind. cbn [gets].
    destruct (startup_loop_timeout E c Htot Hnew Hctx Hno fuel (clock w) timeout None w)
      as (rounds & w' & Hr & Hrun & Hn & Hto); [done | lia |].
    exists rounds, w'. split; [done|]. split; [done|]. split; done.
Qed.

Lemma startupHealthcheck_outcomes_witness :
  (∃ r w', startupHealthcheck envUnauthorized (simpleClient noRetries None) 6
             (5 * second) startWorld = Ok r w'
           ∧ startup_outcome envUnauthorized (simpleClient noRetries None)
               (clock startWorld) (5 * second) r w')
  ∧ ∃ rounds w',
      startupHealthcheck envUnauthorized (simpleClient noRetries None) 6
        (5 * second) startWorld
      = Ok (startup_result
              (latest None (run_answers envUnauthorized (simpleClient noRetries None)
                              (ndo startWorld) rounds))) w'
      ∧ ndo w' = (ndo startWorld + rounds * 3)%nat.
Proof.
  destruct (startupHealthcheck_outcomes envUnauthorized (simpleClient noRetries None) 6
              (5 * second) startWorld) as (H & _ & _ & _ & _ & _ & _ & _ & _ & _ & Hrun).
  - intros k req. discriminate.
  - lia.
  - reflexivity.
  - split; [exact H|].
    destruct Hrun as (rounds & w' & _ & Hr & Hn & _); [reflexivity .. |].
    exists rounds, w'. split; [exact Hr | exact Hn].
Defined.

(** C8, as the specification states it, fails: a 401 answer is not fatal
    at once, nor is it always what the caller gets. With three seed URLs, a
    timeout of five seconds and a first round answered 401 throughout, the
    loop goes on and returns nil when the second round is answered 200; and
    when a transport error follows the 401 answer and the timeout is zero,
    the result wraps [ErrNoClient]. *)
Lemma unauthorized_not_fatal_counterexample :
  env_Do envUnauthorizedThenOk 0 anyRequest = (Some (mkHttpResponse 401 [] BodyNil), None)
  ∧ (∃ w', startupHealthcheck envUnauthorizedThenOk (simpleClient noRetries None) 6
             (5 * second) startWorld = Ok None w'
           ∧ ndo w' = 4%nat ∧ clock w' = second)
  ∧ env_Do envUnauthorizedThenRefused 0 anyRequest
    = (Some (mkHttpResponse 401 [] BodyNil), None)
  ∧ (∃ w', startupHealthcheck envUnauthorizedThenRefused (simpleClient noRetries None) 6
             0 startWorld
           = Ok (Some (Wrapf ErrNoClient "health check timeout: %v" connectionRefused)) w'
           ∧ ndo w' = 3%nat).
Proof.
  split; [reflexivity|]. split.
  - eexists. split; [vm_compute; reflexivity|]. split; reflexivity.
  - split; [reflexivity|].
    eexists. split; [vm_compute; reflexivity|]. reflexivity.
Qed.

(* ------------------------------------------------------------------ *)
(** * extractHostname: normalising a published address *)

Lemma Split_nonempty s sep : Split s sep ≠ [].
Proof.
  destruct s as [|ch s]; cbn; [done|].
  case_bool_decide; [done|]. by destruct (Split s sep).
Qed.

Lemma append_empty (y : string) : "" +:+ y = y.
Proof. reflexivity. Qed.

Lemma append_String ch (x y : string) : String ch x +:+ y = String ch (x +:+ y).
Proof. reflexivity. Qed.

Lemma Split_append x p sep :
  Split (x +:+ String sep p) sep = Split x sep ++ Split p sep.
Proof.
  induction x as [|ch x IH].
  - rewrite append_empty. cbn. by rewrite bool_decide_true.
  - rewrite append_String. cbn [Split]. rewrite IH. case_bool_decide; [done|].
    destruct (Split x sep) eqn:E; [by apply Split_nonempty in E | done].
Qed.

Lemma Split_absent s sep : occurs sep s = false → Split s sep = [s].
Proof.
  induction s as [|ch s IH]; cbn; [done|].
  intros [H1 H2]%orb_false_elim. apply bool_decide_eq_false in H1.
  rewrite bool_decide_false by done. by rewrite IH.
Qed.

Lemma occurs_append ch (x y : string) : occurs ch (x +:+ y) = occurs ch x || occurs ch y.
Proof.
  induction x as [|c x IH]; [done|].
  rewrite append_String. cbn [occurs]. rewrite IH. by rewrite orb_assoc.
Qed.

Lemma last_lookup_app {A} (l1 l2 : list A) x :
  l2 !! (length l2 - 1)%nat = Some x → (l1 ++ l2) !! (length (l1 ++ l2) - 1)%nat = Some x.
Proof.
  intros H. pose proof (lookup_lt_Some _ _ _ H) as Hlt.
  rewrite length_app, lookup_app_r by lia. rewrite <- H. f_equal. lia.
Qed.

(** X1. An address of the form host:port, where neither part contains a
    slash or a colon, is normalised to scheme://host:port. *)
Theorem extractHostname_host_port (scheme host port : string) :
  occurs slash host = false → occurs colon host = false →
  occurs slash port = false → occurs colon port = false →
  extractHostname scheme (host +:+ ":" +:+ port)
  = Some (scheme +:+ "://" +:+ host +:+ ":" +:+ port).
Proof.
  intros Hsh Hch Hsp Hcp. unfold extractHostname.
  change (":" +:+ port) with (String colon port).
  rewrite (Split_absent (host +:+ String colon port) slash).
  2:{ rewrite occurs_append. cbn [occurs]. rewrite Hsh, Hsp. done. }
  rewrite Split_append, (Split_absent host colon), (Split_absent port colon) by done.
  cbn. rewrite bool_decide_false by lia.
  rewrite Split_append, (Split_absent host colon) by done. reflexivity.
Qed.

Lemma extractHostname_host_port_witness :
  extractHostname "http" "127.0.0.1:9200" = Some "http://127.0.0.1:9200".
Proof. apply (extractHostname_host_port "http" "127.0.0.1" "9200"); reflexivity. Defined.

Lemma append_assoc' (a b c : string) : (a +:+ b) +:+ c = a +:+ b +:+ c.
Proof. induction a as [|ch a IH]; [done|]. rewrite !append_String. by rewrite IH. Qed.

Lemma Split_last (x p : string) (sep : ascii) :
  occurs sep p = false →
  Split (x +:+ String sep p) sep
    !! (length (Split (x +:+ String sep p) sep) - 1)%nat = Some p.
Proof.
  intros Hp. rewrite Split_append. apply last_lookup_app. by rewrite Split_absent.
Qed.

(** X2. An address of the form host/ip:port keeps the part before the
    first slash as the host and the part after the last colon as the port:
    the result is scheme://host:port whatever the ip part looks like. *)
Theorem extractHostname_host_ip_port (scheme host ip port : string) :
  occurs slash host = false → occurs colon port = false →
  extractHostname scheme (host +:+ "/" +:+ ip +:+ ":" +:+ port)
  = Some (scheme +:+ "://" +:+ host +:+ ":" +:+ port).
Proof.
  intros Hsh Hcp. unfold extractHostname.
  change ("/" +:+ ip +:+ ":" +:+ port) with (String slash (ip +:+ String colon port)).
  rewrite (Split_append host _ slash), (Split_absent host slash) by done.
  destruct (Split (ip +:+ String colon port) slash) as [|x l] eqn:E;
    [by apply Split_nonempty in E|].
  cbn [app length]. rewrite bool_decide_true by lia. cbn [lookup list_lookup mbind option_bind].
  change (host +:+ String slash (ip +:+ String colon port))
    with (host +:+ String slash ip +:+ String colon port).
  rewrite <- (append_assoc' host), Split_last by done. reflexivity.
Qed.

Lemma extractHostname_host_ip_port_witness :
  extractHostname "https" "example.com/10.0.0.3:9200"
  = Some "https://example.com:9200".
Proof.
  apply (extractHostname_host_ip_port "https" "example.com" "10.0.0.3" "9200");
    reflexivity.
Defined.

(** X3. extractHostname never indexes out of range: every slice it indexes
    comes from Split, which returns at least one element, so a result is
    produced for every scheme and address. *)
Theorem extractHostname_total (scheme address : string) :
  is_Some (extractHostname scheme address).
Proof.
  unfold extractHostname.
  assert (Hne : ∀ s sep, ∃ x l, Split s sep = x :: l).
  { intros s sep. destruct (Split s sep) eqn:E; [by apply Split_nonempty in E|eauto]. }
  destruct (Hne address slash) as (x & l & ->).
  destruct (Hne address colon) as (y & k & ->).
  assert (is_Some ((y :: k) !! (length (y :: k) - 1)%nat)) as [p Hp].
  { apply lookup_lt_is_Some. cbn. lia. }
  rewrite Hp. case_bool_decide; cbn; [eauto|].
  destruct (Hne x colon) as (z & m & ->). cbn. eauto.
Qed.

(** X4. An address with neither slash nor colon is used both as the host
    and as the port: the result is scheme://address:address. *)
Theorem extractHostname_without_port (scheme address : string) :
  occurs slash address = false → occurs colon address = false →
  extractHostname scheme address
  = Some (scheme +:+ "://" +:+ address +:+ ":" +:+ address).
Proof.
  intros Hs Hc. unfold extractHostname.
  rewrite (Split_absent address slash), (Split_absent address colon) by done.
  cbn. rewrite bool_decide_false by lia. cbn.
  rewrite (Split_absent address colon) by done. reflexivity.
Qed.

Lemma extractHostname_without_port_witness :
  extractHostname "http" "localhost" = Some "http://localhost:localhost".
Proof. apply (extractHostname_without_port "http" "localhost"); reflexivity. Defined.


(* ------------------------------------------------------------------ *)
(** * The pool between calls: [next] and [mustActiveConn] *)

(** On a valid pool, no live connection in the visiting order means that
    every connection is dead. *)
Lemma live_cycle_nil w :
  valid (heap w) (conns w) = true → live_cycle w = [] → all_dead w = true.
Proof.
  intros Hv HL. unfold all_dead. apply forallb_forall. intros a Ha.
  apply list_elem_of_In in Ha.
  destruct (valid_lookup _ _ a Hv Ha) as [k Hk].
  unfold deadAt. rewrite Hk. destruct (dead k) eqn:Hd; [done|].
  assert (Hin : a ∈ live_cycle w).
  { unfold live_cycle. apply list_elem_of_filter. split.
    - unfold liveAt. by rewrite Hk, Hd.
    - unfold cycle. by apply elem_of_rotate. }
  rewrite HL in Hin. by apply elem_of_nil in Hin.
Qed.

Lemma all_dead_live_cycle w : all_dead w = true → live_cycle w = [].
Proof.
  intros Hd. unfold live_cycle. apply filter_none, Forall_forall. intros a Ha.
  unfold cycle in Ha. apply elem_of_rotate in Ha.
  unfold all_dead in Hd. rewrite forallb_forall in Hd.
  apply list_elem_of_In, Hd, deadAt_Some in Ha as (k & Hk & Hdk).
  unfold liveAt. by rewrite Hk, Hdk.
Qed.

(** [next] on a pool of dead connections. *)
Lemma next_dead_run (c : Client) (w : World) :
  all_dead w = true → cursor_ok w = true →
  ∃ w', next c w = Ok (None, Some errNoAvailableConnection) w'
    ∧ conns w' = conns w ∧ cursor_ok w' = true
    ∧ clock w' = clock w ∧ ndo w' = ndo w ∧ nprobe w' = nprobe w
    ∧ (∀ a, heap w' !! a =
            if negb (snifferEnabled c) && bool_decide (a ∈ conns w)
            then alive <$> heap w !! a else heap w !! a)
    ∧ trace w' = trace w
         ++ (if snifferEnabled c then []
             else (if errorlog c
                   then [EvErrorf (LogAllDead (Z.of_nat (length (conns w))))] else [])
                  ++ (EvMarkAsAlive <$> conns w)).
Proof.
  intros Hd Hc.
  destruct (scan_all_dead (length (conns w)) w Hd Hc) as (ci & Hrun & Hci); [lia|].
  pose proof (all_dead_valid _ Hd) as Hv.
  unfold next. rewrite run_bind. cbn [gets]. rewrite run_bind, Hrun.
  destruct (snifferEnabled c) eqn:Hs; cbn [negb andb].
  - eexists. split; [reflexivity|]. cbn. rewrite app_nil_r. by repeat split.
  - set (w0 := set_cindex ci w) in *.
    set (msg := LogAllDead (Z.of_nat (length (conns w)))).
    set (w1 := if errorlog c then emit (EvErrorf msg) w0 else w0).
    assert (Hw1 : conns w1 = conns w ∧ heap w1 = heap w ∧ cindex w1 = ci
      ∧ clock w1 = clock w ∧ ndo w1 = ndo w ∧ nprobe w1 = nprobe w
      ∧ trace w1 = trace w ++ (if errorlog c then [EvErrorf msg] else [])).
    { subst w1. destruct (errorlog c); cbn; rewrite ?app_nil_r; by repeat split. }
    destruct Hw1 as (Hc1 & Hh1 & Hi1 & Hk1 & Hn1 & Hp1 & Ht1).
    destruct (forM_MarkAsAlive (conns w) w1) as (h & Hm & Hh).
    { by rewrite Hh1. }
    rewrite run_bind, run_bind, errorf_run. fold w1.
    rewrite run_bind. cbn [gets]. rewrite Hc1, Hm.
    eexists. split; [reflexivity|]. cbn [conns heap clock ndo nprobe trace cindex].
    split; [done|]. split.
    { apply cursor_ok_inv in Hci as [? ?].
      change (conns w0) with (conns w) in *. change (cindex w0) with ci in *.
      apply cursor_ok_intro; cbn [conns cindex]; rewrite ?Hc1, ?Hi1; lia. }
    split; [done|]. split; [done|]. split; [done|]. split.
    + intros a. rewrite Hh, Hh1. done.
    + by rewrite Ht1, <- app_assoc.
Qed.

(** [mustActiveConn] reads the pool in order and stops at the first live
    connection. *)
Lemma mustActiveConn_loop_run (l : list addr) (w : World) :
  valid (heap w) l = true →
  mustActiveConn_loop l w
  = Ok (if existsb (liveAt (heap w)) l then None
        else Some (Wrap ErrNoClient "no active connection found")) w.
Proof.
  induction l as [|a l IH]; intros Hv; [done|].
  cbn [valid forallb] in Hv. apply andb_prop in Hv as [Ha Hv].
  apply bool_decide_eq_true in Ha as [k Hk].
  cbn [mustActiveConn_loop existsb]. rewrite run_bind, (IsDead_ok _ _ _ Hk).
  unfold liveAt at 1. rewrite Hk.
  destruct (dead k); cbn [negb orb]; [by apply IH | done].
Qed.

Lemma existsb_live_cycle w :
  existsb (liveAt (heap w)) (conns w) = true ↔ live_cycle w ≠ [].
Proof.
  rewrite existsb_exists. split.
  - intros (a & Ha & Hl) E.
    assert (Hin : a ∈ live_cycle w).
    { unfold live_cycle. apply list_elem_of_filter. split; [done|].
      unfold cycle. apply elem_of_rotate. by apply list_elem_of_In. }
    rewrite E in Hin. by apply elem_of_nil in Hin.
  - intros Hne. destruct (live_cycle w) as [|a L] eqn:E; [done|].
    assert (Hin : a ∈ live_cycle w) by (rewrite E; left).
    unfold live_cycle in Hin. apply list_elem_of_filter in Hin as [Hl Hin].
    unfold cycle in Hin. apply elem_of_rotate in Hin.
    exists a. split; [by apply list_elem_of_In | done].
Qed.

(** X5. [next] is safe on every pool whose pointers are valid and whose
    cursor is where [next] and [updateConns] leave it: it does not panic,
    keeps the membership, the identities and these two invariants, and
    either returns a live connection of the pool, changing nothing but the
    cursor, or returns the "no available connection" error, which happens
    only when every connection is dead. *)
Theorem next_keeps_the_pool (c : Client) (w : World) :
  cursor_ok w = true → valid (heap w) (conns w) = true →
  ∃ r w', next c w = Ok r w'
    ∧ conns w' = conns w ∧ cursor_ok w' = true ∧ valid (heap w') (conns w') = true
    ∧ clock w' = clock w ∧ ndo w' = ndo w ∧ nprobe w' = nprobe w
    ∧ (∀ a, key (heap w') a = key (heap w) a)
    ∧ match r with
      | (Some a, None) =>
          a ∈ conns w ∧ liveAt (heap w) a = true
          ∧ heap w' = heap w ∧ trace w' = trace w
      | (None, Some e) => e = errNoAvailableConnection ∧ all_dead w = true
      | _ => False
      end.
Proof.
  intros Hc Hv. destruct (live_cycle w) as [|a L] eqn:E.
  - pose proof (live_cycle_nil w Hv E) as Hd.
    destruct (next_dead_run c w Hd Hc) as (w' & Hrun & Hcs & Hco & Hk & Hn & Hp & Hh & _).
    exists (None, Some errNoAvailableConnection), w'.
    split; [done|]. split; [done|]. split; [done|]. split.
    { rewrite Hcs. apply valid_intro. intros b Hb. rewrite Hh.
      destruct (valid_lookup _ _ b Hv Hb) as [k ->].
      by destruct (negb (snifferEnabled c) && bool_decide (b ∈ conns w)). }
    split; [done|]. split; [done|]. split; [done|]. split; [|done].
    intros b. unfold key. rewrite Hh.
    destruct (negb (snifferEnabled c) && bool_decide (b ∈ conns w)); [|done].
    by destruct (heap w !! b).
  - destruct (next_live c w a L Hc Hv E) as (p & Hrun & Hco & _).
    assert (Hin : a ∈ live_cycle w) by (rewrite E; left).
    apply live_cycle_elem in Hin as [Hl Hin].
    exists (Some a, None), (set_cindex p w). by repeat split.
Qed.

Lemma next_keeps_the_pool_witness :
  ∃ r w', next (simpleClient noRetries None) poolABC_Bdead = Ok r w'
          ∧ conns w' = conns poolABC_Bdead ∧ cursor_ok w' = true.
Proof.
  destruct (next_keeps_the_pool (simpleClient noRetries None) poolABC_Bdead)
    as (r & w' & H & Hc & Hk & _); [reflexivity | reflexivity |].
  exists r, w'. by repeat split.
Defined.

(** X6. [mustActiveConn] changes nothing and agrees with [next]: it returns
    nil exactly when a call of [next] on the same pool would return a
    connection; otherwise every connection of the pool is dead (or the pool
    is empty) and its error wraps [ErrNoClient]. *)
Theorem mustActiveConn_agrees_with_next (c : Client) (w : World) :
  cursor_ok w = true → valid (heap w) (conns w) = true →
  ∃ r, mustActiveConn w = Ok r w
    ∧ (r = None ↔ ∃ a w', next c w = Ok (Some a, None) w')
    ∧ (∀ e, r = Some e → Cause e = ErrNoClient ∧ all_dead w = true).
Proof.
  intros Hc Hv. unfold mustActiveConn. rewrite run_bind. cbn [gets].
  rewrite (mustActiveConn_loop_run _ _ Hv). eexists. split; [reflexivity|].
  destruct (existsb (liveAt (heap w)) (conns w)) eqn:Ex.
  - apply existsb_live_cycle in Ex.
    destruct (live_cycle w) as [|a L] eqn:E; [done|].
    destruct (next_live c w a L Hc Hv E) as (p & Hrun & _).
    split; [|done]. split; [eauto | done].
  - assert (E : live_cycle w = []).
    { destruct (live_cycle w) eqn:E; [done|].
      assert (Hne : live_cycle w ≠ []) by (by rewrite E).
      apply existsb_live_cycle in Hne. congruence. }
    pose proof (live_cycle_nil w Hv E) as Hd.
    destruct (next_dead_run c w Hd Hc) as (w' & Hrun & _).
    split.
    + split; [done|]. intros (a & w'' & Hn). congruence.
    + intros e [= <-]. done.
Qed.

Lemma mustActiveConn_agrees_with_next_witness :
  ∃ r, mustActiveConn poolABC_dead = Ok r poolABC_dead
       ∧ (∀ e, r = Some e → Cause e = ErrNoClient ∧ all_dead poolABC_dead = true).
Proof.
  destruct (mustActiveConn_agrees_with_next sniffingClient poolABC_dead)
    as (r & H & _ & He); [reflexivity | reflexivity |].
  exists r. by split.
Defined.

(* ------------------------------------------------------------------ *)
(** * [PerformRequest]: any number of retries *)


Lemma sent_to_app l1 l2 : sent_to (l1 ++ l2) = sent_to l1 ++ sent_to l2.
Proof. apply omap_app. Qed.
Lemma consulted_app l1 l2 : consulted (l1 ++ l2) = consulted l1 ++ consulted l2.
Proof. apply omap_app. Qed.
Lemma marked_dead_app l1 l2 : marked_dead (l1 ++ l2) = marked_dead l1 ++ marked_dead l2.
Proof. apply omap_app. Qed.
Lemma slept_app l1 l2 : slept (l1 ++ l2) = slept l1 ++ slept l2.
Proof. apply omap_app. Qed.




(* ------------------------------------------------------------------ *)
(** * [PerformRequest]: the other ways through one call *)

Lemma quiet_fields w w' : quiet w w' →
  conns w' = conns w ∧ cindex w' = cindex w ∧ heap w' = heap w
  ∧ clock w' = clock w ∧ ndo w' = ndo w ∧ nprobe w' = nprobe w
  ∧ ∃ evs, trace w' = trace w ++ evs ∧ forallb is_log evs = true.
Proof. done. Qed.

(** An iteration whose send is answered well: the response is returned and
    the connection marked healthy. *)
Lemma loop_success E c opt method rt codes fuel retried n w a L :
  cursor_ok w = true → valid (heap w) (conns w) = true → live_cycle w = a :: L →
  builds E → answers_well E opt codes (ndo w) →
  ∃ w' req r resp k evs,
    PerformRequest_loop E c opt method rt codes (S fuel) retried n w
    = Ok (Some resp, None) w'
    ∧ env_Do E (ndo w) req = (Some r, None)
    ∧ env_newResponse E r (optMaxResponseSize opt) (optStream opt) = (Some resp, None)
    ∧ heap w !! a = Some k ∧ heap w' = <[a := healthy k]> (heap w)
    ∧ conns w' = conns w ∧ ndo w' = S (ndo w)
    ∧ trace w' = trace w ++ EvDo a req :: evs
    ∧ sent_to evs = [] ∧ consulted evs = [] ∧ slept evs = [] ∧ marked_dead evs = [].
Proof.
  intros Hc Hv HL [Hn Hb] Hdo.
  destruct (iter_sends E c opt method rt codes retried n w a L Hc Hv HL Hn Hb)
    as (p & req & w1 & Hw1 & Hrun & Hc1 & HL1).
  destruct (Hdo req) as (r & resp & Hres & Hbody & Hcode & Hcheck & Hnew).
  assert (Ha : a ∈ live_cycle w) by (rewrite HL; left).
  apply live_cycle_elem in Ha as [_ Ha].
  destruct (valid_lookup _ _ a Hv Ha) as [k Hk].
  rewrite Hres in Hrun. cbn [fst snd] in Hrun.
  rewrite afterDo_status_plain in Hrun by done.
  destruct (finishRequest_success E c opt method a req r w1 k Hbody Hcheck)
    as (w' & w0 & w2 & Hfin & Hq0 & Hw2 & Hq2).
  { by subst w1. }
  { by rewrite Hnew. }
  rewrite Hnew in Hfin. rewrite Hfin in Hrun.
  apply quiet_fields in Hq0 as (Hcs0 & _ & Hh0 & _ & Hn0 & _ & evs0 & Ht0 & Hl0).
  apply quiet_fields in Hq2 as (Hcs2 & _ & Hh2 & _ & Hn2 & _ & evs2 & Ht2 & Hl2).
  apply log_silent in Hl0 as (Hs0 & Hm0 & Hr0 & Hz0).
  apply log_silent in Hl2 as (Hs2 & Hm2 & Hr2 & Hz2).
  exists w', req, r, resp, k, (evs0 ++ [EvMarkAsHealthy a] ++ evs2).
  split; [by apply loop_Return|]. split; [done|]. split; [done|]. split; [done|].
  subst w2 w1. cbn [heap conns ndo trace emit set_heap set_clock set_ndo set_cindex] in *.
  split. { by rewrite Hh2, Hh0. }
  split. { by rewrite Hcs2, Hcs0. }
  split. { by rewrite Hn2, Hn0. }
  split. { rewrite Ht2, Ht0. by rewrite <- !app_assoc. }
  rewrite !sent_to_app, !consulted_app, !slept_app, !marked_dead_app.
  rewrite Hs0, Hm0, Hr0, Hz0, Hs2, Hm2, Hr2, Hz2. done.
Qed.

(** X8. A call whose first send is answered with a response whose body can
    be closed (it has a body, or the call streams), with a status that needs
    no retry and that [checkResponse] accepts, returns the response after
    that one send, without consulting the retrier or sleeping. The connection
    used, the first live one after the cursor, is marked healthy: its
    failure counter and the time of its death are cleared. No other
    connection changes and none is marked dead. *)
Theorem answered_request_marks_healthy
  (E : Env) (c : Client) (opt : PerformRequestOptions) (fuel : nat) (w : World)
  (a : addr) (L : list addr) :
  cursor_ok w = true → valid (heap w) (conns w) = true → live_cycle w = a :: L →
  builds E → answers_well E opt (callRetryStatusCodes c opt) (ndo w) → (1 ≤ fuel)%nat →
  ∃ w' req r resp k evs,
    PerformRequest E c fuel opt w = Ok (Some resp, None) w'
    ∧ env_Do E (ndo w) req = (Some r, None)
    ∧ env_newResponse E r (optMaxResponseSize opt) (optStream opt) = (Some resp, None)
    ∧ heap w !! a = Some k ∧ heap w' = <[a := healthy k]> (heap w)
    ∧ failures (healthy k) = 0 ∧ dead (healthy k) = false ∧ deadSince (healthy k) = None
    ∧ conns w' = conns w ∧ ndo w' = S (ndo w)
    ∧ trace w' = trace w ++ EvDo a req :: evs
    ∧ sent_to evs = [] ∧ consulted evs = [] ∧ slept evs = [] ∧ marked_dead evs = [].
Proof.
  intros Hc Hv HL HE Hdo Hfuel. destruct fuel as [|fuel]; [lia|].
  destruct (loop_success E c opt (callMethod c opt) (callRetrier c opt)
              (callRetryStatusCodes c opt) fuel false 0 w a L Hc Hv HL HE Hdo)
    as (w' & req & r & resp & k & evs & H).
  exists w', req, r, resp, k, evs. unfold PerformRequest.
  destruct H as (? & ? & ? & ? & ? & ? & ? & ? & ? & ? & ? & ?). by repeat split.
Qed.

Lemma answered_request_marks_healthy_witness :
  ∃ w' resp,
    PerformRequest (envReplies 200) (simpleClient (retries 2) None) 1 getRoot poolABC_Bdead
    = Ok (Some resp, None) w'
    ∧ sent_to (trace w') = [epA] ∧ consulted (trace w') = []
    ∧ heap w' !! epB = heap poolABC_Bdead !! epB.
Proof.
  destruct (answered_request_marks_healthy (envReplies 200) (simpleClient (retries 2) None)
              getRoot 1 poolABC_Bdead epA [epC])
    as (w' & req & r & resp & k & evs & Hrun & _ & _ & _ & Hh & _ & _ & _ & _ & _ & Ht
        & Hs & Hr & _).
  - reflexivity.
  - reflexivity.
  - reflexivity.
  - split; intros; reflexivity.
  - intros req. eexists _, _. repeat split.
  - lia.
  - exists w', resp. split; [exact Hrun|].
    rewrite Ht. cbn [trace poolABC_Bdead app].
    change (sent_to (EvDo epA req :: evs)) with (epA :: sent_to evs).
    change (consulted (EvDo epA req :: evs)) with (consulted evs).
    rewrite Hs, Hr, Hh. done.
Defined.

(** Building the request: it fails with [build_error], leaving log
    messages only, or succeeds and changes nothing. *)
Lemma buildRequest_run E c opt method a w k :
  heap w !! a = Some k →
  ∃ w', quiet w w'
    ∧ match build_error E c opt method (url k) with
      | Some err => buildRequest E c opt method a w = Ok (inl err) w'
      | None => ∃ req, buildRequest E c opt method a w = Ok (inr req) w' ∧ w' = w
      end.
Proof.
  intros Hk. unfold buildRequest, build_error.
  fold (pathWithParams opt).
  rewrite run_bind, (URL_ok _ _ _ Hk).
  destruct (env_NewRequest E method (url k +:+ pathWithParams opt)) as [err|].
  - rewrite run_bind, (URL_ok _ _ _ Hk), run_bind, errorf_run.
    eexists. split; [|reflexivity].
    destruct (errorlog c); [by apply quiet_emit | apply quiet_refl].
  - destruct (optBody opt) as [b|].
    + destruct (env_SetBody E b (gzipEnabled c)) as [err|].
      * rewrite run_bind, errorf_run. eexists. split; [|reflexivity].
        destruct (errorlog c); [by apply quiet_emit | apply quiet_refl].
      * exists w. split; [apply quiet_refl|]. eexists. by split.
    + exists w. split; [apply quiet_refl|]. eexists. by split.
Qed.

(** X9. When the request cannot be built for the connection that [next]
    selects, because [NewRequest] or [SetBody] returns an error,
    [PerformRequest] returns that error at once: nothing is sent, the
    retrier is not consulted, and no connection is marked dead or changed;
    only the cursor has moved and the error may have been logged. *)
Theorem unbuildable_request_is_not_sent
  (E : Env) (c : Client) (opt : PerformRequestOptions) (fuel : nat) (w : World)
  (a : addr) (L : list addr) (k : conn) (err : error) :
  cursor_ok w = true → valid (heap w) (conns w) = true → live_cycle w = a :: L →
  heap w !! a = Some k →
  build_error E c opt (callMethod c opt) (url k) = Some err → (1 ≤ fuel)%nat →
  ∃ w' evs,
    PerformRequest E c fuel opt w = Ok (None, Some err) w'
    ∧ heap w' = heap w ∧ conns w' = conns w ∧ ndo w' = ndo w ∧ clock w' = clock w
    ∧ trace w' = trace w ++ evs ∧ forallb is_log evs = true
    ∧ sent_to evs = [] ∧ consulted evs = [] ∧ marked_dead evs = [] ∧ slept evs = [].
Proof.
  intros Hc Hv HL Hk Hb Hfuel. destruct fuel as [|fuel]; [lia|].
  destruct (next_live c w a L Hc Hv HL) as (p & Hp & Hpc & HpL).
  destruct (buildRequest_run E c opt (callMethod c opt) a (set_cindex p w) k Hk)
    as (w' & Hq & Hrun).
  rewrite Hb in Hrun.
  apply quiet_fields in Hq as (Hcs & _ & Hh & Hcl & Hn & _ & evs & Ht & Hl).
  exists w', evs. split.
  { unfold PerformRequest. apply loop_Return.
    unfold PerformRequest_iter. rewrite run_bind, Hp. cbn match.
    by rewrite run_bind, Hrun. }
  pose proof (log_silent _ Hl) as (? & ? & ? & ?). by repeat split.
Qed.

Lemma unbuildable_request_is_not_sent_witness :
  ∃ w', PerformRequest envUnbuildable (simpleClient (retries 2) None) 1 getRoot poolABC
        = Ok (None, Some invalidMethod) w'
        ∧ heap w' = heap poolABC ∧ ndo w' = 0%nat.
Proof.
  edestruct (unbuildable_request_is_not_sent envUnbuildable
              (simpleClient (retries 2) None) getRoot 1 poolABC epA [epB; epC] nodeA)
    as (w' & evs & Hrun & Hh & _ & Hn & _); [reflexivity .. | lia |].
  exists w'. by repeat split.
Defined.

(* ------------------------------------------------------------------ *)
(** * Health checks on any pool *)

Lemma health_events_silent (evs : list event) : forallb is_health_event evs = true →
  sent_to evs = [] ∧ consulted evs = [] ∧ slept evs = [].
Proof.
  induction evs as [|e evs IH]; [done|].
  cbn [forallb]. intros [He Hevs]%andb_prop. destruct (IH Hevs) as (H1 & H2 & H3).
  destruct e; try done.
Qed.

Lemma health_events_app l1 l2 :
  forallb is_health_event l1 = true → forallb is_health_event l2 = true →
  forallb is_health_event (l1 ++ l2) = true.
Proof. intros H1 H2. rewrite forallb_app. by rewrite H1, H2. Qed.

(** One probe, with what it leaves in the trace. *)
Lemma probe_events E c a u w :
  ∃ w' evs, probe E c a u w = Ok (probe_outcome E c (nprobe w) (ndo w) u) w'
        ∧ conns w' = conns w ∧ cindex w' = cindex w ∧ heap w' = heap w
        ∧ nprobe w' = S (nprobe w)
        ∧ (ndo w ≤ ndo w' ≤ S (ndo w))%nat
        ∧ trace w' = trace w ++ evs
        ∧ forallb is_health_event evs = true ∧ marked_dead evs = [].
Proof.
  unfold probe, probe_outcome.
  cbv [mbind M_bind mret M_ret gets modify]. cbn [nprobe set_nprobe].
  destruct (env_NewRequest E "HEAD" u) as [err|].
  - cbn [fst snd]. exists (set_nprobe (S (nprobe w)) w), [].
    destruct (env_timeout E (nprobe w)); (split; [reflexivity|]);
      cbn; rewrite app_nil_r; repeat split; lia.
  - rewrite Do_run. cbn [ndo emit set_nprobe].
    destruct (env_Do E (ndo w) (headRequest E c u)) as [res err].
    cbn [fst snd].
    destruct (env_timeout E (nprobe w)); eexists _, [EvProbe (Some a) (headRequest E c u)];
      (split; [reflexivity|]); cbn; repeat split; lia.
Qed.

(** The health check of one connection, with what it leaves in the trace. *)
Lemma healthcheck_conn_events E c a w k :
  heap w !! a = Some k →
  ∃ w' evs,
    healthcheck_conn E c a w = Ok tt w'
    ∧ conns w' = conns w ∧ cindex w' = cindex w
    ∧ nprobe w' = S (nprobe w) ∧ (ndo w ≤ ndo w' ≤ S (ndo w))%nat
    ∧ heap w' = <[a := if outcome_dead (probe_outcome E c (nprobe w) (ndo w) (url k))
                       then deadened (clock w') k else alive k]> (heap w)
    ∧ trace w' = trace w ++ evs
    ∧ forallb is_health_event evs = true
    ∧ (∀ b, b ∈ marked_dead evs → b = a).
Proof.
  intros Hk. unfold healthcheck_conn.
  rewrite run_bind, (URL_ok _ _ k) by done.
  destruct (probe_events E c a (url k) w)
    as (w1 & evs1 & Hrun & Hcs & Hci & Hh & Hnp & Hnd & Ht & Hev & Hmd).
  rewrite run_bind, Hrun.
  assert (Hk1 : heap w1 !! a = Some k) by (by rewrite Hh).
  assert (Hone : ∀ b, b ∈ marked_dead (evs1 ++ [EvMarkAsDead a]) → b = a).
  { intros b. rewrite marked_dead_app, Hmd. cbn. by intros ->%list_elem_of_singleton. }
  assert (Hdead : ∀ m : logmsg,
    ∃ w' evs, ((u ← URL a; errorf c (LogIsDead u);; MarkAsDead a) : M unit) w1 = Ok tt w'
      ∧ conns w' = conns w ∧ cindex w' = cindex w
      ∧ nprobe w' = S (nprobe w) ∧ (ndo w ≤ ndo w' ≤ S (ndo w))%nat
      ∧ heap w' = <[a := deadened (clock w') k]> (heap w)
      ∧ trace w' = trace w ++ evs
      ∧ forallb is_health_event evs = true
      ∧ (∀ b, b ∈ marked_dead evs → b = a)).
  { intros _. rewrite run_bind, (URL_ok _ _ k), run_bind, errorf_run by done.
    rewrite (MarkAsDead_ok _ _ k) by (by destruct (errorlog c)).
    destruct (errorlog c).
    - exists (emit (EvMarkAsDead a) (set_heap (<[a := deadened (clock w1) k]> (heap w1))
                (emit (EvErrorf (LogIsDead (url k))) w1))),
        (evs1 ++ [EvErrorf (LogIsDead (url k)); EvMarkAsDead a]).
      split; [reflexivity|]. cbn. rewrite ?Hcs, ?Hci, ?Hnp, ?Hh, Ht.
      split; [done|]. split; [done|]. split; [done|]. split; [lia|]. split; [done|].
      split; [by rewrite <- !app_assoc|]. split; [by apply health_events_app|].
      intros b. rewrite marked_dead_app, Hmd. cbn. by intros ->%list_elem_of_singleton.
    - exists (emit (EvMarkAsDead a) (set_heap (<[a := deadened (clock w1) k]> (heap w1)) w1)),
        (evs1 ++ [EvMarkAsDead a]).
      split; [reflexivity|]. cbn. rewrite ?Hcs, ?Hci, ?Hnp, ?Hh, Ht.
      split; [done|]. split; [done|]. split; [done|]. split; [lia|]. split; [done|].
      split; [by rewrite <- !app_assoc|]. split; [by apply health_events_app | done]. }
  destruct (probe_outcome E c (nprobe w) (ndo w) (url k)) as [|status [err|]];
    cbn [outcome_dead].
  - apply (Hdead LogNoConnection).
  - apply (Hdead LogNoConnection).
  - destruct (bool_decide (200 ≤ status) && bool_decide (status < 300)) eqn:Hs.
    + apply andb_prop in Hs as [H1 H2]. apply bool_decide_eq_true in H1, H2.
      rewrite bool_decide_true by lia.
      rewrite (MarkAsAlive_ok _ _ k) by done.
      eexists _, (evs1 ++ [EvMarkAsAlive a]).
      split; [reflexivity|]. cbn. rewrite ?Hcs, ?Hci, ?Hnp, ?Hh, Ht.
      split; [done|]. split; [done|]. split; [done|]. split; [lia|]. split; [done|].
      split; [by rewrite <- !app_assoc|]. split; [by apply health_events_app|].
      intros b. rewrite marked_dead_app, Hmd. cbn. by intros ?%elem_of_nil.
    + rewrite bool_decide_false.
      2:{ intros [H1 H2]. rewrite !bool_decide_true in Hs by lia. done. }
      rewrite run_bind, (MarkAsDead_ok _ _ k) by done.
      rewrite run_bind, (URL_ok _ _ (deadened (clock w1) k)).
      2:{ cbn. by rewrite lookup_insert_eq. }
      rewrite errorf_run.
      destruct (errorlog c).
      * eexists _, (evs1 ++ [EvMarkAsDead a; EvErrorf (LogIsDeadStatus (url k) status)]).
        split; [reflexivity|]. cbn. rewrite ?Hcs, ?Hci, ?Hnp, ?Hh, Ht.
        split; [done|]. split; [done|]. split; [done|]. split; [lia|]. split; [done|].
        split; [by rewrite <- !app_assoc|]. split; [by apply health_events_app|].
        intros b. rewrite marked_dead_app, Hmd. cbn. by intros ->%list_elem_of_singleton.
      * eexists _, (evs1 ++ [EvMarkAsDead a]).
        split; [reflexivity|]. cbn. rewrite ?Hcs, ?Hci, ?Hnp, ?Hh, Ht.
        split; [done|]. split; [done|]. split; [done|]. split; [lia|]. split; [done|].
        split; [by rewrite <- !app_assoc|]. split; [by apply health_events_app | done].
Qed.

Lemma key_insert_same h a k k' b :
  h !! a = Some k → nodeID k' = nodeID k → url k' = url k →
  key (<[a := k']> h) b = key h b.
Proof.
  intros Hk Hn Hu. unfold key. destruct (decide (a = b)) as [->|Hne].
  - rewrite lookup_insert_eq, Hk. cbn. by rewrite Hn, Hu.
  - by rewrite lookup_insert_ne.
Qed.

Lemma key_valid h h' l : (∀ b, key h' b = key h b) → valid h l = true → valid h' l = true.
Proof.
  intros Hkey Hv. apply valid_intro. intros b Hb.
  destruct (valid_lookup _ _ b Hv Hb) as [k Hk].
  specialize (Hkey b). unfold key in Hkey. rewrite Hk in Hkey.
  destruct (h' !! b); [done | discriminate].
Qed.

(** A sweep over any list of valid pointers, with or without repetitions:
    every probe is started, the identities stay, and the liveness of a
    connection afterwards is the outcome of one of its probes. *)
Lemma sweep_frame E c (l : list addr) : ∀ w,
  valid (heap w) l = true →
  ∃ w' evs,
    forM_ l (healthcheck_conn E c) w = Ok tt w'
    ∧ conns w' = conns w ∧ cindex w' = cindex w
    ∧ nprobe w' = (nprobe w + length l)%nat
    ∧ (ndo w ≤ ndo w' ≤ ndo w + length l)%nat
    ∧ (∀ b, key (heap w') b = key (heap w) b)
    ∧ (∀ b, b ∉ l → heap w' !! b = heap w !! b)
    ∧ trace w' = trace w ++ evs
    ∧ forallb is_health_event evs = true
    ∧ (∀ b, b ∈ marked_dead evs → b ∈ l)
    ∧ (∀ b kb, b ∈ l → heap w !! b = Some kb →
         ∃ i kd, l !! i = Some b ∧ (ndo w ≤ kd ≤ ndo w + i)%nat
           ∧ deadAt (heap w') b
             = outcome_dead (probe_outcome E c (nprobe w + i) kd (url kb))).
Proof.
  induction l as [|a l IH]; intros w Hv.
  - exists w, []. cbn. rewrite app_nil_r.
    split; [done|]. split; [done|]. split; [done|]. split; [lia|]. split; [lia|].
    split; [done|]. split; [done|]. split; [done|]. split; [done|].
    split; [by intros b ?%elem_of_nil | by intros b kb ?%elem_of_nil].
  - cbn [valid forallb] in Hv. apply andb_prop in Hv as [Ha Hv].
    apply bool_decide_eq_true in Ha as [k Hk].
    destruct (healthcheck_conn_events E c a w k Hk)
      as (w1 & evs1 & Hrun1 & Hcs1 & Hci1 & Hnp1 & Hnd1 & Hh1 & Ht1 & Hev1 & Hmd1).
    assert (Hkey1 : ∀ b, key (heap w1) b = key (heap w) b).
    { intros b. rewrite Hh1. apply (key_insert_same _ _ k); [done| |];
        by destruct (outcome_dead _). }
    destruct (IH w1) as (w' & evs & Hrun & Hcs & Hci & Hnp & Hnd & Hkey & Hfr & Ht & Hev
                         & Hmd & Hout).
    { by apply (key_valid (heap w)). }
    exists w', (evs1 ++ evs). split.
    { cbn [forM_]. by rewrite run_bind, Hrun1. }
    split; [congruence|]. split; [congruence|].
    split; [cbn [length]; lia|]. split; [cbn [length]; lia|].
    split. { intros b. by rewrite Hkey, Hkey1. }
    split.
    { intros b Hb. apply not_elem_of_cons in Hb as [Hne Hb].
      rewrite Hfr, Hh1 by done. by rewrite lookup_insert_ne. }
    split. { by rewrite Ht, Ht1, <- app_assoc. }
    split. { by apply health_events_app. }
    split.
    { intros b. rewrite marked_dead_app. intros [Hb|Hb]%elem_of_app.
      - apply Hmd1 in Hb as ->. left.
      - right. by apply Hmd. }
    intros b kb Hb Hkb.
    destruct (decide (b ∈ l)) as [Hin|Hnin].
    + assert (∃ kb1, heap w1 !! b = Some kb1 ∧ url kb1 = url kb) as (kb1 & Hkb1 & Hu).
      { specialize (Hkey1 b). unfold key in Hkey1. rewrite Hkb in Hkey1.
        destruct (heap w1 !! b) as [kb1|]; [|discriminate].
        exists kb1. split; [done|]. cbn in Hkey1. congruence. }
      destruct (Hout b kb1 Hin Hkb1) as (i & kd & Hi & Hkd & Hd).
      exists (S i), kd. split; [done|]. split; [lia|].
      rewrite Hd, Hu, Hnp1. do 2 f_equal. lia.
    + apply elem_of_cons in Hb as [->|Hb]; [|done].
      exists 0%nat, (ndo w). split; [done|]. split; [lia|].
      rewrite Nat.add_0_r. unfold deadAt. rewrite Hfr, Hh1, lookup_insert_eq by done.
      assert (kb = k) as -> by congruence.
      by destruct (outcome_dead _).
Qed.

(** X10. A health check that runs is safe on every pool whose pointers are
    valid, also when a connection occurs more than once in it: it does not
    panic, starts one probe per entry and sends at most one request per
    probe, keeps the membership, the cursor and the identity of every
    connection, touches no connection outside the pool, sends nothing
    through [PerformRequest], consults no retrier and does not sleep; a
    connection is marked dead only if it is in the pool, and afterwards the
    liveness of each connection of the pool is the outcome of one of its
    probes. *)
Theorem healthcheck_keeps_the_pool (E : Env) (c : Client) (force : bool) (w : World) :
  healthcheckEnabled c || force = true → valid (heap w) (conns w) = true →
  ∃ w' evs,
    healthcheck E c force w = Ok tt w'
    ∧ conns w' = conns w ∧ cindex w' = cindex w
    ∧ valid (heap w') (conns w') = true
    ∧ nprobe w' = (nprobe w + length (conns w))%nat
    ∧ (ndo w ≤ ndo w' ≤ ndo w + length (conns w))%nat
    ∧ (∀ b, key (heap w') b = key (heap w) b)
    ∧ (∀ b, b ∉ conns w → heap w' !! b = heap w !! b)
    ∧ trace w' = trace w ++ evs
    ∧ sent_to evs = [] ∧ consulted evs = [] ∧ slept evs = []
    ∧ (∀ b, b ∈ marked_dead evs → b ∈ conns w)
    ∧ (∀ b kb, b ∈ conns w → heap w !! b = Some kb →
         ∃ i kd, conns w !! i = Some b ∧ (ndo w ≤ kd ≤ ndo w + i)%nat
           ∧ deadAt (heap w') b
             = outcome_dead (probe_outcome E c (nprobe w + i) kd (url kb))).
Proof.
  intros Hon Hv. unfold healthcheck.
  assert (Hoff : negb (healthcheckEnabled c) && negb force = false).
  { destruct (healthcheckEnabled c), force; done. }
  rewrite Hoff, run_bind. cbn [gets].
  destruct (sweep_frame E c (conns w) w Hv)
    as (w' & evs & Hrun & Hcs & Hci & Hnp & Hnd & Hkey & Hfr & Ht & Hev & Hmd & Hout).
  destruct (health_events_silent _ Hev) as (Hs & Hr & Hz).
  exists w', evs. split; [done|]. split; [done|]. split; [done|]. split.
  { rewrite Hcs. by apply (key_valid (heap w)). }
  split; [done|]. split; [done|]. split; [done|]. split; [done|]. split; [done|].
  split; [done|]. split; [done|]. split; [done|]. split; [done | done].
Qed.

Lemma healthcheck_keeps_the_pool_witness :
  ∃ w' evs,
    healthcheck envBdown checkingClient false
      (mkWorld [epA; epB; epA] (-1) (heapOf nodeA nodeB nodeC) 0 0 0 []) = Ok tt w'
    ∧ conns w' = [epA; epB; epA]
    ∧ nprobe w' = 3%nat
    ∧ trace w' = evs ∧ sent_to evs = [].
Proof.
  destruct (healthcheck_keeps_the_pool envBdown checkingClient false
              (mkWorld [epA; epB; epA] (-1) (heapOf nodeA nodeB nodeC) 0 0 0 []))
    as (w' & evs & Hrun & Hcs & _ & _ & Hnp & _ & _ & _ & Ht & Hs & _);
    [reflexivity | reflexivity |].
  exists w', evs. split; [exact Hrun|]. split; [exact Hcs|].
  split; [exact Hnp|]. split; [exact Ht | exact Hs].
Defined.

(* ------------------------------------------------------------------ *)
(** * [PerformRequest] without a live connection *)

(** An iteration in which [next] finds no connection and no health check
    is due: the retrier decides, having been given neither request nor
    response. *)
Lemma iter_no_connection E c opt method rt codes retried n w w1 :
  next c w = Ok (None, Some errNoAvailableConnection) w1 →
  (healthcheckEnabled c = false ∨ retried = true) →
  PerformRequest_iter E c opt method rt codes retried n w
  = match rt (incr n) None None (Some errNoAvailableConnection) with
    | (_, _, Some re) => Ok (Return None (Some re)) (emit (EvRetry (incr n)) w1)
    | (_, false, None) =>
        Ok (Return None (Some errNoAvailableConnection)) (emit (EvRetry (incr n)) w1)
    | (wait, true, None) =>
        Ok (Continue true (incr n))
           (set_clock (clock w1 + Z.max 0 wait)
              (emit (EvSleep wait) (emit (EvRetry (incr n)) w1)))
    end.
Proof.
  intros Hnext Hno. unfold PerformRequest_iter. rewrite run_bind, Hnext.
  cbn [Cause errNoAvailableConnection isErrNoClient].
  assert (Hagain : ((if negb retried then healthcheck E c false;; mret (healthcheckEnabled c)
                     else mret false) : M bool) w1 = Ok false w1).
  { destruct retried; [done|]. destruct Hno as [Hoff|?]; [|done].
    cbn [negb]. unfold healthcheck. rewrite Hoff. done. }
  rewrite run_bind, Hagain. unfold Retry. rewrite !run_bind. cbn [modify mret M_ret].
  destruct (rt (incr n) None None (Some errNoAvailableConnection)) as [[wait ok] [re|]].
  - by destruct ok.
  - by destruct ok.
Qed.

(** An iteration in which [next] finds no connection, for the first time
    in the call, with health checks enabled: the pool is checked and the
    loop goes on, the retrier not being asked. *)
Lemma iter_forced_check E c opt method rt codes n w w1 w2 :
  next c w = Ok (None, Some errNoAvailableConnection) w1 →
  healthcheckEnabled c = true →
  forM_ (conns w1) (healthcheck_conn E c) w1 = Ok tt w2 →
  PerformRequest_iter E c opt method rt codes false n w = Ok (Continue true (incr n)) w2.
Proof.
  intros Hnext Hon Hsweep. unfold PerformRequest_iter. rewrite run_bind, Hnext.
  cbn [Cause errNoAvailableConnection isErrNoClient negb].
  unfold healthcheck. rewrite Hon. cbn [negb andb].
  rewrite !run_bind. cbn [gets]. rewrite Hsweep. reflexivity.
Qed.

Lemma next_dead_live c w w1 :
  all_dead w = true →
  (∀ a, heap w1 !! a =
        if negb (snifferEnabled c) && bool_decide (a ∈ conns w)
        then alive <$> heap w !! a else heap w !! a) →
  if snifferEnabled c then heap w1 = heap w
  else Forall (λ a, liveAt (heap w1) a = true) (conns w).
Proof.
  intros Hd Hh. destruct (snifferEnabled c).
  - apply map_eq. intros a. by rewrite Hh.
  - apply Forall_forall. intros a Ha. unfold liveAt. rewrite Hh.
    cbn [negb andb]. rewrite bool_decide_true by done.
    destruct (valid_lookup _ _ a (all_dead_valid _ Hd) Ha) as [k ->]. done.
Qed.

(** What [next] leaves in the trace when it finds no connection sends
    nothing, asks no retrier, does not sleep and marks nothing dead. *)
Lemma resurrection_silent (sniff log : bool) (m : logmsg) (l : list addr) :
  let evs := if sniff then []
             else (if log then [EvErrorf m] else []) ++ (EvMarkAsAlive <$> l) in
  sent_to evs = [] ∧ consulted evs = [] ∧ slept evs = [] ∧ marked_dead evs = [].
Proof.
  assert (H : sent_to (EvMarkAsAlive <$> l) = [] ∧ consulted (EvMarkAsAlive <$> l) = []
              ∧ slept (EvMarkAsAlive <$> l) = [] ∧ marked_dead (EvMarkAsAlive <$> l) = []).
  { induction l as [|a l IH]; [done|]. exact IH. }
  destruct H as (H1 & H2 & H3 & H4).
  destruct sniff; [done|]. cbn zeta.
  rewrite sent_to_app, consulted_app, slept_app, marked_dead_app, H1, H2, H3, H4.
  by destruct log.
Qed.

(** X11. A call that finds every connection of the pool dead, with health
    checks disabled: the retrier is consulted once, for attempt 1 and
    without a request or a response, and when it declines the call returns
    the "no available connection" error, which wraps [ErrNoClient]. Nothing
    is sent, no connection is marked dead, and the call does not sleep.
    With sniffing disabled the call leaves every connection of the pool
    alive; with sniffing enabled it leaves them as they were. *)
Theorem no_connection_and_no_retry
  (E : Env) (c : Client) (opt : PerformRequestOptions) (fuel : nat) (w : World) (wait : Z) :
  all_dead w = true → cursor_ok w = true → healthcheckEnabled c = false →
  callRetrier c opt 1 None None (Some errNoAvailableConnection) = (wait, false, None) →
  (1 ≤ fuel)%nat →
  ∃ w' evs,
    PerformRequest E c fuel opt w = Ok (None, Some errNoAvailableConnection) w'
    ∧ Cause errNoAvailableConnection = ErrNoClient
    ∧ conns w' = conns w ∧ ndo w' = ndo w ∧ nprobe w' = nprobe w ∧ clock w' = clock w
    ∧ trace w' = trace w ++ evs
    ∧ sent_to evs = [] ∧ consulted evs = [1] ∧ slept evs = [] ∧ marked_dead evs = []
    ∧ if snifferEnabled c then heap w' = heap w
      else Forall (λ a, liveAt (heap w') a = true) (conns w).
Proof.
  intros Hd Hc Hoff Hrt Hfuel. destruct fuel as [|fuel]; [lia|].
  destruct (next_dead_run c w Hd Hc)
    as (w1 & Hnext & Hcs & Hco & Hcl & Hnd & Hnp & Hh & Ht).
  pose proof (iter_no_connection E c opt (callMethod c opt) (callRetrier c opt)
                (callRetryStatusCodes c opt) false 0 w w1 Hnext (or_introl Hoff)) as Hit.
  change (incr 0) with 1 in Hit. rewrite Hrt in Hit.
  eexists _, _. split; [unfold PerformRequest; by apply loop_Return|].
  cbn [conns ndo nprobe clock trace heap emit].
  split; [done|]. split; [done|]. split; [done|]. split; [done|]. split; [done|].
  split; [by rewrite Ht, <- app_assoc|].
  rewrite !sent_to_app, !consulted_app, !slept_app, !marked_dead_app.
  destruct (resurrection_silent (snifferEnabled c) (errorlog c)
              (LogAllDead (Z.of_nat (length (conns w)))) (conns w)) as (-> & -> & -> & ->).
  split; [done|]. split; [done|]. split; [done|]. split; [done|].
  by apply next_dead_live.
Qed.

Lemma no_connection_and_no_retry_witness :
  ∃ w', PerformRequest envRefused (simpleClient noRetries None) 1 getRoot poolABC_dead
        = Ok (None, Some errNoAvailableConnection) w'
        ∧ sent_to (trace w') = [] ∧ consulted (trace w') = [1]
        ∧ Forall (λ a, liveAt (heap w') a = true) [epA; epB; epC].
Proof.
  destruct (no_connection_and_no_retry envRefused (simpleClient noRetries None) getRoot 1
              poolABC_dead 0)
    as (w' & evs & Hrun & _ & _ & _ & _ & _ & Ht & Hs & Hr & _ & _ & Hlive);
    [reflexivity | reflexivity | reflexivity | reflexivity | lia |].
  exists w'. split; [exact Hrun|]. rewrite Ht.
  split; [exact Hs|]. split; [exact Hr | exact Hlive].
Defined.


(** X12. The resurrection of [next] lets a retry through. When a call
    finds every connection of a pool that is not empty dead, with sniffing
    and health checks disabled, and the retrier allows a retry, the call
    sleeps as the retrier says and its second iteration sends the request
    to a connection of the pool, all of which [next] has marked alive; an
    answer that needs no retry, with a body that can be closed, is
    returned. The retrier has been consulted once, for attempt 1, and no
    connection is dead afterwards. *)
Theorem resurrected_pool_serves_the_retry
  (E : Env) (c : Client) (opt : PerformRequestOptions) (fuel : nat) (w : World) (wait : Z) :
  all_dead w = true → cursor_ok w = true → conns w ≠ [] →
  healthcheckEnabled c = false → snifferEnabled c = false →
  callRetrier c opt 1 None None (Some errNoAvailableConnection) = (wait, true, None) →
  builds E → answers_well E opt (callRetryStatusCodes c opt) (ndo w) → (2 ≤ fuel)%nat →
  ∃ w' resp a evs,
    PerformRequest E c fuel opt w = Ok (Some resp, None) w'
    ∧ a ∈ conns w ∧ conns w' = conns w ∧ ndo w' = S (ndo w)
    ∧ trace w' = trace w ++ evs
    ∧ sent_to evs = [a] ∧ consulted evs = [1] ∧ slept evs = [wait] ∧ marked_dead evs = []
    ∧ Forall (λ b, liveAt (heap w') b = true) (conns w).
Proof.
  intros Hd Hc Hne Hoff Hsn Hrt HE Hdo Hfuel. destruct fuel as [|[|fuel]]; try lia.
  destruct (next_dead_run c w Hd Hc)
    as (w1 & Hnext & Hcs & Hco & Hcl & Hnd & Hnp & Hh & Ht).
  pose proof (iter_no_connection E c opt (callMethod c opt) (callRetrier c opt)
                (callRetryStatusCodes c opt) false 0 w w1 Hnext (or_introl Hoff)) as Hit.
  change (incr 0) with 1 in Hit. rewrite Hrt in Hit.
  pose proof (next_dead_live c w w1 Hd Hh) as Hlive. rewrite Hsn in Hlive.
  set (w2 := set_clock (clock w1 + Z.max 0 wait) (emit (EvSleep wait) (emit (EvRetry 1) w1)))
    in *.
  assert (Hv2 : valid (heap w2) (conns w2) = true).
  { cbn [w2 heap conns set_clock emit]. rewrite Hcs. apply valid_intro. intros b Hb.
    rewrite Forall_forall in Hlive. by destruct (liveAt_Some _ _ (Hlive b Hb)) as (k & -> & _). }
  assert (Hc2 : cursor_ok w2 = true).
  { exact Hco. }
  assert (HL2 : live_cycle w2 ≠ []).
  { apply existsb_live_cycle. apply existsb_exists.
    cbn [w2 heap conns set_clock emit]. rewrite Hcs.
    destruct (conns w) as [|b l] eqn:Eb; [done|]. exists b. split; [left; done|].
    rewrite Forall_forall in Hlive. apply Hlive. left. }
  destruct (live_cycle w2) as [|a L] eqn:EL; [done|].
  destruct (loop_success E c opt (callMethod c opt) (callRetrier c opt)
              (callRetryStatusCodes c opt) fuel true 1 w2 a L Hc2 Hv2 EL HE)
    as (w' & req & r & resp & k & evs & Hrun & _ & _ & Hk & Hh' & Hcs' & Hnd' & Ht'
        & Hs & Hr & Hz & Hm).
  { cbn [w2 ndo set_clock emit]. by rewrite Hnd. }
  assert (Ha : a ∈ conns w).
  { assert (Hin : a ∈ live_cycle w2) by (rewrite EL; left).
    apply live_cycle_elem in Hin as [_ Hin]. cbn [w2 conns set_clock emit] in Hin.
    by rewrite Hcs in Hin. }
  exists w', resp, a,
    (((if errorlog c then [EvErrorf (LogAllDead (Z.of_nat (length (conns w))))] else [])
      ++ (EvMarkAsAlive <$> conns w)) ++ [EvRetry 1; EvSleep wait] ++ EvDo a req :: evs).
  split. { unfold PerformRequest. by rewrite (loop_Continue _ _ _ _ _ _ _ _ _ _ _ _ _ Hit). }
  split; [done|]. split; [by rewrite Hcs'|]. split; [by rewrite Hnd', <- Hnd|].
  split.
  { rewrite Ht'. cbn [w2 trace set_clock emit]. rewrite Ht, Hsn.
    by rewrite <- !app_assoc. }
  rewrite sent_to_app, consulted_app, slept_app, marked_dead_app.
  destruct (resurrection_silent false (errorlog c)
              (LogAllDead (Z.of_nat (length (conns w)))) (conns w)) as (-> & -> & -> & ->).
  change ([EvRetry 1; EvSleep wait] ++ EvDo a req :: evs)
    with (EvRetry 1 :: EvSleep wait :: EvDo a req :: evs).
  change (sent_to (EvRetry 1 :: EvSleep wait :: EvDo a req :: evs)) with (a :: sent_to evs).
  change (consulted (EvRetry 1 :: EvSleep wait :: EvDo a req :: evs))
    with (1 :: consulted evs).
  change (slept (EvRetry 1 :: EvSleep wait :: EvDo a req :: evs)) with (wait :: slept evs).
  change (marked_dead (EvRetry 1 :: EvSleep wait :: EvDo a req :: evs))
    with (marked_dead evs).
  rewrite Hs, Hr, Hz, Hm.
  split; [done|]. split; [done|]. split; [done|]. split; [done|].
  apply Forall_forall. intros b Hb. rewrite Forall_forall in Hlive.
  specialize (Hlive b Hb). rewrite Hh'. cbn [w2 heap set_clock emit] in *.
  unfold liveAt in *. destruct (decide (a = b)) as [->|Hab].
  - by rewrite lookup_insert_eq.
  - by rewrite lookup_insert_ne.
Qed.

Lemma resurrected_pool_serves_the_retry_witness :
  ∃ w' resp a evs,
    PerformRequest (envReplies 200) (simpleClient (retries 1) None) 2 getRoot poolABC_dead
    = Ok (Some resp, None) w'
    ∧ trace w' = trace poolABC_dead ++ evs
    ∧ sent_to evs = [a] ∧ consulted evs = [1].
Proof.
  destruct (resurrected_pool_serves_the_retry (envReplies 200) (simpleClient (retries 1) None)
              getRoot 2 poolABC_dead 100000000)
    as (w' & resp & a & evs & Hrun & _ & _ & _ & Ht & Hs & Hr & _).
  - reflexivity.
  - reflexivity.
  - discriminate.
  - reflexivity.
  - reflexivity.
  - reflexivity.
  - split; intros; reflexivity.
  - intros req. eexists _, _. split; [reflexivity|]. split; [reflexivity|].
    split; [reflexivity|]. split; reflexivity.
  - lia.
  - exists w', resp, a, evs. split; [exact Hrun|]. split; [exact Ht|].
    split; [exact Hs | exact Hr].
Defined.

(** X13. With health checks enabled, the first iteration of a call that
    finds every connection dead checks the whole pool and goes on without
    asking the retrier, whatever the probes answer. The attempt counter has
    been incremented all the same: when every probe of that check runs into
    its timeout the second iteration finds no connection either, and the
    retrier is then consulted for the first time, for attempt 2. When it
    declines, the call returns the "no available connection" error having
    sent nothing and having probed each entry of the pool once. *)
Theorem forced_check_precedes_the_retrier
  (E : Env) (c : Client) (opt : PerformRequestOptions) (w : World) :
  all_dead w = true → cursor_ok w = true → healthcheckEnabled c = true →
  (∀ method rt codes n,
    ∃ w' evs,
      PerformRequest_iter E c opt method rt codes false n w = Ok (Continue true (incr n)) w'
      ∧ conns w' = conns w ∧ nprobe w' = (nprobe w + length (conns w))%nat
      ∧ trace w' = trace w ++ evs
      ∧ sent_to evs = [] ∧ consulted evs = [] ∧ slept evs = [])
  ∧ (∀ fuel wait,
      (∀ kp, (nprobe w ≤ kp)%nat → env_timeout E kp = true) →
      callRetrier c opt 2 None None (Some errNoAvailableConnection) = (wait, false, None) →
      (2 ≤ fuel)%nat →
      ∃ w' evs,
        PerformRequest E c fuel opt w = Ok (None, Some errNoAvailableConnection) w'
        ∧ conns w' = conns w ∧ nprobe w' = (nprobe w + length (conns w))%nat
        ∧ trace w' = trace w ++ evs
        ∧ sent_to evs = [] ∧ consulted evs = [2] ∧ slept evs = []).
Proof.
  intros Hd Hc Hon.
  destruct (next_dead_run c w Hd Hc)
    as (w1 & Hnext & Hcs & Hco & Hcl & Hnd & Hnp & Hh & Ht).
  assert (Hv1 : valid (heap w1) (conns w1) = true).
  { rewrite Hcs. apply valid_intro. intros b Hb. rewrite Hh.
    destruct (valid_lookup _ _ b (all_dead_valid _ Hd) Hb) as [k ->].
    by destruct (negb (snifferEnabled c) && bool_decide (b ∈ conns w)). }
  destruct (sweep_frame E c (conns w1) w1 Hv1)
    as (w2 & evs2 & Hrun2 & Hcs2 & Hci2 & Hnp2 & Hnd2 & Hkey2 & Hfr2 & Ht2 & Hev2 & Hmd2
        & Hout2).
  destruct (health_events_silent _ Hev2) as (Hs2 & Hr2 & Hz2).
  destruct (resurrection_silent (snifferEnabled c) (errorlog c)
              (LogAllDead (Z.of_nat (length (conns w)))) (conns w)) as (Hs1 & Hr1 & Hz1 & Hm1).
  assert (Hfirst : ∀ method rt codes n,
    PerformRequest_iter E c opt method rt codes false n w = Ok (Continue true (incr n)) w2).
  { intros. by apply (iter_forced_check _ _ _ _ _ _ _ _ w1). }
  assert (Htr : trace w2 = trace w ++ (if snifferEnabled c then []
             else (if errorlog c
                   then [EvErrorf (LogAllDead (Z.of_nat (length (conns w))))] else [])
                  ++ (EvMarkAsAlive <$> conns w)) ++ evs2).
  { by rewrite Ht2, Ht, <- app_assoc. }
  split.
  - intros method rt codes n. eexists w2, _. split; [apply Hfirst|].
    split; [congruence|]. split; [by rewrite Hnp2, Hnp, Hcs|]. split; [exact Htr|].
    rewrite sent_to_app, consulted_app, slept_app, Hs1, Hr1, Hz1, Hs2, Hr2, Hz2. done.
  - intros fuel wait Hto Hrt Hfuel. destruct fuel as [|[|fuel]]; try lia.
    assert (Hd2 : all_dead w2 = true).
    { unfold all_dead. apply forallb_forall. intros b Hb. apply list_elem_of_In in Hb.
      rewrite Hcs2 in Hb.
      destruct (valid_lookup _ _ b Hv1 Hb) as [kb Hkb].
      destruct (Hout2 b kb Hb Hkb) as (i & kd & _ & _ & Hdead).
      rewrite Hdead. unfold probe_outcome. rewrite Hto by lia. done. }
    assert (Hc2 : cursor_ok w2 = true).
    { apply cursor_ok_inv in Hco. apply cursor_ok_intro; rewrite ?Hcs2, ?Hci2; lia. }
    destruct (next_dead_run c w2 Hd2 Hc2)
      as (w3 & Hnext3 & Hcs3 & Hco3 & Hcl3 & Hnd3 & Hnp3 & Hh3 & Ht3).
    pose proof (iter_no_connection E c opt (callMethod c opt) (callRetrier c opt)
                  (callRetryStatusCodes c opt) true (incr 0) w2 w3 Hnext3
                  (or_intror eq_refl)) as Hit.
    change (incr (incr 0)) with 2 in Hit. rewrite Hrt in Hit.
    destruct (resurrection_silent (snifferEnabled c) (errorlog c)
                (LogAllDead (Z.of_nat (length (conns w2)))) (conns w2))
      as (Hs3 & Hr3 & Hz3 & Hm3).
    eexists _, _. split.
    { unfold PerformRequest.
      rewrite (loop_Continue _ _ _ _ _ _ _ _ _ _ _ _ _ (Hfirst _ _ _ _)).
      by apply loop_Return. }
    cbn [conns nprobe trace emit].
    split; [congruence|]. split; [by rewrite Hnp3, Hnp2, Hnp, Hcs|].
    split. { rewrite Ht3, Htr, <- !app_assoc. reflexivity. }
    rewrite !sent_to_app, !consulted_app, !slept_app.
    rewrite Hs1, Hr1, Hz1, Hs2, Hr2, Hz2, Hs3, Hr3, Hz3. done.
Qed.

Lemma forced_check_precedes_the_retrier_witness :
  ∃ w' evs,
    PerformRequest envTimeouts checkingClient 2 getRoot poolABC_dead
    = Ok (None, Some errNoAvailableConnection) w'
    ∧ nprobe w' = 3%nat
    ∧ trace w' = trace poolABC_dead ++ evs
    ∧ sent_to evs = [] ∧ consulted evs = [2].
Proof.
  destruct (forced_check_precedes_the_retrier envTimeouts checkingClient getRoot poolABC_dead)
    as [_ H]; [reflexivity | reflexivity | reflexivity |].
  destruct (H 2%nat 0) as (w' & evs & Hrun & _ & Hnp & Ht & Hs & Hr & _);
    [reflexivity | reflexivity | lia |].
  exists w', evs. split; [exact Hrun|]. split; [exact Hnp|]. split; [exact Ht|].
  split; [exact Hs | exact Hr].
Defined.

(* ------------------------------------------------------------------ *)
(** * [updateConns] and what follows it *)

(** The connection [updateConns] keeps for a discovered one. *)
Lemma updateConns_run c (discovered : list addr) w :
  valid (heap w) (conns w) = true → valid (heap w) discovered = true →
  ∃ w', updateConns c discovered w = Ok tt w'
    ∧ conns w' = (λ d, default d (find_old (heap w) (conns w) d)) <$> discovered
    ∧ cindex w' = -1 ∧ heap w' = heap w.
Proof.
  intros Hv Hd. unfold updateConns. rewrite run_bind. cbn [gets].
  destruct (updateConns_loop_run c (conns w) discovered [] w Hv Hd) as (w1 & Hrun & Hq).
  rewrite run_bind, Hrun. apply quiet_fields in Hq as (_ & _ & Hh & _).
  eexists. split; [reflexivity|]. cbn. by rewrite Hh.
Qed.

Lemma kept_key h olds d :
  is_Some (h !! d) → key h (default d (find_old h olds d)) = key h d.
Proof.
  intros Hd. destruct (find_old h olds d) as [o|] eqn:Hf; [|done].
  apply find_old_Some in Hf as [_ Hs]. by apply sameNode_key in Hs as [Hs _].
Qed.

Lemma kept_valid h olds discovered :
  valid h olds = true → valid h discovered = true →
  valid h ((λ d, default d (find_old h olds d)) <$> discovered) = true.
Proof.
  intros Ho Hd. apply valid_intro. intros a Ha.
  apply list_elem_of_fmap in Ha as (d & -> & Hin).
  destruct (find_old h olds d) as [o|] eqn:Hf; cbn.
  - apply find_old_Some in Hf as [Hin' _]. by apply (valid_lookup _ olds).
  - by apply (valid_lookup _ discovered).
Qed.

Lemma rotate_zero {A} (l : list A) : rotate 0 l = l.
Proof. unfold rotate. by rewrite Nat.Div0.mod_0_l, drop_0, take_0, app_nil_r. Qed.

(** X14. After a reconciliation the rotation starts again at the head of
    the new pool: successive calls of [next] return the live connections of
    the new pool in pool order, beginning with the first live one, whatever
    the cursor was before. A reconciliation that leaves no live connection,
    such as one with an empty discovery, makes [next] fail. *)
Theorem updateConns_restarts_the_rotation
  (c c' : Client) (w : World) (discovered : list addr) (n : nat) :
  valid (heap w) (conns w) = true → valid (heap w) discovered = true →
  Z.of_nat (length discovered) < 2 ^ 63 →
  ∃ w', updateConns c discovered w = Ok tt w'
    ∧ let L := filter (λ a, liveAt (heap w') a = true) (conns w') in
      (L ≠ [] →
       ∃ w'', nexts c' n w' = Ok ((λ j, (L !! (j `mod` length L)%nat, None)) <$> seq 0 n) w'')
      ∧ (L = [] → ∃ w'', next c' w' = Ok (None, Some errNoAvailableConnection) w'').
Proof.
  intros Hv Hd Hlen.
  destruct (updateConns_run c discovered w Hv Hd) as (w' & Hrun & Hcs & Hci & Hh).
  exists w'. split; [done|]. cbn zeta.
  assert (Hv' : valid (heap w') (conns w') = true).
  { rewrite Hh, Hcs. by apply kept_valid. }
  assert (Hc' : cursor_ok w' = true).
  { apply cursor_ok_intro; rewrite Hcs, length_fmap, ?Hci; lia. }
  assert (HL : live_cycle w' = filter (λ a, liveAt (heap w') a = true) (conns w')).
  { unfold live_cycle, cycle. rewrite Hci. cbn. by rewrite rotate_zero. }
  rewrite <- HL. split.
  - intros Hne. destruct (nexts_cycle c' n w' Hc' Hv' Hne) as (p & Hp & _). eauto.
  - intros Hnil. pose proof (live_cycle_nil w' Hv' Hnil) as Hdead.
    destruct (next_dead_run c' w' Hdead Hc') as (w'' & Hn & _). eauto.
Qed.

Lemma updateConns_restarts_the_rotation_witness :
  ∃ w' w'', updateConns (simpleClient noRetries None) [10; 12; 13]%nat poolBeforeSniff
            = Ok tt w'
    ∧ nexts sniffingClient 3 w' = Ok [(Some epC, None); (Some 13%nat, None); (Some epC, None)] w''.
Proof.
  destruct (updateConns_restarts_the_rotation (simpleClient noRetries None) sniffingClient
              poolBeforeSniff [10; 12; 13]%nat 3)
    as (w' & Hrun & Hnext & _); [reflexivity | reflexivity | reflexivity |].
  assert (Hw : w' = mkWorld [epA; epC; 13%nat] (-1) discoveredHeap 0 0 0 []).
  { vm_compute in Hrun. by injection Hrun as <-. }
  destruct Hnext as (w'' & Hn).
  { rewrite Hw. discriminate. }
  exists w', w''. split; [exact Hrun|]. rewrite Hn, Hw. reflexivity.
Defined.

(** X15. Reconciling twice with the same discovery is reconciling once,
    when the discovered connections have pairwise distinct identities: the
    second call keeps every entry of the pool that the first call made. *)
Theorem updateConns_twice (c : Client) (w : World) (discovered : list addr) :
  valid (heap w) (conns w) = true → valid (heap w) discovered = true →
  NoDup (key (heap w) <$> discovered) →
  ∃ w1 w2,
    updateConns c discovered w = Ok tt w1
    ∧ updateConns c discovered w1 = Ok tt w2
    ∧ conns w2 = conns w1 ∧ heap w2 = heap w1 ∧ cindex w2 = cindex w1.
Proof.
  intros Hv Hd Hnd.
  destruct (updateConns_run c discovered w Hv Hd) as (w1 & Hrun1 & Hcs1 & Hci1 & Hh1).
  assert (Hv1 : valid (heap w1) (conns w1) = true).
  { rewrite Hh1, Hcs1. by apply kept_valid. }
  assert (Hd1 : valid (heap w1) discovered = true) by (by rewrite Hh1).
  destruct (updateConns_run c discovered w1 Hv1 Hd1) as (w2 & Hrun2 & Hcs2 & Hci2 & Hh2).
  exists w1, w2. split; [done|]. split; [done|]. split; [|split; congruence].
  rewrite Hcs2, Hh1, Hcs1. apply list_fmap_ext. intros i d Hi.
  apply list_elem_of_lookup_2 in Hi as Hin.
  assert (Hsd : is_Some (heap w !! d)) by (by apply (valid_lookup _ discovered)).
  set (f := λ d, default d (find_old (heap w) (conns w) d)).
  assert (Hkeys : key (heap w) <$> (f <$> discovered) = key (heap w) <$> discovered).
  { rewrite <- list_fmap_compose. apply list_fmap_ext. intros j x Hj. cbn.
    apply kept_key. apply (valid_lookup _ discovered); [done|].
    by eapply list_elem_of_lookup_2. }
  rewrite (find_old_self (heap w) (f <$> discovered)) with (o := f d).
  - done.
  - by rewrite Hkeys.
  - by apply kept_valid.
  - by apply list_elem_of_fmap_2.
  - symmetry. by apply kept_key.
Qed.

Lemma updateConns_twice_witness :
  ∃ w1 w2,
    updateConns (simpleClient noRetries None) [10; 12; 13]%nat poolBeforeSniff = Ok tt w1
    ∧ updateConns (simpleClient noRetries None) [10; 12; 13]%nat w1 = Ok tt w2
    ∧ conns w2 = conns w1.
Proof.
  destruct (updateConns_twice (simpleClient noRetries None) poolBeforeSniff [10; 12; 13]%nat)
    as (w1 & w2 & H1 & H2 & H3 & _).
  - reflexivity.
  - reflexivity.
  - apply (bool_decide_unpack _). vm_compute. exact I.
  - exists w1, w2. split; [exact H1|]. split; [exact H2 | exact H3].
Defined.

(* ------------------------------------------------------------------ *)
(** * Error values: [ErrorReason] *)

(** X16. [ErrorReason] of what [checkResponse] returns is the reason in the
    decoded body of a response that is rejected, and the empty string for
    a response that is accepted, because of its status or because its
    status is to be ignored, or whose body carries no error details.
    [ErrorReason] does not look through wrappers: it is empty for a
    wrapped [*Error]. *)
Theorem ErrorReason_of_checkResponse :
  (∀ req res ignoreErrors,
      ErrorReason (checkResponse req res ignoreErrors)
      = if bool_decide (200 ≤ StatusCode res ≤ 299) || inCodes ignoreErrors (StatusCode res)
        then "" else body_reason res)
  ∧ (∀ res, ErrorReason (Some (createResponseError res)) = body_reason res)
  ∧ (∀ e msg, ErrorReason (Some (Wrap e msg)) = "")
  ∧ (∀ e, ErrorReason (Some e) ≠ "" → ∃ status d, e = ElasticError status (Some d)).
Proof.
  assert (Hc : ∀ res, ErrorReason (Some (createResponseError res)) = body_reason res).
  { intros res. unfold createResponseError, body_reason.
    destruct (ResBody res) as [| | |status [d|]]; done. }
  split; [|split; [exact Hc|split]].
  - intros req res ignoreErrors. unfold checkResponse.
    destruct (bool_decide (200 ≤ StatusCode res) && bool_decide (StatusCode res ≤ 299))
      eqn:Hok.
    + apply andb_prop in Hok as [H1 H2]. apply bool_decide_eq_true in H1, H2.
      by rewrite bool_decide_true by lia.
    + rewrite bool_decide_false.
      2:{ intros [H1 H2]. rewrite !bool_decide_true in Hok by lia. done. }
      cbn [orb]. destruct (inCodes ignoreErrors (StatusCode res)); [done | apply Hc].
  - done.
  - intros e He. destruct e as [| | | status [d|] | | | |]; try done. eauto.
Qed.

(** X17. A call whose send is answered with a response whose body can be
    closed (it has a body, or the call streams), with a status that needs no
    retry and that [checkResponse] rejects, returns, after that one send,
    the response together with the error, whose reason is the one of the
    response body. The retrier is not consulted and the connection is left
    as it was: an error status marks it neither dead nor healthy. *)
Theorem rejected_answer_leaves_the_connection
  (E : Env) (c : Client) (opt : PerformRequestOptions) (fuel : nat) (w : World)
  (a : addr) (L : list addr) :
  cursor_ok w = true → valid (heap w) (conns w) = true → live_cycle w = a :: L →
  builds E → answers_badly E opt (callRetryStatusCodes c opt) (ndo w) → (1 ≤ fuel)%nat →
  ∃ w' req r err evs,
    PerformRequest E c fuel opt w
    = Ok ((env_newResponse E r (optMaxResponseSize opt) (optStream opt)).1, Some err) w'
    ∧ env_Do E (ndo w) req = (Some r, None)
    ∧ err = createResponseError r ∧ ErrorReason (Some err) = body_reason r
    ∧ heap w' = heap w ∧ conns w' = conns w ∧ ndo w' = S (ndo w)
    ∧ trace w' = trace w ++ EvDo a req :: evs ∧ forallb is_log evs = true.
Proof.
  intros Hc Hv HL [Hn Hb] Hdo Hfuel. destruct fuel as [|fuel]; [lia|].
  destruct (iter_sends E c opt (callMethod c opt) (callRetrier c opt)
              (callRetryStatusCodes c opt) false 0 w a L Hc Hv HL Hn Hb)
    as (p & req & w1 & Hw1 & Hrun & Hc1 & HL1).
  destruct (Hdo req) as (r & err & Hres & Hbody & Hcode & Hcheck).
  rewrite Hres in Hrun. cbn [fst snd] in Hrun.
  rewrite afterDo_status_plain in Hrun by done.
  destruct (finishRequest_error E c opt (callMethod c opt) a req r w1 err Hbody Hcheck)
    as (w' & Hfin & Hq).
  rewrite Hfin in Hrun.
  apply quiet_fields in Hq as (Hcs & _ & Hh & _ & Hnd & _ & evs & Ht & Hl).
  assert (Herr : err = createResponseError r).
  { unfold checkResponse in Hcheck.
    destruct (bool_decide (200 ≤ StatusCode r) && bool_decide (StatusCode r ≤ 299));
      [done|]. destruct (inCodes (optIgnoreErrors opt) (StatusCode r)); [done|].
    by injection Hcheck as <-. }
  exists w', req, r, err, evs.
  split; [unfold PerformRequest; by apply loop_Return|]. split; [done|]. split; [done|].
  split.
  { rewrite Herr. unfold createResponseError, body_reason.
    destruct (ResBody r) as [| | |status [d|]]; done. }
  subst w1. cbn [heap conns ndo trace emit set_clock set_ndo set_cindex] in *.
  split; [done|]. split; [done|]. split; [done|]. split; [|done].
  by rewrite Ht, <- app_assoc.
Qed.

Lemma rejected_answer_leaves_the_connection_witness :
  ∃ w' resp err,
    PerformRequest envIndexMissing (simpleClient (retries 2) None) 1 getRoot poolABC
    = Ok (resp, Some err) w'
    ∧ ErrorReason (Some err) = "no such index"
    ∧ heap w' = heap poolABC.
Proof.
  destruct (rejected_answer_leaves_the_connection envIndexMissing
              (simpleClient (retries 2) None) getRoot 1 poolABC epA [epB; epC])
    as (w' & req & r & err & evs & Hrun & Hdo & _ & Hreason & Hh & _).
  - reflexivity.
  - reflexivity.
  - reflexivity.
  - split; intros; reflexivity.
  - intros req. eexists _, _. split; [reflexivity|]. split; [reflexivity|].
    split; reflexivity.
  - lia.
  - eexists w', _, err. split; [exact Hrun|]. split; [|exact Hh].
    rewrite Hreason. cbn in Hdo. by injection Hdo as <-.
Defined.

(* ------------------------------------------------------------------ *)
(** * The startup health check and the pool *)

Lemma probes_only_refl w : probes_only w w.
Proof.
  unfold probes_only. repeat split; try done; try lia.
  exists []. rewrite app_nil_r, Nat.sub_diag. done.
Qed.

Lemma probes_only_trans w1 w2 w3 : probes_only w1 w2 → probes_only w2 w3 → probes_only w1 w3.
Proof.
  intros (Hc1 & Hi1 & Hh1 & Hp1 & Hk1 & Hn1 & evs1 & Ht1 & He1 & Hl1)
         (Hc2 & Hi2 & Hh2 & Hp2 & Hk2 & Hn2 & evs2 & Ht2 & He2 & Hl2).
  unfold probes_only.
  split; [congruence|]. split; [congruence|]. split; [congruence|].
  split; [congruence|]. split; [lia|]. split; [lia|].
  exists (evs1 ++ evs2). split; [by rewrite Ht2, Ht1, <- app_assoc|].
  split; [by rewrite forallb_app, He1, He2|]. rewrite length_app. lia.
Qed.

Lemma probes_only_clock w t : clock w ≤ t → probes_only w (set_clock t w).
Proof.
  intros Ht. unfold probes_only. cbn. repeat split; try done.
  exists []. rewrite app_nil_r, Nat.sub_diag. done.
Qed.

(** One round over the seed URLs touches nothing of the pool. *)
Lemma startup_urls_frame E c (us : list string) : ∀ lastErr w r w',
  startup_urls E c us lastErr w = Ok r w' → probes_only w w'.
Proof.
  induction us as [|u us IH]; intros lastErr w r w' Hrun.
  - cbn in Hrun. injection Hrun as _ <-. apply probes_only_refl.
  - cbn [startup_urls] in Hrun.
    destruct (env_NewRequest E "HEAD" u) as [err|].
    { injection Hrun as _ <-. apply probes_only_refl. }
    rewrite run_bind in Hrun. cbn [modify] in Hrun.
    rewrite run_bind, Do_run in Hrun.
    match type of Hrun with
    | context [env_Do E _ ?r] => set (req := r) in *
    end.
    set (w1 := set_clock (clock (emit (EvProbe None req) w)
                          + Z.max 0 (env_took E (ndo (emit (EvProbe None req) w))))
                 (set_ndo (S (ndo (emit (EvProbe None req) w)))
                    (emit (EvProbe None req) w))) in *.
    assert (H1 : probes_only w w1).
    { unfold probes_only, w1. cbn. repeat split; try done; try lia.
      exists [EvProbe None req]. repeat split; try done. cbn. lia. }
    destruct (env_Do E (ndo (emit (EvProbe None req) w)) req) as [res [e|]].
    + eapply probes_only_trans; [exact H1 | by eapply IH].
    + destruct res as [r0|]; [|done].
      destruct (bool_decide (200 ≤ StatusCode r0) && bool_decide (StatusCode r0 < 300)).
      * by injection Hrun as _ <-.
      * destruct (bool_decide (StatusCode r0 = 401));
          (eapply probes_only_trans; [exact H1 | by eapply IH]).
Qed.

Lemma startup_loop_frame E c (fuel : nat) : ∀ start timeout lastErr w r w',
  startupHealthcheck_loop E c fuel start timeout lastErr w = Ok r w' → probes_only w w'.
Proof.
  induction fuel as [|fuel IH]; intros start timeout lastErr w r w' Hrun; [done|].
  cbn [startupHealthcheck_loop] in Hrun. rewrite run_bind in Hrun.
  destruct (startup_urls E c (urls c) lastErr w) as [[ret|l] w1| |] eqn:Hus; try done.
  - injection Hrun as _ <-. by eapply startup_urls_frame.
  - apply startup_urls_frame in Hus.
    rewrite run_bind in Hrun. cbn [gets] in Hrun.
    destruct (env_ctxErr E (clock w1 + second)) as [e|].
    + by injection Hrun as _ <-.
    + rewrite run_bind in Hrun. cbn [modify] in Hrun.
      rewrite run_bind in Hrun. cbn [gets clock set_clock] in Hrun.
      assert (H2 : probes_only w1 (set_clock (clock w1 + second) w1)).
      { apply probes_only_clock. unfold second. lia. }
      destruct (bool_decide (timeout < clock w1 + second - start)).
      * injection Hrun as _ <-. by eapply probes_only_trans.
      * eapply probes_only_trans; [exact Hus|].
        eapply probes_only_trans; [exact H2 | by eapply IH].
Qed.


(** X18. The startup health check leaves the pool alone. Whatever it
    returns, the membership, the cursor and every connection are as before;
    time has passed, and the trace has gained exactly one probe per request
    handed to the [Doer], none of them addressed to a connection of the
    pool. It returns within the rounds its timeout allows. *)
Theorem startupHealthcheck_leaves_the_pool
  (E : Env) (c : Client) (fuel : nat) (timeout : Z) (w : World) :
  doer_total E → (1 ≤ fuel)%nat → timeout < Z.of_nat fuel * second →
  ∃ r w', startupHealthcheck E c fuel timeout w = Ok r w' ∧ probes_only w w'.
Proof.
  intros Hdo Hf Ht. unfold startupHealthcheck. rewrite run_bind. cbn [gets].
  destruct (startup_loop_spec E c Hdo fuel (clock w) timeout None w) as (r & w' & Hrun & _);
    [done | lia | by left |].
  exists r, w'. split; [done|]. by eapply startup_loop_frame.
Qed.

Lemma startupHealthcheck_leaves_the_pool_witness :
  ∃ r w', startupHealthcheck envRefused (simpleClient noRetries None) 3 second poolABC_Bdead
          = Ok r w'
          ∧ probes_only poolABC_Bdead w'.
Proof.
  apply (startupHealthcheck_leaves_the_pool envRefused (simpleClient noRetries None) 3
           second poolABC_Bdead).
  - intros k req. discriminate.
  - lia.
  - unfold second. lia.
Defined.



(** A round stops at the first URL that answers with a 2xx status. *)
Lemma startup_urls_first_healthy E c (us1 : list string) : ∀ u us2 lastErr w,
  (∀ v, env_NewRequest E "HEAD" v = None) → doer_total E →
  (∀ i req r, (ndo w ≤ i < ndo w + length us1)%nat →
     env_Do E i req = (Some r, None) → ¬ 200 ≤ StatusCode r < 300) →
  (∀ req, ∃ r, env_Do E (ndo w + length us1) req = (Some r, None)
               ∧ 200 ≤ StatusCode r < 300) →
  ∃ w', startup_urls E c (us1 ++ u :: us2) lastErr w = Ok (inl None) w'
        ∧ ndo w' = (ndo w + length us1 + 1)%nat
        ∧ clock w' = clock w + latency E (ndo w) (S (length us1)).
Proof.
  induction us1 as [|v us1 IH]; intros u us2 lastErr w Hnew Htot Hbad Hgood.
  - cbn [app startup_urls length] in *. rewrite Hnew.
    rewrite run_bind. cbn [modify]. rewrite run_bind, Do_run. cbn [ndo emit].
    match goal with |- context [env_Do E _ ?r] => destruct (Hgood r) as (r0 & Hr0 & Hs) end.
    rewrite Nat.add_0_r in Hr0. rewrite Hr0.
    rewrite !bool_decide_true by lia. cbn [andb].
    eexists. split; [reflexivity|]. rewrite latency_S. unfold latency.
    cbn [ndo clock set_clock set_ndo emit seq fmap list_fmap foldr]. split; lia.
  - cbn [app startup_urls length] in *. rewrite Hnew.
    rewrite run_bind. cbn [modify]. rewrite run_bind, Do_run. cbn [ndo emit].
    match goal with |- context [env_Do E _ ?r] => set (req := r) end.
    match goal with |- context [set_clock ?t ?x] => set (w1 := set_clock t x) end.
    assert (Hnext : ∀ l, ∃ w', startup_urls E c (us1 ++ u :: us2) l w1 = Ok (inl None) w'
                              ∧ ndo w' = (ndo w + S (length us1) + 1)%nat
                              ∧ clock w' = clock w + latency E (ndo w) (S (S (length us1)))).
    { intros l. destruct (IH u us2 l w1 Hnew Htot) as (w' & Hrun & Hn & Hcl).
      - intros i rq r Hi. apply Hbad. cbn [w1 ndo set_clock set_ndo emit] in Hi. lia.
      - intros rq. cbn [w1 ndo set_clock set_ndo emit].
        replace (S (ndo w) + length us1)%nat with (ndo w + S (length us1))%nat by lia.
        apply Hgood.
      - exists w'. split; [done|]. rewrite Hn, Hcl, (latency_S E (ndo w)).
        cbn [w1 ndo clock set_clock set_ndo emit]. split; lia. }
    destruct (env_Do E (ndo w) req) as [res [e|]] eqn:Hdo.
    + apply Hnext.
    + destruct res as [r|]; [|by apply Htot in Hdo].
      assert (Hr : ¬ 200 ≤ StatusCode r < 300) by (apply (Hbad (ndo w) req); [lia | done]).
      destruct (bool_decide (200 ≤ StatusCode r) && bool_decide (StatusCode r < 300)) eqn:Hb.
      { apply andb_prop in Hb as [H1 H2]. apply bool_decide_eq_true in H1, H2. lia. }
      destruct (bool_decide (StatusCode r = 401)); apply Hnext.
Qed.

(** X22. The startup health check succeeds at the first seed URL that
    answers with a 2xx status: it returns nil at once, whatever the
    timeout, even one that is zero or negative, without waiting and
    without probing the URLs that follow; the URLs before it have each
    been probed once. The time that has passed is the time that these sends
    took: the second of waiting between rounds is not part of it. *)
Theorem startupHealthcheck_first_healthy_url
  (E : Env) (c : Client) (fuel : nat) (timeout : Z) (w : World)
  (us1 : list string) (u : string) (us2 : list string) :
  urls c = us1 ++ u :: us2 →
  (∀ v, env_NewRequest E "HEAD" v = None) → doer_total E →
  (∀ i req r, (ndo w ≤ i < ndo w + length us1)%nat →
     env_Do E i req = (Some r, None) → ¬ 200 ≤ StatusCode r < 300) →
  (∀ req, ∃ r, env_Do E (ndo w + length us1) req = (Some r, None)
               ∧ 200 ≤ StatusCode r < 300) →
  (1 ≤ fuel)%nat →
  ∃ w' evs,
    startupHealthcheck E c fuel timeout w = Ok None w'
    ∧ ndo w' = (ndo w + length us1 + 1)%nat
    ∧ clock w' = clock w + latency E (ndo w) (S (length us1))
    ∧ trace w' = trace w ++ evs ∧ length evs = S (length us1)
    ∧ conns w' = conns w ∧ heap w' = heap w.
Proof.
  intros Hus Hnew Htot Hbad Hgood Hfuel. destruct fuel as [|fuel]; [lia|].
  destruct (startup_urls_first_healthy E c us1 u us2 None w Hnew Htot Hbad Hgood)
    as (w' & Hrun & Hnd & Hcl).
  pose proof (startup_urls_frame _ _ _ _ _ _ _ Hrun)
    as (Hcs & _ & Hh & _ & _ & _ & evs & Ht & Hev & Hl).
  exists w', evs. split.
  { unfold startupHealthcheck. rewrite run_bind. cbn [gets startupHealthcheck_loop].
    by rewrite run_bind, Hus, Hrun. }
  split; [done|]. split; [done|]. split; [done|]. split; [lia | done].
Qed.

Lemma startupHealthcheck_first_healthy_url_witness :
  ∃ w', startupHealthcheck envBdownFirst (simpleClient noRetries None) 1 (-1) startWorld
        = Ok None w'
        ∧ ndo w' = 2%nat ∧ clock w' = clock startWorld.
Proof.
  destruct (startupHealthcheck_first_healthy_url envBdownFirst (simpleClient noRetries None)
              1 (-1) startWorld ["http://a:9200"] "http://b:9200" ["http://c:9200"])
    as (w' & evs & Hrun & Hnd & Hcl & _).
  - reflexivity.
  - reflexivity.
  - intros k req. cbn. by case_bool_decide.
  - intros i req r Hi. cbn in Hi. assert (i = 0%nat) as -> by lia. discriminate.
  - intros req. eexists. split; [reflexivity|]. cbn. lia.
  - lia.
  - exists w'. split; [exact Hrun|]. split; [exact Hnd | exact Hcl].
Defined.

(* ------------------------------------------------------------------ *)
(** * Setting up the pool: [NewSimpleClient] and [DialContext] *)


(** Appending one new connection per URL: the objects are new, pairwise
    distinct and in the order of the URLs; nothing else changes. *)
Lemma appendConns_run (us : list string) : ∀ w,
  ∃ w' new,
    appendConns us w = Ok tt w'
    ∧ conns w' = conns w ++ new ∧ cindex w' = cindex w
    ∧ clock w' = clock w ∧ ndo w' = ndo w ∧ nprobe w' = nprobe w ∧ trace w' = trace w
    ∧ NoDup new ∧ (∀ a, a ∈ new → heap w !! a = None)
    ∧ Forall2 (λ a u, heap w' !! a = Some (newConn u u)) new us
    ∧ (∀ b, b ∉ new → heap w' !! b = heap w !! b).
Proof.
  induction us as [|u us IH]; intros w.
  - exists w, []. cbn. rewrite app_nil_r. repeat split; try done.
    + constructor.
    + by intros a ?%elem_of_nil.
  - set (a := fresh (dom (heap w))).
    assert (Ha : heap w !! a = None).
    { apply not_elem_of_dom. apply is_fresh. }
    set (w1 := set_conns (conns w ++ [a]) (set_heap (<[a := newConn u u]> (heap w)) w)).
    destruct (IH w1) as (w' & new & Hrun & Hcs & Hci & Hcl & Hnd & Hnp & Ht & Hno & Hfresh
                         & Hall & Hfr).
    assert (Hnew : a ∉ new).
    { intros Hin. apply Hfresh in Hin. cbn in Hin. by rewrite lookup_insert_eq in Hin. }
    exists w', (a :: new). split.
    { cbn [appendConns]. unfold alloc. rewrite run_bind. fold a.
      rewrite run_bind. cbn [gets]. rewrite run_bind. cbn [modify]. exact Hrun. }
    split. { rewrite Hcs. cbn. by rewrite <- app_assoc. }
    split; [done|]. split; [done|]. split; [done|]. split; [done|]. split; [done|].
    split. { by constructor. }
    split.
    { intros b [->|Hb]%elem_of_cons; [done|].
      apply Hfresh in Hb. cbn in Hb.
      destruct (decide (a = b)) as [->|Hne]; [by rewrite lookup_insert_eq in Hb|].
      by rewrite lookup_insert_ne in Hb. }
    split.
    { constructor; [|done]. rewrite Hfr by done. cbn. by rewrite lookup_insert_eq. }
    intros b Hb. apply not_elem_of_cons in Hb as [Hne Hb].
    rewrite Hfr by done. cbn. by rewrite lookup_insert_ne.
Qed.

Lemma new_conns_live h (new : list addr) (us : list string) :
  Forall2 (λ a u, h !! a = Some (newConn u u)) new us →
  valid h new = true ∧ Forall (λ a, liveAt h a = true) new.
Proof.
  intros H. split.
  - apply valid_intro. intros a Ha.
    apply list_elem_of_lookup in Ha as (i & Hi).
    destruct (Forall2_lookup_l _ _ _ _ _ H Hi) as (u & _ & ->). done.
  - apply Forall_forall. intros a Ha.
    apply list_elem_of_lookup in Ha as (i & Hi).
    destruct (Forall2_lookup_l _ _ _ _ _ H Hi) as (u & _ & Hu).
    unfold liveAt. by rewrite Hu.
Qed.


(** X21. [DialContext], once the options have run. With health checks
    disabled it sets up the pool as [NewSimpleClient] does. With health
    checks enabled, an error of the startup health check is returned as it
    is and no connection is created; after a startup health check that
    passed, the pool holds one new connection per URL, each probed once by
    the forced health check that follows, and the call succeeds exactly
    when that check left a connection alive, failing otherwise with an
    error that wraps [ErrNoClient]. *)
Theorem DialContext_pool (E : Env) (c : Client) (fuel : nat) (timeout : Z) (w : World) :
  (healthcheckEnabled c = false → DialContext E c fuel timeout w = NewSimpleClient c w)
  ∧ (healthcheckEnabled c = true →
     ∀ r0 w0,
       startupHealthcheck E c fuel timeout (set_cindex (-1) (set_conns [] w)) = Ok r0 w0 →
       match r0 with
       | Some err => DialContext E c fuel timeout w = Ok (Some err) w0 ∧ conns w0 = []
       | None =>
           ∃ r w',
             DialContext E c fuel timeout w = Ok r w'
             ∧ cindex w' = -1 ∧ NoDup (conns w')
             ∧ (∀ a, a ∈ conns w' → heap w !! a = None)
             ∧ Forall2 (λ a u, key (heap w') a = Some (u, u)) (conns w') (urls c)
             ∧ nprobe w' = (nprobe w0 + length (urls c))%nat
             ∧ (r = None ↔ ∃ a, a ∈ conns w' ∧ liveAt (heap w') a = true)
             ∧ (∀ e, r = Some e → Cause e = ErrNoClient)
       end).
Proof.
  split.
  - intros Hoff. unfold DialContext, NewSimpleClient. by rewrite Hoff.
  - intros Hon r0 w0 Hstart.
    assert (Hframe : probes_only (set_cindex (-1) (set_conns [] w)) w0).
    { unfold startupHealthcheck in Hstart. rewrite run_bind in Hstart.
      cbn [gets] in Hstart. by eapply startup_loop_frame. }
    destruct Hframe as (Hcs0 & Hci0 & Hh0 & _).
    cbn [conns cindex heap set_cindex set_conns] in Hcs0, Hci0, Hh0.
    assert (Hhead : DialContext E c fuel timeout w
      = match r0 with
        | Some err => Ok (Some err) w0
        | None => (appendConns (urls c);; healthcheck E c true;; mustActiveConn) w0
        end).
    { unfold DialContext. rewrite Hon.
      rewrite (run_bind emptyPool).
      change (emptyPool w) with (Ok tt (set_cindex (-1) (set_conns [] w))).
      cbv beta iota. rewrite run_bind, Hstart. by destruct r0. }
    rewrite Hhead. destruct r0 as [err|]; [done|].
    destruct (appendConns_run (urls c) w0)
      as (w1 & new & Hrun1 & Hcs1 & Hci1 & Hcl1 & Hnd1 & Hnp1 & Ht1 & Hno & Hfresh & Hall & Hfr).
    rewrite Hcs0 in Hcs1. cbn [app] in Hcs1.
    destruct (new_conns_live _ _ _ Hall) as [Hv1 Hlive1].
    rewrite <- Hcs1 in Hv1.
    destruct (sweep_frame E c (conns w1) w1 Hv1)
      as (w2 & evs2 & Hrun2 & Hcs2 & Hci2 & Hnp2 & Hnd2 & Hkey2 & Hfr2 & Ht2 & Hev2 & Hmd2
          & Hout2).
    assert (Hv2 : valid (heap w2) (conns w2) = true).
    { rewrite Hcs2. by apply (key_valid (heap w1)). }
    eexists _, w2. split.
    { rewrite run_bind, Hrun1, run_bind. unfold healthcheck.
      cbn [negb andb]. rewrite andb_false_r, run_bind. cbn [gets]. rewrite Hrun2.
      unfold mustActiveConn. rewrite run_bind. cbn [gets].
      rewrite (mustActiveConn_loop_run _ _ Hv2). reflexivity. }
    rewrite Hcs2, Hcs1. split; [congruence|]. split; [done|].
    split. { intros a Ha. rewrite <- Hh0. by apply Hfresh. }
    split.
    { eapply Forall2_impl; [exact Hall|]. intros a u Ha. cbn beta in *.
      rewrite Hkey2. unfold key. by rewrite Ha. }
    split. { rewrite Hnp2, Hnp1, Hcs1. f_equal. by apply Forall2_length in Hall. }
    destruct (existsb (liveAt (heap w2)) new) eqn:Hex.
    + split; [|done]. split; [|done]. intros _.
      apply existsb_exists in Hex as (a & Ha & Hl). exists a.
      split; [by apply list_elem_of_In | done].
    + split; [|by intros e [= <-]]. split; [done|].
      intros (a & Ha & Hl). assert (existsb (liveAt (heap w2)) new = true); [|congruence].
      apply existsb_exists. exists a. split; [by apply list_elem_of_In | done].
Qed.

Lemma DialContext_pool_witness :
  ∃ w', DialContext (envStatus 200) checkingClient 1 second startWorld = Ok None w'
        ∧ length (conns w') = 3%nat ∧ nprobe w' = 3%nat.
Proof.
  destruct (DialContext_pool (envStatus 200) checkingClient 1 second startWorld) as [_ H].
  assert (Hs : startupHealthcheck (envStatus 200) checkingClient 1 second
                 (set_cindex (-1) (set_conns [] startWorld))
               = Ok None (match startupHealthcheck (envStatus 200) checkingClient 1 second
                                  (set_cindex (-1) (set_conns [] startWorld))
                          with Ok _ x => x | _ => startWorld end)).
  { vm_compute. reflexivity. }
  destruct (H eq_refl None _ Hs) as (r & w' & Hrun & _ & _ & _ & Hall & Hnp & _).
  assert (Hr : r = None).
  { pose proof Hrun as Hc. vm_compute in Hc. by injection Hc as <- _. }
  rewrite Hr in Hrun.
  exists w'. split; [exact Hrun|].
  split; [|exact Hnp]. by apply Forall2_length in Hall.
Defined.

(* ------------------------------------------------------------------ *)
(** * [PerformRequest]: errors of the retrier and of [newResponse] *)

(** X23. An error of the retrier ends the call, even when the retrier says
    "retry" along with it: after a send that failed with a transport error
    the call returns the error of the retrier, not the one of the send,
    having marked the connection dead, without sleeping and without a
    second send. *)
Theorem retrier_error_ends_the_call
  (E : Env) (c : Client) (opt : PerformRequestOptions) (fuel : nat) (w : World)
  (a : addr) (L : list addr) (re : error) :
  cursor_ok w = true → valid (heap w) (conns w) = true → live_cycle w = a :: L →
  builds E → sends_fail E (ndo w) 1 →
  (∀ req res err, ∃ wait ok, callRetrier c opt 1 req res err = (wait, ok, Some re)) →
  (1 ≤ fuel)%nat →
  ∃ w' evs k t,
    PerformRequest E c fuel opt w = Ok (None, Some re) w'
    ∧ conns w' = conns w ∧ ndo w' = S (ndo w)
    ∧ trace w' = trace w ++ evs
    ∧ sent_to evs = [a] ∧ consulted evs = [1] ∧ slept evs = [] ∧ marked_dead evs = [a]
    ∧ heap w !! a = Some k ∧ heap w' = <[a := deadened t k]> (heap w).
Proof.
  intros Hc Hv HL [Hn Hb] Hdo Hrt Hfuel. destruct fuel as [|fuel]; [lia|].
  destruct (iter_sends E c opt (callMethod c opt) (callRetrier c opt)
              (callRetryStatusCodes c opt) false 0 w a L Hc Hv HL Hn Hb)
    as (p & req & w1 & Hw1 & Hrun & Hc1 & HL1).
  destruct (Hdo (ndo w) req) as (res & e & Hres & He); [lia|].
  destruct (Hrt (Some req) res (Some e)) as (wait & ok & Hwait).
  assert (Ha : a ∈ live_cycle w) by (rewrite HL; left).
  apply live_cycle_elem in Ha as [_ Ha].
  destruct (valid_lookup _ _ a Hv Ha) as [k Hk].
  rewrite Hres in Hrun. cbn [fst snd] in Hrun.
  rewrite (afterDo_transport_stop _ _ _ _ _ _ _ _ _ _ _ _ wait ok (Some re) k He) in Hrun;
    [| by subst w1 | done | by right].
  change (incr 0) with 1 in Hrun.
  eexists _, ([EvDo a req; EvRetry 1]
              ++ (if errorlog c then [EvErrorf (LogIsDead (url k))] else [])
              ++ [EvMarkAsDead a]), k, (clock w1).
  split; [unfold PerformRequest; by apply loop_Return|].
  subst w1. cbn [heap conns ndo trace clock set_clock emit set_ndo set_cindex set_heap].
  destruct (errorlog c);
    cbn [heap conns ndo trace clock set_clock emit set_ndo set_cindex set_heap];
    (split; [done|]); (split; [done|]); (split; [by rewrite <- !app_assoc|]);
    (split; [done|]); (split; [done|]); (split; [done|]); (split; [done|]);
    (split; [done|]); done.
Qed.

Lemma retrier_error_ends_the_call_witness :
  ∃ w', PerformRequest envRefused (simpleClient failingRetrier None) 1 getRoot poolABC
        = Ok (None, Some retrierError) w'
        ∧ sent_to (trace w') = [epA] ∧ marked_dead (trace w') = [epA].
Proof.
  destruct (retrier_error_ends_the_call envRefused (simpleClient failingRetrier None)
              getRoot 1 poolABC epA [epB; epC] retrierError)
    as (w' & evs & k & t & Hrun & _ & _ & Ht & Hs & _ & _ & Hm & _).
  - reflexivity.
  - reflexivity.
  - reflexivity.
  - split; intros; reflexivity.
  - intros i req Hi. exists None, connectionRefused. split; reflexivity.
  - intros req res err. exists 0, true. reflexivity.
  - lia.
  - exists w'. split; [exact Hrun|]. rewrite Ht. split; [exact Hs | exact Hm].
Defined.

(** X24. The connection is marked healthy before the response is read: a
    call whose send is answered with an accepted status and a body that can
    be closed, but whose response [newResponse] cannot read, returns the error of [newResponse] and no
    response, and has all the same marked the connection healthy. The
    retrier is not consulted and nothing is marked dead. *)
Theorem unreadable_response_still_marks_healthy
  (E : Env) (c : Client) (opt : PerformRequestOptions) (fuel : nat) (w : World)
  (a : addr) (L : list addr) (e : error) :
  cursor_ok w = true → valid (heap w) (conns w) = true → live_cycle w = a :: L →
  builds E → answers_unreadably E opt (callRetryStatusCodes c opt) (ndo w) e →
  (1 ≤ fuel)%nat →
  ∃ w' evs k,
    PerformRequest E c fuel opt w = Ok (None, Some e) w'
    ∧ conns w' = conns w ∧ ndo w' = S (ndo w)
    ∧ heap w !! a = Some k ∧ heap w' = <[a := healthy k]> (heap w)
    ∧ trace w' = trace w ++ evs
    ∧ sent_to evs = [a] ∧ consulted evs = [] ∧ slept evs = [] ∧ marked_dead evs = []
    ∧ EvMarkAsHealthy a ∈ evs.
Proof.
  intros Hc Hv HL [Hn Hb] Hdo Hfuel. destruct fuel as [|fuel]; [lia|].
  destruct (iter_sends E c opt (callMethod c opt) (callRetrier c opt)
              (callRetryStatusCodes c opt) false 0 w a L Hc Hv HL Hn Hb)
    as (p & req & w1 & Hw1 & Hrun & Hc1 & HL1).
  destruct (Hdo req) as (r & resp & Hres & Hbody & Hcode & Hcheck & Hnew).
  assert (Ha : a ∈ live_cycle w) by (rewrite HL; left).
  apply live_cycle_elem in Ha as [_ Ha].
  destruct (valid_lookup _ _ a Hv Ha) as [k Hk].
  rewrite Hres in Hrun. cbn [fst snd] in Hrun.
  rewrite afterDo_status_plain in Hrun by done.
  destruct (finishRequest_success E c opt (callMethod c opt) a req r w1 k Hbody Hcheck)
    as (w' & w0 & w2 & Hfin & Hq0 & Hw2 & Hq2).
  { by subst w1. }
  { by rewrite Hnew. }
  rewrite Hnew in Hfin. rewrite Hfin in Hrun.
  apply quiet_fields in Hq0 as (Hcs0 & _ & Hh0 & _ & Hn0 & _ & evs0 & Ht0 & Hl0).
  apply quiet_fields in Hq2 as (Hcs2 & _ & Hh2 & _ & Hn2 & _ & evs2 & Ht2 & Hl2).
  apply log_silent in Hl0 as (Hs0 & Hm0 & Hr0 & Hz0).
  apply log_silent in Hl2 as (Hs2 & Hm2 & Hr2 & Hz2).
  exists w', ([EvDo a req] ++ evs0 ++ [EvMarkAsHealthy a] ++ evs2), k.
  split; [unfold PerformRequest; by apply loop_Return|].
  subst w2 w1. cbn [heap conns ndo trace emit set_heap set_clock set_ndo set_cindex] in *.
  split. { by rewrite Hcs2, Hcs0. }
  split. { by rewrite Hn2, Hn0. }
  split; [done|].
  split. { by rewrite Hh2, Hh0. }
  split. { rewrite Ht2, Ht0. by rewrite <- !app_assoc. }
  rewrite !sent_to_app, !consulted_app, !slept_app, !marked_dead_app.
  rewrite Hs0, Hm0, Hr0, Hz0, Hs2, Hm2, Hr2, Hz2.
  split; [done|]. split; [done|]. split; [done|]. split; [done|].
  rewrite !elem_of_app. right. right. left. left.
Qed.

Lemma unreadable_response_still_marks_healthy_witness :
  ∃ w', PerformRequest envUnreadable (simpleClient (retries 2) None) 1 getRoot poolABC
        = Ok (None, Some bodyTooLarge) w'
        ∧ heap w' !! epA = Some (healthy nodeA).
Proof.
  destruct (unreadable_response_still_marks_healthy envUnreadable
              (simpleClient (retries 2) None) getRoot 1 poolABC epA [epB; epC] bodyTooLarge)
    as (w' & evs & k & Hrun & _ & _ & Hk & Hh & _).
  - reflexivity.
  - reflexivity.
  - reflexivity.
  - split; intros; reflexivity.
  - intros req. eexists _, _. split; [reflexivity|]. split; [reflexivity|].
    split; [reflexivity|]. split; reflexivity.
  - lia.
  - exists w'. split; [exact Hrun|]. rewrite Hh, lookup_insert_eq.
    cbn in Hk. by injection Hk as <-.
Defined.


